(** * offer-lens: the Monte Carlo portfolio simulators

    A shallow embedding of the simulation and statistics core of
    [portfolio_monte_carlo.py] and [portfolio_simulator.py].

    Numeric model.  The scripts compute with NumPy [float64] arrays.  The
    embedding uses exact real arithmetic for finite values and one extra
    value [NaN] for the undefined results the scripts can produce (the mean
    of an empty selection, a statistic of an empty sample, a quotient by
    zero, the logarithm or square root outside its domain).  Rounding,
    overflow to an infinity and underflow to zero are outside the model:
    every statement below is a statement about the arithmetic the scripts
    approximate.  Operations whose IEEE result is an infinity (a non-zero
    quotient by zero, [log 0]) are mapped to [NaN]; the theorems about the
    prices and values simulated from a price panel assume strictly positive
    prices, where no such operation is evaluated.

    Shapes.  NumPy raises on a shape mismatch.  The elementwise operations
    of the embedding truncate to the shorter operand instead; the two agree
    on well-shaped inputs (one weight and one price per column). *)

From Stdlib Require Import String Reals Lra Lia Arith Bool List.
Import ListNotations.

Set Warnings "-abstract-large-number".

(** ** Exceptions *)

Inductive exn : Type :=
| LinAlgError    (* numpy.linalg.LinAlgError: matrix is not positive definite *)
| KeyError       (* a ticker of the panel is missing from the portfolio dict *)
| IndexError.    (* prices.iloc[-1] on an empty panel *)

Definition result (A : Type) : Type := (exn + A)%type.

Definition ret {A} (a : A) : result A := inr a.
Definition raise {A} (e : exn) : result A := inl e.
Definition bind {A B} (m : result A) (k : A -> result B) : result B :=
  match m with
  | inl e => inl e
  | inr a => k a
  end.

Notation "x <- m ;; k" := (bind m (fun x => k))
  (at level 61, m at next level, right associativity).

(** [for i in range(n): s = body(i, s)] *)
Definition for_range {S : Type} (n : nat) (body : nat -> S -> S) (s : S) : S :=
  fold_left (fun acc i => body i acc) (seq 0 n) s.

(** [for i in range(lo, lo + n): s = body(i, s)] *)
Definition for_range_from {S : Type} (lo n : nat) (body : nat -> S -> S) (s : S) : S :=
  fold_left (fun acc i => body i acc) (seq lo n) s.

(** ** The NumPy layer *)

Module NumPy.
Local Open Scope R_scope.

Inductive npfloat : Type :=
| Num (r : R)
| NaN.

Definition lift2 (f : R -> R -> R) (a b : npfloat) : npfloat :=
  match a, b with
  | Num x, Num y => Num (f x y)
  | _, _ => NaN
  end.

Definition fadd : npfloat -> npfloat -> npfloat := lift2 Rplus.
Definition fsub : npfloat -> npfloat -> npfloat := lift2 Rminus.
Definition fmul : npfloat -> npfloat -> npfloat := lift2 Rmult.

Definition fdiv (a b : npfloat) : npfloat :=
  match a, b with
  | Num x, Num y => if Req_dec_T y 0 then NaN else Num (x / y)
  | _, _ => NaN
  end.

(** [np.exp], [np.sqrt], [np.log] *)
Definition fexp (a : npfloat) : npfloat :=
  match a with
  | Num x => Num (exp x)
  | NaN => NaN
  end.

Definition fsqrt (a : npfloat) : npfloat :=
  match a with
  | Num x => if Rlt_dec x 0 then NaN else Num (sqrt x)
  | NaN => NaN
  end.

Definition flog (a : npfloat) : npfloat :=
  match a with
  | Num x => if Rlt_dec 0 x then Num (ln x) else NaN
  | NaN => NaN
  end.

(** Comparisons: every comparison with [NaN] is false. *)
Definition fltb (a b : npfloat) : bool :=
  match a, b with
  | Num x, Num y => if Rlt_dec x y then true else false
  | _, _ => false
  end.

Definition fleb (a b : npfloat) : bool :=
  match a, b with
  | Num x, Num y => if Rle_dec x y then true else false
  | _, _ => false
  end.

(** [a == b] *)
Definition feqb (a b : npfloat) : bool :=
  match a, b with
  | Num x, Num y => if Req_dec_T x y then true else false
  | _, _ => false
  end.

Definition isnan (a : npfloat) : bool :=
  match a with
  | Num _ => false
  | NaN => true
  end.

Definition finite (a : npfloat) : Prop := exists r, a = Num r.
Definition positive (a : npfloat) : Prop := exists r, a = Num r /\ 0 < r.

Definition of_bool (b : bool) : npfloat := if b then Num 1 else Num 0.

(** Elementwise binary operation on two arrays. *)
Fixpoint map2 {A B C} (f : A -> B -> C) (xs : list A) (ys : list B) : list C :=
  match xs, ys with
  | x :: xs', y :: ys' => f x y :: map2 f xs' ys'
  | _, _ => []
  end.

Definition np_sum (a : list npfloat) : npfloat := fold_right fadd (Num 0) a.

(** [np.mean]: the sum over the count; [0/0 = NaN] on an empty array. *)
Definition np_mean (a : list npfloat) : npfloat :=
  fdiv (np_sum a) (Num (INR (length a))).

(** [np.std]: population standard deviation. *)
Definition np_std (a : list npfloat) : npfloat :=
  let m := np_mean a in
  fsqrt (np_mean (map (fun x => let d := fsub x m in fmul d d) a)).

(** [np.dot] of two vectors, and [M @ v]. *)
Fixpoint dot (xs ys : list npfloat) : npfloat :=
  match xs, ys with
  | x :: xs', y :: ys' => fadd (fmul x y) (dot xs' ys')
  | _, _ => Num 0
  end.

Definition matvec (m : list (list npfloat)) (v : list npfloat) : list npfloat :=
  map (fun row => dot row v) m.

(** [np.diag(m)] and [np.eye(n)] *)
Definition diag (m : list (list npfloat)) : list npfloat :=
  map (fun i => nth i (nth i m []) NaN) (seq 0 (length m)).

Definition eye (n : nat) : list (list npfloat) :=
  map (fun i => map (fun j => if Nat.eqb i j then Num 1 else Num 0) (seq 0 n))
      (seq 0 n).

Definition mat_add (a b : list (list npfloat)) : list (list npfloat) :=
  map2 (map2 fadd) a b.

Definition mat_scale (a : list (list npfloat)) (c : npfloat) : list (list npfloat) :=
  map (map (fun x => fmul x c)) a.

(** *** Order statistics *)

Fixpoint insert (x : R) (l : list R) : list R :=
  match l with
  | [] => [x]
  | y :: l' => if Rle_dec x y then x :: l else y :: insert x l'
  end.

Fixpoint sort (l : list R) : list R :=
  match l with
  | [] => []
  | x :: l' => insert x (sort l')
  end.

(** The finite values of an array, or [None] when it holds a [NaN]. *)
Fixpoint finite_values (a : list npfloat) : option (list R) :=
  match a with
  | [] => Some []
  | Num x :: a' =>
      match finite_values a' with
      | Some xs => Some (x :: xs)
      | None => None
      end
  | NaN :: _ => None
  end.

(** [np.percentile(a, q)] with the default linear method, for an integer
    [q] in [0, 100]: the virtual index is [(n-1)*q/100], its floor is the
    lower neighbour and its fractional part the interpolation weight.  A
    [NaN] in the array, or an empty array, gives [NaN]. *)
Definition np_percentile (a : list npfloat) (q : nat) : npfloat :=
  match finite_values a with
  | None => NaN
  | Some [] => NaN
  | Some xs =>
      let s := sort xs in
      let n := length s in
      let pos := ((n - 1) * q)%nat in
      let lo := (pos / 100)%nat in
      let hi := Nat.min (lo + 1) (n - 1) in
      let g := INR (pos mod 100) / 100 in
      Num (nth lo s 0 + (nth hi s 0 - nth lo s 0) * g)
  end.

(** [np.median]: the middle order statistic, or the mean of the two middle
    ones. *)
Definition np_median (a : list npfloat) : npfloat :=
  match finite_values a with
  | None => NaN
  | Some [] => NaN
  | Some xs =>
      let s := sort xs in
      let n := length s in
      if Nat.odd n then Num (nth (n / 2) s 0)
      else np_mean [Num (nth (n / 2 - 1) s 0); Num (nth (n / 2) s 0)]
  end.

(** *** Cholesky factorisation

    [np.linalg.cholesky] reads the lower triangle and returns the lower
    factor, row by row: the off-diagonal entries of row [i] from the rows
    above, then the pivot [a_ii - sum_k l_ik^2].  A pivot that is not
    strictly positive (or is [NaN]) raises [LinAlgError]. *)

Fixpoint chol_offdiag (ai : list npfloat) (above : list (list npfloat))
         (cur : list npfloat) (j : nat) : list npfloat :=
  match above with
  | [] => cur
  | lj :: above' =>
      let lij := fdiv (fsub (nth j ai NaN) (dot cur lj)) (nth j lj NaN) in
      chol_offdiag ai above' (cur ++ [lij]) (S j)
  end.

Definition chol_row (n : nat) (ai : list npfloat) (above : list (list npfloat))
  : result (list npfloat) :=
  let i := length above in
  let cur := chol_offdiag ai above [] 0 in
  let d := fsub (nth i ai NaN) (dot cur cur) in
  if fltb (Num 0) d
  then ret (cur ++ [fsqrt d] ++ repeat (Num 0) (n - i - 1))
  else raise LinAlgError.

Fixpoint chol_rows (n : nat) (rows : list (list npfloat))
         (above : list (list npfloat)) : result (list (list npfloat)) :=
  match rows with
  | [] => ret above
  | ai :: rows' =>
      li <- chol_row n ai above ;;
      chol_rows n rows' (above ++ [li])
  end.

Definition cholesky (a : list (list npfloat)) : result (list (list npfloat)) :=
  chol_rows (length a) a [].

(** *** Two- and three-dimensional result arrays

    [np.zeros(shape)] followed by assignments at indices inside the shape:
    an array is its shape and its entries. *)

Record ndarray2 : Type := mk2 {
  nrows : nat;
  ncols : nat;
  at2 : nat -> nat -> npfloat
}.

Definition zeros2 (r c : nat) : ndarray2 := mk2 r c (fun _ _ => Num 0).

(** [m[i, j] = v] *)
Definition set2 (m : ndarray2) (i j : nat) (v : npfloat) : ndarray2 :=
  mk2 (nrows m) (ncols m)
      (fun i' j' => if Nat.eqb i' i && Nat.eqb j' j then v else at2 m i' j').

(** [m[i, :] = v] *)
Definition set_row2 (m : ndarray2) (i : nat) (v : npfloat) : ndarray2 :=
  mk2 (nrows m) (ncols m)
      (fun i' j' => if Nat.eqb i' i then v else at2 m i' j').

(** [m[:, j] = xs] *)
Definition set_col2 (m : ndarray2) (j : nat) (xs : list npfloat) : ndarray2 :=
  mk2 (nrows m) (ncols m)
      (fun i' j' => if Nat.eqb j' j then nth i' xs NaN else at2 m i' j').

(** [m[-1, :]] *)
Definition last_row2 (m : ndarray2) : list npfloat :=
  map (fun j => at2 m (nrows m - 1) j) (seq 0 (ncols m)).

Record ndarray3 : Type := mk3 {
  dim0 : nat;
  dim1 : nat;
  dim2 : nat;
  at3 : nat -> nat -> nat -> npfloat
}.

Definition zeros3 (a b c : nat) : ndarray3 := mk3 a b c (fun _ _ _ => Num 0).

Definition set3 (m : ndarray3) (i j k : nat) (v : npfloat) : ndarray3 :=
  mk3 (dim0 m) (dim1 m) (dim2 m)
      (fun i' j' k' =>
         if Nat.eqb i' i && Nat.eqb j' j && Nat.eqb k' k then v
         else at3 m i' j' k').

(** [m[i, j, :] = v] *)
Definition set_line3 (m : ndarray3) (i j : nat) (v : npfloat) : ndarray3 :=
  mk3 (dim0 m) (dim1 m) (dim2 m)
      (fun i' j' k' =>
         if Nat.eqb i' i && Nat.eqb j' j then v else at3 m i' j' k').

(** *** The global random generator

    The state of [np.random] is the stream of standard-normal variates it
    will deliver.  [np.random.normal(size=k)] takes the next [k] of them;
    [np.random.seed(s)] replaces the stream by the one the seed
    determines. *)

Definition rng : Type := nat -> R.

Definition advance (g : rng) (k : nat) : rng := fun i => g (k + i)%nat.

Definition random_normal (g : rng) (k : nat) : list npfloat * rng :=
  (map (fun i => Num (g i)) (seq 0 k), advance g k).

End NumPy.

(** ** The pandas layer: a date-indexed table, one column per ticker *)

Module Pandas.
Import NumPy.
Local Open Scope R_scope.

Record frame : Type := mkframe {
  columns : list string;
  rows : list (list npfloat)      (* ascending dates *)
}.

(** [df.shift(1)]: every row moves one date down, the first row is [NaN]. *)
Definition shift1 (df : frame) : frame :=
  mkframe (columns df)
          (match rows df with
           | [] => []
           | _ :: _ => repeat NaN (length (columns df)) :: removelast (rows df)
           end).

(** [np.log(a / b)], elementwise on two tables. *)
Definition log_ratio (a b : frame) : frame :=
  mkframe (columns a)
          (map2 (map2 (fun x y => flog (fdiv x y))) (rows a) (rows b)).

(** [df.dropna()]: the rows without a [NaN]. *)
Definition dropna (df : frame) : frame :=
  mkframe (columns df) (filter (fun r => negb (existsb isnan r)) (rows df)).

(** [np.log(prices / prices.shift(1)).dropna()] *)
Definition log_returns (prices : frame) : frame :=
  dropna (log_ratio prices (shift1 prices)).

Definition column (j : nat) (df : frame) : list npfloat :=
  map (fun r => nth j r NaN) (rows df).

(** [df.mean().values]: the mean of every column. *)
Definition mean (df : frame) : list npfloat :=
  map (fun j => np_mean (column j df)) (seq 0 (length (columns df))).

(** The sample covariance (one delta degree of freedom) of two columns;
    [NaN] with fewer than two observations. *)
Definition cov_entry (xs ys : list npfloat) : npfloat :=
  if (length xs <=? 1)%nat then NaN
  else
    let mx := np_mean xs in
    let my := np_mean ys in
    fdiv (np_sum (map2 (fun x y => fmul (fsub x mx) (fsub y my)) xs ys))
         (Num (INR (length xs) - 1)).

(** [df.cov().values] *)
Definition cov (df : frame) : list (list npfloat) :=
  map (fun i =>
         map (fun j => cov_entry (column i df) (column j df))
             (seq 0 (length (columns df))))
      (seq 0 (length (columns df))).

(** [Series.sum()], also through [np.sum] of a Series, and
    [DataFrame.sum(axis=1)] on one row: pandas skips [NaN]. *)
Definition series_sum (a : list npfloat) : npfloat :=
  np_sum (filter (fun x => negb (isnan x)) a).

(** [df.iloc[-1]] *)
Definition iloc_last (df : frame) : result (list npfloat) :=
  match rows df with
  | [] => raise IndexError
  | r :: rs => ret (last rs r)
  end.

End Pandas.

(** ** The covariance factorisation shared by the two scripts

    [try: chol = cholesky(cov)
     except LinAlgError: cov += np.eye(n) * 1e-6; chol = cholesky(cov)]

    The in-place [+=] changes the covariance the rest of the function
    reads, so the factorisation returns the covariance with its factor. *)

Module Factor.
Import NumPy.
Local Open Scope R_scope.

Definition epsilon : R := 1 / 1000000.

Definition regularize (n : nat) (cov : list (list npfloat)) : list (list npfloat) :=
  mat_add cov (mat_scale (eye n) (Num epsilon)).

Definition factorize (n : nat) (cov : list (list npfloat))
  : result (list (list npfloat) * list (list npfloat)) :=
  match cholesky cov with
  | inr chol => ret (cov, chol)
  | inl LinAlgError =>
      let cov' := regularize n cov in
      chol <- cholesky cov' ;;
      ret (cov', chol)
  | inl e => raise e
  end.

End Factor.

(** ** portfolio_monte_carlo.py *)

Module MonteCarlo.
Import NumPy Pandas Factor.
Local Open Scope R_scope.

Record holding : Type := mkholding {
  allocation_pct : npfloat;
  allocation_dollar : npfloat;
  shares : npfloat;
  current_price : npfloat
}.

Record statistics : Type := mkstats {
  returns : frame;
  weights : list npfloat;
  mean_returns : list npfloat;
  cov_matrix : list (list npfloat);
  portfolio_return : npfloat;
  portfolio_volatility : npfloat;
  latest_prices : list npfloat;
  portfolio_breakdown : list (string * holding)
}.

(** [portfolio[ticker]] on the dict of percentages *)
Fixpoint lookup (portfolio : list (string * npfloat)) (ticker : string)
  : result npfloat :=
  match portfolio with
  | [] => raise KeyError
  | (k, v) :: rest => if String.eqb k ticker then ret v else lookup rest ticker
  end.

(** [[portfolio[ticker]/100 for ticker in prices.columns]] *)
Fixpoint weights_of (portfolio : list (string * npfloat)) (tickers : list string)
  : result (list npfloat) :=
  match tickers with
  | [] => ret []
  | t :: ts =>
      p <- lookup portfolio t ;;
      ws <- weights_of portfolio ts ;;
      ret (fdiv p (Num 100) :: ws)
  end.

Definition breakdown (tickers : list string) (w latest : list npfloat)
           (initial_investment : npfloat) : list (string * holding) :=
  map (fun i =>
         let dollar_allocation := fmul initial_investment (nth i w NaN) in
         (nth i tickers EmptyString,
          mkholding (fmul (nth i w NaN) (Num 100))
                    dollar_allocation
                    (fdiv dollar_allocation (nth i latest NaN))
                    (nth i latest NaN)))
      (seq 0 (length tickers)).

Definition calculate_portfolio_statistics (prices : frame)
           (portfolio : list (string * npfloat)) (initial_investment : npfloat)
  : result statistics :=
  w <- weights_of portfolio (columns prices) ;;
  let rets := log_returns prices in
  let mean_rets := map (fun m => fmul m (Num 252)) (mean rets) in
  let cov_mat := mat_scale (cov rets) (Num 252) in
  let port_return := series_sum (map2 fmul w mean_rets) in
  let port_volatility := fsqrt (dot w (matvec cov_mat w)) in
  latest <- iloc_last prices ;;
  ret (mkstats rets w mean_rets cov_mat port_return port_volatility latest
               (breakdown (columns prices) w latest initial_investment)).

Section Paths.
Variables (daily_returns : list npfloat)
            (daily_cov chol : list (list npfloat))
            (initial_prices shares_held : list npfloat)
            (random_matrix : nat -> nat -> list npfloat)
            (horizon_days : nat).

Definition dt : npfloat := Num 1.

  (** One day of the vectorised GBM update, lines 231-237 and 248-252. *)
Definition gbm_update (prices random_shocks : list npfloat) : list npfloat :=
    let correlated_shocks := matvec chol random_shocks in
    let drift :=
      map2 (fun m v => fmul (fsub m (fmul (Num (1 / 2)) v)) dt)
           daily_returns (diag daily_cov) in
    let diffusion :=
      map2 (fun v c => fmul (fsqrt (fmul v dt)) c)
           (diag daily_cov) correlated_shocks in
    map2 fmul prices (map fexp (map2 fadd drift diffusion)).

  (** The current prices of simulation [sim] after the first [k] rounds of
      [for day in range(horizon_days)]. *)
Definition prices_after (k sim : nat) : list npfloat :=
    for_range k
              (fun day current_prices =>
                 gbm_update current_prices (random_matrix sim day))
              initial_prices.

  (** The whole loop: the terminal prices of one simulation. *)
Definition main_pass (sim : nat) : list npfloat :=
    prices_after horizon_days sim.

Definition portfolio_value_of (prices : list npfloat) : npfloat :=
    np_sum (map2 fmul prices shares_held).

  (** [for day in range(1, horizon_days + 1)]: the stored path of one of
      the first hundred simulations. *)
Definition viz_pass (sim : nat) (portfolio_paths : ndarray2)
    : list npfloat * ndarray2 :=
    for_range_from 1 horizon_days
      (fun day st =>
         let temp_prices := gbm_update (fst st) (random_matrix sim (day - 1)) in
         (temp_prices,
          set2 (snd st) day sim (portfolio_value_of temp_prices)))
      (initial_prices, portfolio_paths).

  (** The body of [for sim in range(n_sims)]. *)
Definition sim_body (sim : nat) (st : ndarray2 * ndarray2)
    : ndarray2 * ndarray2 :=
    let current_prices := main_pass sim in
    let individual_final_prices := set_col2 (snd st) sim current_prices in
    let portfolio_value := portfolio_value_of current_prices in
    let portfolio_paths :=
      set2 (fst st) (nrows (fst st) - 1) sim portfolio_value in
    let portfolio_paths :=
      if (sim <? 100)%nat then snd (viz_pass sim portfolio_paths)
      else portfolio_paths in
    (portfolio_paths, individual_final_prices).
End Paths.

(** [np.random.normal(0, 1, (n_sims, horizon_days, n_assets))] read at
    [[sim, day, :]]. *)
Definition random_matrix_of (g : rng) (horizon_days n_assets : nat)
  : nat -> nat -> list npfloat :=
  fun sim day =>
    map (fun a => Num (g ((sim * horizon_days + day) * n_assets + a)%nat))
        (seq 0 n_assets).

Definition initial_portfolio_value : npfloat := Num 100000.

(** [(weights * 100000) / initial_prices] *)
Definition shares_of (stats : statistics) : list npfloat :=
  map2 fdiv (map (fun w => fmul w (Num 100000)) (weights stats))
       (latest_prices stats).

Definition run_monte_carlo_portfolio (g : rng) (stats : statistics)
           (prices : frame) (n_sims horizon_days : nat)
  : result (ndarray2 * ndarray3) * rng :=
  let daily_returns := mean (returns stats) in
  let daily_cov := cov (returns stats) in
  match factorize (length daily_cov) daily_cov with
  | inl e => (raise e, g)
  | inr (daily_cov, chol) =>
      let n_assets := length (columns prices) in
      let initial_prices := latest_prices stats in
      let shares_held := shares_of stats in
      let portfolio_paths :=
        set_row2 (zeros2 (horizon_days + 1) n_sims) 0 initial_portfolio_value in
      let individual_final_prices := zeros2 n_assets n_sims in
      let random_matrix := random_matrix_of g horizon_days n_assets in
      let g' := advance g (n_sims * horizon_days * n_assets) in
      let st :=
        for_range n_sims
                  (sim_body daily_returns daily_cov chol initial_prices
                            shares_held random_matrix horizon_days)
                  (portfolio_paths, individual_final_prices) in
      let individual_paths :=
        mk3 2 n_assets n_sims
            (fun k i s =>
               match k with
               | O => nth i initial_prices NaN
               | S O => at2 (snd st) i s
               | _ => Num 0
               end) in
      (ret (fst st, individual_paths), g')
  end.

(** The current prices of simulation [sim] after [k] days of a run whose
    factorisation returned [daily_cov] and [chol]. *)
Definition simulated_prices (g : rng) (stats : statistics) (prices : frame)
           (daily_cov chol : list (list npfloat)) (horizon_days : nat)
           (k sim : nat) : list npfloat :=
  prices_after (mean (returns stats)) daily_cov chol (latest_prices stats)
               (random_matrix_of g horizon_days (length (columns prices)))
               k sim.

Record report : Type := mkreport {
  final_values : list npfloat;
  sim_returns : list npfloat;
  mean_return : npfloat;
  median_return : npfloat;
  std_return : npfloat;
  prob_loss : npfloat;
  var_5 : npfloat;
  var_1 : npfloat;
  cvar_5 : npfloat;
  percentiles : list (nat * npfloat)
}.

Definition ladder : list nat := [1; 5; 10; 25; 50; 75; 90; 95; 99]%nat.

Definition analyze_results (portfolio_paths : ndarray2) : report :=
  let initial_value := Num 100000 in
  let finals := last_row2 portfolio_paths in
  let rets := map (fun v => fsub (fdiv v initial_value) (Num 1)) finals in
  let v5 := np_percentile rets 5 in
  let v1 := np_percentile rets 1 in
  mkreport finals rets
           (np_mean rets)
           (np_median rets)
           (np_std rets)
           (fmul (np_mean (map (fun r => of_bool (fltb r (Num 0))) rets)) (Num 100))
           v5 v1
           (np_mean (filter (fun r => fleb r v5) rets))
           (map (fun q => (q, np_percentile rets q)) ladder).

(** [main], from the collected portfolio and the downloaded panel on: the
    module never seeds the generator. *)
Definition main (g : rng) (portfolio_composition : list (string * npfloat))
           (prices : frame) : result report * rng :=
  match calculate_portfolio_statistics prices portfolio_composition (Num 100000) with
  | inl e => (raise e, g)
  | inr stats =>
      match run_monte_carlo_portfolio g stats prices 5000 252 with
      | (inl e, g') => (raise e, g')
      | (inr (portfolio_paths, _), g') => (ret (analyze_results portfolio_paths), g')
      end
  end.

End MonteCarlo.

(** ** portfolio_simulator.py *)

Module Simulator.
Import NumPy Pandas Factor.
Local Open Scope R_scope.

Record simulation : Type := mksimulation {
  portfolio_paths : ndarray2;
  stock_paths : ndarray3;
  sim_returns : list npfloat;
  final_values : list npfloat;
  initial_portfolio_price : npfloat;
  shares_per_stock : list npfloat;
  last_prices : list npfloat
}.

(** The state of the nested loops: the generator, the current prices and
    the two result arrays. *)
Record loop_state : Type := mkloop {
  gen : rng;
  stock_prices : list npfloat;
  sim_stock_paths : ndarray3;
  sim_portfolio_values : ndarray2
}.

Section Loop.
Variables (mu_daily : list npfloat)
            (cov_daily chol : list (list npfloat))
            (shares : list npfloat)
            (n_assets : nat).

  (** The GBM evolution of lines 186-190. *)
Definition gbm_update (prices z : list npfloat) : list npfloat :=
    let correlated_z := matvec chol z in
    let dt := Num 1 in
    let drift :=
      map2 (fun m v => fmul (fsub m (fmul (Num (1 / 2)) v)) dt)
           mu_daily (diag cov_daily) in
    let diffusion :=
      map2 (fun v c => fmul (fmul (fsqrt v) (fsqrt dt)) c)
           (diag cov_daily) correlated_z in
    map2 fmul prices (map fexp (map2 fadd drift diffusion)).

  (** The body of [for t in range(horizon_days)]. *)
Definition day_body (sim t : nat) (st : loop_state) : loop_state :=
    let (z, g') := random_normal (gen st) n_assets in
    let prices := gbm_update (stock_prices st) z in
    let paths :=
      for_range n_assets
                (fun i p => set3 p (t + 1) i sim (nth i prices NaN))
                (sim_stock_paths st) in
    let portfolio_value := dot prices shares in
    mkloop g' prices paths
           (set2 (sim_portfolio_values st) (t + 1) sim portfolio_value).

  (** The body of [for sim in range(n_sims)]. *)
Definition sim_body (horizon_days : nat) (start : list npfloat)
             (sim : nat) (st : loop_state) : loop_state :=
    for_range horizon_days (day_body sim)
              (mkloop (gen st) start (sim_stock_paths st)
                      (sim_portfolio_values st)).
End Loop.

(** [(initial_value * np.array(weights)) / last_prices] *)
Definition shares_of (initial_value : npfloat) (weights last : list npfloat)
  : list npfloat :=
  map2 fdiv (map (fmul initial_value) weights) last.

Definition run_portfolio_simulation (g : rng) (prices : frame)
           (weights : list npfloat) (n_sims horizon_days : nat)
           (initial_value : npfloat) : result simulation * rng :=
  let rets := log_returns prices in
  let mu_daily := mean rets in
  let cov_daily := cov rets in
  match iloc_last prices with
  | inl e => (raise e, g)
  | inr last =>
      let n_assets := length weights in
      match factorize n_assets cov_daily with
      | inl e => (raise e, g)
      | inr (cov_daily, chol) =>
          let portfolio_price := dot last weights in
          let shares := shares_of initial_value weights last in
          let values0 :=
            set_row2 (zeros2 (horizon_days + 1) n_sims) 0 initial_value in
          let paths0 :=
            for_range n_assets
                      (fun i p => set_line3 p 0 i (nth i last NaN))
                      (zeros3 (horizon_days + 1) n_assets n_sims) in
          let st :=
            for_range n_sims
                      (sim_body mu_daily cov_daily chol shares n_assets
                                horizon_days last)
                      (mkloop g last paths0 values0) in
          let finals := last_row2 (sim_portfolio_values st) in
          (ret (mksimulation (sim_portfolio_values st) (sim_stock_paths st)
                             (map (fun v => fsub (fdiv v initial_value) (Num 1))
                                  finals)
                             finals portfolio_price shares last),
           gen st)
      end
  end.

(** The draws that [np.random.normal(size=n_assets)] delivers on day [t] of
    simulation [sim], when the run started with the generator in state
    [g]: the loops consume the stream simulation by simulation, day by
    day. *)
Definition shocks (g : rng) (horizon_days n_assets sim t : nat) : list npfloat :=
  map (fun a => Num (g ((sim * horizon_days + t) * n_assets + a)%nat))
      (seq 0 n_assets).

(** The current prices of simulation [sim] after [k] days. *)
Definition simulated_prices (mu_daily : list npfloat)
           (cov_daily chol : list (list npfloat)) (start : list npfloat)
           (g : rng) (horizon_days n_assets : nat) (k sim : nat)
  : list npfloat :=
  for_range k
            (fun t prices =>
               gbm_update mu_daily cov_daily chol prices
                          (shocks g horizon_days n_assets sim t))
            start.

(** The loop invariants: the state after [t] days of simulation [sim], and
    after [k] simulations, of a run that entered the loops with the
    generator in state [g] and the arrays [p] and [v]. *)
Section Invariants.
Variables (mu_daily : list npfloat)
            (cov_daily chol : list (list npfloat))
            (shares start : list npfloat)
            (n_assets horizon_days : nat)
            (g : rng).

Let sp := simulated_prices mu_daily cov_daily chol start g horizon_days n_assets.

Definition day_inv (sim : nat) (p : ndarray3) (v : ndarray2)
             (t : nat) (st : loop_state) : Prop :=
    (forall i, gen st i = g ((sim * horizon_days + t) * n_assets + i)%nat)
    /\ stock_prices st = sp t sim
    /\ (forall d i j,
          at3 (sim_stock_paths st) d i j
          = if (Nat.eqb j sim && (1 <=? d) && (d <=? t) && (i <? n_assets))%nat
            then nth i (sp d sim) NaN else at3 p d i j)
    /\ (forall d j,
          at2 (sim_portfolio_values st) d j
          = if (Nat.eqb j sim && (1 <=? d) && (d <=? t))%nat
            then dot (sp d sim) shares else at2 v d j)
    /\ nrows (sim_portfolio_values st) = nrows v
    /\ ncols (sim_portfolio_values st) = ncols v.


Definition sim_inv (p : ndarray3) (v : ndarray2) (k : nat) (st : loop_state)
    : Prop :=
    (forall i, gen st i = g (k * horizon_days * n_assets + i)%nat)
    /\ (forall d i j,
          at3 (sim_stock_paths st) d i j
          = if ((j <? k) && (1 <=? d) && (d <=? horizon_days)
                && (i <? n_assets))%nat
            then nth i (sp d j) NaN else at3 p d i j)
    /\ (forall d j,
          at2 (sim_portfolio_values st) d j
          = if ((j <? k) && (1 <=? d) && (d <=? horizon_days))%nat
            then dot (sp d j) shares else at2 v d j)
    /\ nrows (sim_portfolio_values st) = nrows v
    /\ ncols (sim_portfolio_values st) = ncols v.

End Invariants.

(** The figures [display_results] computes before printing them. *)
Record metrics : Type := mkmetrics {
  mean_return : npfloat;
  median_return : npfloat;
  volatility : npfloat;
  prob_negative : npfloat;
  var_5 : npfloat;
  var_1 : npfloat
}.

Definition display_results (simulation_results : simulation) : metrics :=
  let rets := sim_returns simulation_results in
  mkmetrics (np_mean rets)
            (np_median rets)
            (np_std rets)
            (np_mean (map (fun r => of_bool (fltb r (Num 0))) rets))
            (np_percentile rets 5)
            (np_percentile rets 1).

Section Main.
  (** [np.random.seed(s)]: the stream that the seed [s] determines. *)
Variable np_random_seed : nat -> rng.

  (** [main], from the collected portfolio and the downloaded panel on.
      It opens with [np.random.seed(42)], which replaces the state [g] of
      the generator; the historical metrics it prints do not enter the
      simulation. *)
Definition main (g : rng) (weights : list npfloat) (prices : frame)
    : result (simulation * metrics) * rng :=
    let g := np_random_seed 42 in
    match run_portfolio_simulation g prices weights 10000 252 (Num 100000) with
    | (inl e, g') => (raise e, g')
    | (inr simulation_results, g') =>
        (ret (simulation_results, display_results simulation_results), g')
    end.
End Main.

End Simulator.

(** ** The degenerate single-asset run

    One asset with daily mean zero and daily variance zero.  The plain
    factorisation fails on the zero covariance, so the variance the loops
    read is the regularised [epsilon]; [log_growth z k] is the exponent the
    price has then gathered after [k] days with the draws [z]. *)

Module Degenerate.
Import NumPy Factor.
Local Open Scope R_scope.

Fixpoint log_growth (z : nat -> R) (k : nat) : R :=
  match k with
  | O => 0
  | S k' => log_growth z k' + (epsilon * z k' - epsilon / 2)
  end.

(** The draw of day [t] of simulation [sim] in a single-asset run. *)
Definition draw (g : rng) (horizon_days sim : nat) : nat -> R :=
  fun t => g ((sim * horizon_days + t) * 1 + 0)%nat.

End Degenerate.

(** ** Ordered arrays and finite sums *)

Module Order.
Local Open Scope R_scope.

(** [ascending l]: every entry is at most every later entry. *)
Fixpoint ascending (l : list R) : Prop :=
  match l with
  | [] => True
  | x :: l' => Forall (Rle x) l' /\ ascending l'
  end.

(** The sum of an array of finite values. *)
Fixpoint rsum (xs : list R) : R :=
  match xs with
  | [] => 0
  | x :: xs' => x + rsum xs'
  end.

End Order.

(** ** The share of losing paths *)

Module Loss.
Import NumPy.
Local Open Scope R_scope.

(** The number of returns strictly below zero. *)
Definition loss_count (rets : list npfloat) : nat :=
  length (filter (fun r => fltb r (Num 0)) rets).

(** The fraction of returns strictly below zero. *)
Definition loss_fraction (rets : list npfloat) : R :=
  INR (loss_count rets) / INR (length rets).

End Loss.

(** ** Sample inputs *)

Module Sample.
Import NumPy Pandas.
Local Open Scope R_scope.
Local Open Scope string_scope.

(** Three days of one ticker at a constant price. *)
Definition flat_prices : frame :=
  mkframe ["A"] [[Num 1]; [Num 1]; [Num 1]].

Definition flat_composition : list (string * npfloat) := [("A", Num 100)].

(** Its two daily log returns. *)
Definition flat_returns : frame := mkframe ["A"] [[Num 0]; [Num 0]].

(** What [calculate_portfolio_statistics] makes of the flat panel. *)
Definition flat_stats : MonteCarlo.statistics :=
  MonteCarlo.mkstats flat_returns [Num 1] [Num 0] [[Num 0]] (Num 0) (Num 0)
    [Num 1]
    [("A", MonteCarlo.mkholding (Num 100) (Num 100000) (Num 100000) (Num 1))].

(** A panel with a single observation. *)
Definition single_day : frame := mkframe ["A"] [[Num 100]].

(** A panel without observations. *)
Definition no_day : frame := mkframe ["A"] [].

(** The path matrix of one simulation that halves the investment in one
    day, and of one whose terminal value is undefined. *)
Definition halved : ndarray2 :=
  mk2 2 1 (fun d _ => if Nat.eqb d 0 then Num 100000 else Num 50000).

Definition undefined_path : ndarray2 :=
  mk2 2 1 (fun d _ => if Nat.eqb d 0 then Num 100000 else NaN).

(** The batch of [run_portfolio_simulation] with that halving path. *)
Definition halved_simulation : Simulator.simulation :=
  Simulator.mksimulation halved (zeros3 2 1 1) [Num (-1 / 2)] [Num 50000]
                         (Num 1) [Num 100000] [Num 1].

(** A generator whose draws are all zero, and one whose draws are all
    one. *)
Definition still : rng := fun _ => 0.
Definition steady : rng := fun _ => 1.

End Sample.

(** ** The console loops that collect the portfolio

    A console line is taken as [input().strip()] delivers it and [split()]
    cuts it: the word done in any case, or the list of its parts (none for
    an empty line).  [float] and [str.upper] are the built-ins; [float]
    answers [None] where Python raises [ValueError].  When the lines run
    out before a done, [input] raises [EOFError]: the loops answer
    [None]. *)

Module Console.
Import NumPy.
Local Open Scope R_scope.
Local Open Scope string_scope.

Inductive line : Type :=
| Done
| Parts (parts : list string).

(** What [float(text)] evaluates to: a finite number, an infinity
    ([float('inf')]) or nan ([float('nan')]).  Its [ValueError] is the
    [None] of the parser below. *)
Inductive parsed : Type :=
| Finite (x : R)
| PlusInfinity
| MinusInfinity
| NotANumber.

(** [weight <= 0 or weight > 100]: an infinity is out of range on one
    side; both comparisons are false of nan. *)
Definition out_of_range (p : parsed) : bool :=
  match p with
  | Finite x => fleb (Num x) (Num 0) || fltb (Num 100) (Num x)
  | PlusInfinity => true
  | MinusInfinity => true
  | NotANumber => false
  end.

(** A parsed number that is in range, in the numeric model. *)
Definition number (p : parsed) : npfloat :=
  match p with
  | Finite x => Num x
  | _ => NaN
  end.

(** [abs] *)
Definition fabs (a : npfloat) : npfloat :=
  match a with
  | Num x => Num (Rabs x)
  | NaN => NaN
  end.

(** [portfolio[ticker] = allocation] on a dict kept in insertion order *)
Fixpoint dict_set (d : list (string * npfloat)) (k : string) (v : npfloat)
  : list (string * npfloat) :=
  match d with
  | [] => [(k, v)]
  | (k', v') :: d' =>
      if String.eqb k' k then (k', v) :: d' else (k', v') :: dict_set d' k v
  end.

Definition default_portfolio : list (string * npfloat) :=
  [("AAPL", Num 40); ("MSFT", Num 30); ("GOOGL", Num 30)].

Definition default_stocks : list string := ["AAPL"; "MSFT"; "GOOGL"].

Definition default_weights : list npfloat :=
  [Num (4 / 10); Num (3 / 10); Num (3 / 10)].

Section Input.
Variable float : string -> option parsed.
Variable upper : string -> string.

(** [get_user_portfolio] of [portfolio_monte_carlo.py]: one round of its
    [while True] on a line that is not done.  The state is the dict and
    [total_allocation]. *)
Definition accept_allocation (st : list (string * npfloat) * npfloat)
           (parts : list string) : list (string * npfloat) * npfloat :=
  match map upper parts with
  | [ticker; text] =>
      match float text with
      | None => st
      | Some p =>
          let allocation := number p in
          if out_of_range p then st
          else if fltb (Num 100) (fadd (snd st) allocation) then st
          else (dict_set (fst st) ticker allocation, fadd (snd st) allocation)
      end
  | _ => st
  end.

Fixpoint read_allocations (lines : list line)
         (st : list (string * npfloat) * npfloat)
  : option (list (string * npfloat) * npfloat) :=
  match lines with
  | [] => None
  | Done :: _ => Some st
  | Parts parts :: rest => read_allocations rest (accept_allocation st parts)
  end.

Definition get_user_portfolio (lines : list line)
  : option (list (string * npfloat)) :=
  match read_allocations lines ([], Num 0) with
  | None => None
  | Some (entered, entered_total) =>
      let (portfolio, total_allocation) :=
        match entered with
        | [] => (default_portfolio, Num 100)
        | _ :: _ => (entered, entered_total)
        end in
      if negb (feqb total_allocation (Num 100))
      then Some (map (fun kv =>
                        (fst kv,
                         fmul (fdiv (snd kv) total_allocation) (Num 100)))
                     portfolio)
      else Some portfolio
  end.

(** [get_portfolio_input] of [portfolio_simulator.py]: one round of its
    [while True] on a line that is not done.  The state is [stocks],
    [weights] and [total_weight]. *)
Definition accept_weight (st : list string * list npfloat * npfloat)
           (parts : list string) : list string * list npfloat * npfloat :=
  match parts with
  | [name; text] =>
      let ticker := upper name in
      match float text with
      | None => st
      | Some p =>
          let weight := number p in
          if out_of_range p then st
          else ((fst (fst st) ++ [ticker])%list,
                (snd (fst st) ++ [fdiv weight (Num 100)])%list,
                fadd (snd st) weight)
      end
  | _ => st
  end.

Fixpoint read_weights (lines : list line)
         (st : list string * list npfloat * npfloat)
  : option (list string * list npfloat * npfloat) :=
  match lines with
  | [] => None
  | Done :: _ => Some st
  | Parts parts :: rest => read_weights rest (accept_weight st parts)
  end.

Definition get_portfolio_input (lines : list line)
  : option (list string * list npfloat) :=
  match read_weights lines ([], [], Num 0) with
  | None => None
  | Some (stocks, weights, total_weight) =>
      match stocks with
      | [] => Some (default_stocks, default_weights)
      | _ :: _ =>
          if fltb (Num (1 / 100)) (fabs (fsub total_weight (Num 100)))
          then Some (stocks,
                     map (fun w => fdiv w (fdiv total_weight (Num 100)))
                         weights)
          else Some (stocks, weights)
      end
  end.

(** The tickers of the two-part lines, as the loops spell them. *)
Definition entered (lines : list line) : list string :=
  flat_map (fun l =>
              match l with
              | Parts [name; _] => [upper name]
              | _ => []
              end) lines.

(** Whether the number on a line is nan, and whether one of the numbers
    typed before [done] is.  [prep] is what the loop does to the text
    before it calls [float]: nothing in [get_portfolio_input], [upper] in
    [get_user_portfolio]. *)
Definition nan_on (prep : string -> string) (parts : list string) : bool :=
  match parts with
  | [_; text] =>
      match float (prep text) with
      | Some NotANumber => true
      | _ => false
      end
  | _ => false
  end.

Fixpoint typed_nan (prep : string -> string) (lines : list line) : bool :=
  match lines with
  | [] => false
  | Done :: _ => false
  | Parts parts :: rest => nan_on prep parts || typed_nan prep rest
  end.
End Input.

(** The sum of the allocations of a dict. *)
Definition allocated (d : list (string * npfloat)) : npfloat :=
  np_sum (map snd d).

(** A dict of finite allocations. *)
Definition of_reals (vs : list (string * R)) : list (string * npfloat) :=
  map (fun kv => (fst kv, Num (snd kv))) vs.

(** Two console sessions: forty percent of one ticker and sixty of
    another, with a malformed line and an infinite number between them;
    and forty percent of one ticker followed by a nan. *)
Definition sample_float (s : string) : option parsed :=
  if String.eqb s "40" then Some (Finite 40)
  else if String.eqb s "60" then Some (Finite 60)
  else if String.eqb s "inf" then Some PlusInfinity
  else if String.eqb s "nan" then Some NotANumber
  else None.

Definition sample_lines : list line :=
  [Parts ["AAPL"; "40"]; Parts ["oops"]; Parts ["TSLA"; "inf"];
   Parts ["MSFT"; "60"]; Done].

Definition nan_lines : list line :=
  [Parts ["AAPL"; "40"]; Parts ["MSFT"; "nan"]; Done].

End Console.

(** ** Consecutive rows of a table *)

Module Returns.
Local Open Scope R_scope.

(** The daily log returns of a table of positive prices: every row against
    the row before it, starting after [prev]. *)
Fixpoint log_changes (prev : list R) (rows : list (list R)) : list (list R) :=
  match rows with
  | [] => []
  | r :: rows' =>
      NumPy.map2 (fun x y => ln (x / y)) r prev :: log_changes r rows'
  end.

End Returns.

(** ** The percentile bands of the fan charts

    Both scripts draw a fan chart from [np.percentile(portfolio_paths, q,
    axis=1)], one percentile of the simulations for every day.  The
    plotting calls are outside the model; the bands they are given are
    these arrays. *)

Module Charts.
Import NumPy.

(** [portfolio_paths[day, :]] *)
Definition row2 (m : ndarray2) (day : nat) : list npfloat :=
  map (fun sim => at2 m day sim) (seq 0 (ncols m)).

(** [np.percentile(a, q, axis=1)] *)
Definition np_percentile_axis1 (a : ndarray2) (q : nat) : list npfloat :=
  map (fun day => np_percentile (row2 a day) q) (seq 0 (nrows a)).

End Charts.

(** [create_visualizations] of [portfolio_monte_carlo.py], lines 315-319. *)
Module MonteCarloCharts.
Import NumPy Charts.

Record bands : Type := mkbands {
  p10 : list npfloat;
  p25 : list npfloat;
  p50 : list npfloat;
  p75 : list npfloat;
  p90 : list npfloat
}.

Definition create_visualizations (portfolio_paths : ndarray2) : bands :=
  mkbands (np_percentile_axis1 portfolio_paths 10)
          (np_percentile_axis1 portfolio_paths 25)
          (np_percentile_axis1 portfolio_paths 50)
          (np_percentile_axis1 portfolio_paths 75)
          (np_percentile_axis1 portfolio_paths 90).

End MonteCarloCharts.

(** [create_visualizations] of [portfolio_simulator.py], lines 281-285. *)
Module SimulatorCharts.
Import NumPy Charts.

Record bands : Type := mkbands {
  p5 : list npfloat;
  p25 : list npfloat;
  p50 : list npfloat;
  p75 : list npfloat;
  p95 : list npfloat
}.

Definition create_visualizations (simulation_results : Simulator.simulation)
  : bands :=
  let portfolio_paths := Simulator.portfolio_paths simulation_results in
  mkbands (np_percentile_axis1 portfolio_paths 5)
          (np_percentile_axis1 portfolio_paths 25)
          (np_percentile_axis1 portfolio_paths 50)
          (np_percentile_axis1 portfolio_paths 75)
          (np_percentile_axis1 portfolio_paths 95).

End SimulatorCharts.

(** ** The historical metrics of [portfolio_simulator.py]

    [calculate_portfolio_metrics], lines 120-138.  [returns * weights]
    multiplies every row of the table by the list of weights, and pandas
    raises [ValueError] when the list is not as long as the table is
    wide: that is the [None] here.  [sum(axis=1)] skips the [NaN]
    products of a row.  [Series.std] and [DataFrame.std] have one delta
    degree of freedom, [DataFrame.corr] divides the covariance by the two
    deviations. *)

Module Metrics.
Import NumPy Pandas.

Record metrics : Type := mkmetrics {
  individual_returns : list npfloat;
  individual_volatilities : list npfloat;
  correlation_matrix : list (list npfloat);
  covariance_matrix : list (list npfloat);
  portfolio_return : npfloat;
  portfolio_volatility : npfloat;
  returns_data : frame
}.

(** [series.std()] *)
Definition std (xs : list npfloat) : npfloat := fsqrt (cov_entry xs xs).

(** [df.corr()] *)
Definition corr (df : frame) : list (list npfloat) :=
  map (fun i =>
         map (fun j =>
                fdiv (cov_entry (column i df) (column j df))
                     (fmul (std (column i df)) (std (column j df))))
             (seq 0 (length (columns df))))
      (seq 0 (length (columns df))).

Definition calculate_portfolio_metrics (prices : frame)
           (weights : list npfloat) : option metrics :=
  let returns := log_returns prices in
  if negb (length weights =? length (columns returns))%nat then None
  else
    let portfolio_returns :=
      map (fun r => series_sum (map2 fmul r weights)) (rows returns) in
    Some (mkmetrics
            (map (fun m => fmul m (Num 252)) (mean returns))
            (map (fun j => fmul (std (column j returns)) (fsqrt (Num 252)))
                 (seq 0 (length (columns returns))))
            (corr returns)
            (cov returns)
            (fmul (np_mean portfolio_returns) (Num 252))
            (fmul (std portfolio_returns) (fsqrt (Num 252)))
            returns).

End Metrics.

(** Column [j] of a table of finite values. *)
Module Linear.
Local Open Scope R_scope.

Definition col (j : nat) (rs : list (list R)) : list R :=
  map (fun r => nth j r 0) rs.

(** The weighted sum of one row. *)
Definition weighted (ws r : list R) : R :=
  Order.rsum (NumPy.map2 Rmult r ws).

(** The mean of column [j], the mean of the weighted rows, and the sum of
    the products of the deviations of columns [i] and [j]. *)
Definition mu (rs : list (list R)) (j : nat) : R :=
  Order.rsum (col j rs) / INR (length rs).

Definition pbar (ws : list R) (rs : list (list R)) : R :=
  Order.rsum (map (weighted ws) rs) / INR (length rs).

Definition comoment (rs : list (list R)) (i j : nat) : R :=
  Order.rsum (map (fun r => (nth i r 0 - mu rs i) * (nth j r 0 - mu rs j)) rs).

(** The sample variance of the weighted rows. *)
Definition variance (ws : list R) (rs : list (list R)) : R :=
  Order.rsum (map (fun r => (weighted ws r - pbar ws rs)
                            * (weighted ws r - pbar ws rs)) rs)
  / (INR (length rs) - 1).

End Linear.

(** ** The dollar figures of the printed report

    [print_detailed_results] of [portfolio_monte_carlo.py] returns nothing;
    what it computes are the figures it prints.  These are the ones of
    lines 422-423 and 437-440, in the order of the lookups in the
    percentile dictionary; the range of line 441 ([np.min], [np.max]) is
    printed after them and is not part of the model. *)

Module Printed.
Import NumPy.

(** [results['percentiles'][q]] *)
Fixpoint percentile_at (d : list (nat * npfloat)) (q : nat) : result npfloat :=
  match d with
  | [] => raise KeyError
  | (k, v) :: rest => if Nat.eqb k q then ret v else percentile_at rest q
  end.

Record figures : Type := mkfigures {
  best_case_return : npfloat;
  worst_case_return : npfloat;
  expected_value : npfloat;
  median_value : npfloat;
  best_case_value : npfloat;
  worst_case_value : npfloat
}.

Definition print_detailed_results (results : MonteCarlo.report)
  : result figures :=
  p99 <- percentile_at (MonteCarlo.percentiles results) 99 ;;
  p1 <- percentile_at (MonteCarlo.percentiles results) 1 ;;
  p95 <- percentile_at (MonteCarlo.percentiles results) 95 ;;
  p5 <- percentile_at (MonteCarlo.percentiles results) 5 ;;
  ret (mkfigures p99 p1
                 (np_mean (MonteCarlo.final_values results))
                 (np_median (MonteCarlo.final_values results))
                 (fadd (fmul p95 (Num 100000)) (Num 100000))
                 (fadd (fmul p5 (Num 100000)) (Num 100000))).

(** [(final_values / initial_value) - 1] on one finite terminal value. *)
Definition to_return (x : R) : R := (x / 100000 - 1)%R.

End Printed.

(** The entries of an array of finite values that are above zero. *)
Module Sparse.
Local Open Scope R_scope.

Definition positives (l : list R) : list R :=
  filter (fun x => if Rlt_dec 0 x then true else false) l.

End Sparse.

(** * Properties *)

(** ** Loops *)

Section LoopFacts.
Context {S : Type}.

Lemma for_range_from_S (lo n : nat) (body : nat -> S -> S) (s : S) :
    for_range_from lo (Datatypes.S n) body s
    = body (lo + n)%nat (for_range_from lo n body s).
  Proof.
    unfold for_range_from.
    rewrite seq_S, fold_left_app. reflexivity.
  Qed.

Lemma for_range_S (n : nat) (body : nat -> S -> S) (s : S) :
    for_range (Datatypes.S n) body s = body n (for_range n body s).
  Proof.
    unfold for_range.
    rewrite seq_S, fold_left_app. reflexivity.
  Qed.

Lemma for_range_0 (body : nat -> S -> S) (s : S) : for_range 0 body s = s.
  Proof. reflexivity. Qed.

  (** The invariant rule of a counted loop. *)
Lemma for_range_inv (P : nat -> S -> Prop) (n : nat)
        (body : nat -> S -> S) (s : S) :
    P 0%nat s ->
    (forall i st, (i < n)%nat -> P i st -> P (Datatypes.S i) (body i st)) ->
    P n (for_range n body s).
  Proof.
    intros H0 Hstep.
    induction n as [|n IH].
    - exact H0.
    - rewrite for_range_S. apply Hstep; [lia|].
      apply IH. intros i st Hi. apply Hstep. lia.
  Qed.
End LoopFacts.

(** ** The stored path matrix of [run_monte_carlo_portfolio] *)

Module MonteCarloFacts.
Import NumPy Pandas Factor MonteCarlo.
Local Open Scope R_scope.

Section PathFacts.
Variables (daily_returns : list npfloat)
            (daily_cov chol : list (list npfloat))
            (initial_prices shares_held : list npfloat)
            (random_matrix : nat -> nat -> list npfloat).

Let pa := prices_after daily_returns daily_cov chol initial_prices random_matrix.
Let pv := portfolio_value_of shares_held.
Let vp := viz_pass daily_returns daily_cov chol initial_prices shares_held
                     random_matrix.

Lemma prices_after_S (k sim : nat) :
    pa (S k) sim
    = gbm_update daily_returns daily_cov chol (pa k sim) (random_matrix sim k).
  Proof. unfold pa, prices_after. rewrite for_range_S. reflexivity. Qed.

Lemma viz_pass_S (h sim : nat) (p : ndarray2) :
    vp (S h) sim p
    = let st := vp h sim p in
      let temp := gbm_update daily_returns daily_cov chol (fst st)
                             (random_matrix sim h) in
      (temp, set2 (snd st) (S h) sim (pv temp)).
  Proof.
    unfold vp, viz_pass. rewrite for_range_from_S.
    replace (1 + h - 1)%nat with h by lia.
    replace (1 + h)%nat with (S h) by lia.
    reflexivity.
  Qed.

  (** The second pass walks through the prices of the first one. *)
Lemma viz_pass_prices (h sim : nat) (p : ndarray2) :
    fst (vp h sim p) = pa h sim.
  Proof.
    induction h as [|h IH].
    - reflexivity.
    - rewrite viz_pass_S, prices_after_S. cbn [fst]. rewrite IH. reflexivity.
  Qed.

Lemma viz_pass_nrows (h sim : nat) (p : ndarray2) :
    nrows (snd (vp h sim p)) = nrows p.
  Proof.
    induction h as [|h IH].
    - reflexivity.
    - rewrite viz_pass_S. cbn. exact IH.
  Qed.

  (** What the second pass leaves in the matrix. *)
Lemma viz_pass_at (h sim : nat) (p : ndarray2) (d j : nat) :
    at2 (snd (vp h sim p)) d j
    = if (Nat.eqb j sim && (1 <=? d) && (d <=? h))%nat
      then pv (pa d sim) else at2 p d j.
  Proof.
    induction h as [|h IH].
    - unfold vp, viz_pass, for_range_from. cbn [seq fold_left snd].
      destruct (Nat.eqb j sim); cbn [andb]; [|reflexivity].
      destruct d; reflexivity.
    - rewrite viz_pass_S. cbn [snd set2 at2].
      rewrite viz_pass_prices, <- prices_after_S, IH.
      destruct (Nat.eqb_spec d (S h)) as [->|Hd].
      + destruct (Nat.eqb j sim); cbn [andb].
        * replace (S h <=? S h)%nat with true by (symmetry; apply Nat.leb_le; lia).
          reflexivity.
        * reflexivity.
      + cbn [andb].
        destruct (Nat.eqb j sim); cbn [andb]; [|reflexivity].
        destruct (1 <=? d)%nat; cbn [andb]; [|reflexivity].
        destruct (Nat.leb_spec d h), (Nat.leb_spec d (S h)); try reflexivity; lia.
  Qed.

Let body (h : nat) :=
    sim_body daily_returns daily_cov chol initial_prices shares_held
             random_matrix h.

Lemma sim_body_nrows (h sim : nat) (st : ndarray2 * ndarray2) :
    nrows (fst (body h sim st)) = nrows (fst st).
  Proof.
    unfold body, sim_body. cbn [fst].
    destruct (sim <? 100)%nat.
    - fold vp. rewrite viz_pass_nrows. reflexivity.
    - reflexivity.
  Qed.

  (** One round of the loop over simulations writes one column. *)
Lemma sim_body_at (h sim : nat) (st : ndarray2 * ndarray2) (d j : nat) :
    at2 (fst (body h sim st)) d j
    = if Nat.eqb j sim
      then if ((sim <? 100) && (1 <=? d) && (d <=? h))%nat
           then pv (pa d sim)
           else if Nat.eqb d (nrows (fst st) - 1) then pv (pa h sim)
                else at2 (fst st) d j
      else at2 (fst st) d j.
  Proof.
    unfold body, sim_body. cbn [fst].
    fold (main_pass daily_returns daily_cov chol initial_prices random_matrix h sim).
    unfold main_pass. fold pa. fold pv.
    destruct (sim <? 100)%nat; cbn [andb].
    - fold vp. rewrite viz_pass_at. cbn [set2 at2].
      destruct (Nat.eqb j sim); cbn [andb].
      + destruct ((1 <=? d) && (d <=? h))%nat; [reflexivity|].
        rewrite andb_true_r. reflexivity.
      + rewrite andb_false_r. reflexivity.
    - cbn [set2 at2].
      destruct (Nat.eqb j sim).
      + rewrite andb_true_r. reflexivity.
      + rewrite andb_false_r. reflexivity.
  Qed.

Lemma sim_loop_nrows (h n : nat) (st : ndarray2 * ndarray2) :
    nrows (fst (for_range n (body h) st)) = nrows (fst st).
  Proof.
    induction n as [|n IH].
    - reflexivity.
    - rewrite for_range_S, sim_body_nrows. exact IH.
  Qed.

  (** The matrix after [n] simulations, column by column. *)
Lemma sim_loop_at (h n : nat) (st : ndarray2 * ndarray2) (d j : nat) :
    at2 (fst (for_range n (body h) st)) d j
    = if (j <? n)%nat
      then if ((j <? 100) && (1 <=? d) && (d <=? h))%nat
           then pv (pa d j)
           else if Nat.eqb d (nrows (fst st) - 1) then pv (pa h j)
                else at2 (fst st) d j
      else at2 (fst st) d j.
  Proof.
    induction n as [|n IH].
    - reflexivity.
    - rewrite for_range_S, sim_body_at, sim_loop_nrows, IH.
      destruct (Nat.eqb_spec j n) as [->|Hj].
      + replace (n <? S n)%nat with true by (symmetry; apply Nat.ltb_lt; lia).
        replace (n <? n)%nat with false by (symmetry; apply Nat.ltb_ge; lia).
        reflexivity.
      + destruct (Nat.ltb_spec j n), (Nat.ltb_spec j (S n)); try reflexivity; lia.
  Qed.
End PathFacts.

End MonteCarloFacts.

(** ** Finite and positive values *)

Module NumPyFacts.
Import NumPy.
Local Open Scope R_scope.

Lemma positive_finite (a : npfloat) : positive a -> finite a.
Proof. intros (r & -> & _). exists r. reflexivity. Qed.

Lemma lift2_Num (f : R -> R -> R) (a b : npfloat) (r : R) :
  lift2 f a b = Num r -> exists x y, a = Num x /\ b = Num y /\ r = f x y.
Proof.
  destruct a as [x|], b as [y|]; cbn; intros H; inversion H.
  exists x, y. auto.
Qed.

Lemma fltb_true (a b : npfloat) :
  fltb a b = true -> exists x y, a = Num x /\ b = Num y /\ x < y.
Proof.
  destruct a as [x|], b as [y|]; cbn; try discriminate.
  destruct (Rlt_dec x y); [|discriminate].
  intros _. exists x, y. auto.
Qed.

Lemma fleb_true (a b : npfloat) :
  fleb a b = true -> exists x y, a = Num x /\ b = Num y /\ x <= y.
Proof.
  destruct a as [x|], b as [y|]; cbn; try discriminate.
  destruct (Rle_dec x y); [|discriminate].
  intros _. exists x, y. auto.
Qed.

Lemma fleb_Num (x y : R) : x <= y -> fleb (Num x) (Num y) = true.
Proof. intros H. cbn. destruct (Rle_dec x y); [reflexivity|contradiction]. Qed.

Lemma fsqrt_pos (v : R) : 0 <= v -> fsqrt (Num v) = Num (sqrt v).
Proof. intros H. cbn. destruct (Rlt_dec v 0); [lra|reflexivity]. Qed.

Lemma fdiv_Num (x y : R) : y <> 0 -> fdiv (Num x) (Num y) = Num (x / y).
Proof. intros H. cbn. destruct (Req_dec_T y 0); [contradiction|reflexivity]. Qed.

Lemma Forall_map2 {A B C} (P : A -> Prop) (Q : B -> Prop) (T : C -> Prop)
      (f : A -> B -> C) (xs : list A) (ys : list B) :
  (forall x y, P x -> Q y -> T (f x y)) ->
  Forall P xs -> Forall Q ys -> Forall T (map2 f xs ys).
Proof.
  intros Hf Hxs. revert ys.
  induction Hxs as [|x xs Hx _ IH]; intros ys Hys.
  - constructor.
  - destruct Hys as [|y ys Hy Hys]; cbn; constructor; auto.
Qed.

Lemma map2_length {A B C} (f : A -> B -> C) (xs : list A) (ys : list B) :
  length (map2 f xs ys) = Nat.min (length xs) (length ys).
Proof.
  revert ys. induction xs as [|x xs IH]; intros [|y ys]; cbn; auto.
Qed.

Lemma dot_finite (xs ys : list npfloat) :
  Forall finite xs -> Forall finite ys -> finite (dot xs ys).
Proof.
  intros Hxs. revert ys.
  induction Hxs as [|x xs [a ->] _ IH]; intros ys Hys.
  - exists 0. reflexivity.
  - destruct Hys as [|y ys [b ->] Hys]; cbn.
    + exists 0. reflexivity.
    + destruct (IH ys Hys) as [s ->]. eexists. reflexivity.
Qed.

Lemma matvec_finite (m : list (list npfloat)) (v : list npfloat) :
  Forall (Forall finite) m -> Forall finite v -> Forall finite (matvec m v).
Proof.
  intros Hm Hv. unfold matvec. apply Forall_map.
  eapply Forall_impl; [|exact Hm].
  intros row Hrow. apply dot_finite; assumption.
Qed.

(** A finite sum of squares comes from finite entries and is not
    negative. *)
Lemma dot_self (xs : list npfloat) (s : R) :
  dot xs xs = Num s -> Forall finite xs /\ 0 <= s.
Proof.
  revert s. induction xs as [|x xs IH]; intros s H; cbn in H.
  - inversion H. split; [constructor|lra].
  - apply lift2_Num in H. destruct H as (p & q & Hp & Hq & ->).
    apply lift2_Num in Hp. destruct Hp as (a & a' & -> & Ha' & ->).
    inversion Ha'; subst a'.
    destruct (IH q Hq) as [Hfin Hq0].
    split.
    + constructor; [exists a; reflexivity|exact Hfin].
    + nra.
Qed.

(** *** The factorisation *)

Lemma chol_offdiag_length (ai : list npfloat) (above : list (list npfloat))
      (cur : list npfloat) (j : nat) :
  length (chol_offdiag ai above cur j) = (length cur + length above)%nat.
Proof.
  revert cur j. induction above as [|lj above IH]; intros cur j; cbn.
  - lia.
  - rewrite IH, length_app. cbn. lia.
Qed.

Lemma chol_row_ok (n : nat) (ai : list npfloat) (above : list (list npfloat))
      (li : list npfloat) :
  chol_row n ai above = inr li ->
  Forall finite li
  /\ positive (nth (length above) ai NaN)
  /\ length li = (length above + 1 + (n - length above - 1))%nat.
Proof.
  unfold chol_row.
  set (cur := chol_offdiag ai above [] 0).
  destruct (fltb _ _) eqn:Hd; [|discriminate].
  intros H. inversion H; subst li; clear H.
  apply fltb_true in Hd. destruct Hd as (z & v & Hz & Hv & Hpos).
  inversion Hz; subst z; clear Hz.
  rewrite Hv.
  apply lift2_Num in Hv. destruct Hv as (a & s & Ha & Hs & ->).
  destruct (dot_self _ _ Hs) as [Hcur Hs0].
  repeat split.
  - apply Forall_app. split; [exact Hcur|].
    cbn [app]. constructor.
    + rewrite fsqrt_pos by lra. eexists. reflexivity.
    + apply Forall_forall. intros x Hx. apply repeat_spec in Hx.
      subst x. exists 0. reflexivity.
  - exists a. split; [exact Ha|lra].
  - rewrite length_app. cbn [app length]. rewrite repeat_length.
    unfold cur. rewrite chol_offdiag_length. cbn [length]. lia.
Qed.

Lemma chol_row_error (n : nat) (ai : list npfloat) (above : list (list npfloat))
      (e : exn) :
  chol_row n ai above = inl e -> e = LinAlgError.
Proof.
  unfold chol_row. destruct (fltb _ _); [discriminate|].
  intros H. inversion H. reflexivity.
Qed.

Lemma chol_rows_ok (n : nat) (rows above l : list (list npfloat)) :
  chol_rows n rows above = inr l ->
  Forall (Forall finite) above ->
  Forall (Forall finite) l
  /\ length l = (length above + length rows)%nat
  /\ forall k, (k < length rows)%nat ->
               positive (nth (length above + k) (nth k rows []) NaN).
Proof.
  revert above l. induction rows as [|ai rows IH]; intros above l H Habove.
  - cbn in H. inversion H; subst l. repeat split; [exact Habove|cbn; lia|].
    cbn. intros k Hk. lia.
  - cbn in H. unfold bind in H.
    destruct (chol_row n ai above) as [e|li] eqn:Hrow; [discriminate|].
    destruct (chol_row_ok _ _ _ _ Hrow) as (Hli & Hpos & _).
    assert (Habove' : Forall (Forall finite) (above ++ [li])).
    { apply Forall_app. split; [exact Habove|]. constructor; [exact Hli|constructor]. }
    destruct (IH _ _ H Habove') as (Hl & Hlen & Hdiag).
    rewrite length_app in Hlen. cbn [length] in Hlen.
    repeat split; [exact Hl|cbn [length]; lia|].
    intros [|k] Hk.
    + rewrite Nat.add_0_r. exact Hpos.
    + cbn [nth]. cbn [length] in Hk.
      specialize (Hdiag k ltac:(lia)).
      rewrite length_app in Hdiag. cbn [length] in Hdiag.
      replace (length above + S k)%nat with (length above + 1 + k)%nat by lia.
      exact Hdiag.
Qed.

Lemma chol_rows_error (n : nat) (rows above : list (list npfloat)) (e : exn) :
  chol_rows n rows above = inl e -> e = LinAlgError.
Proof.
  revert above. induction rows as [|ai rows IH]; intros above H; cbn in H.
  - discriminate.
  - unfold bind in H.
    destruct (chol_row n ai above) as [e'|li] eqn:Hrow.
    + inversion H; subst e'. eapply chol_row_error; eassumption.
    + eapply IH; eassumption.
Qed.

(** The only exception of [cholesky] is [LinAlgError]. *)
Lemma cholesky_error (a : list (list npfloat)) (e : exn) :
  cholesky a = inl e -> e = LinAlgError.
Proof. apply chol_rows_error. Qed.

(** A factor has finite entries, and the matrix it factors a strictly
    positive diagonal. *)
Lemma cholesky_ok (a l : list (list npfloat)) :
  cholesky a = inr l ->
  Forall (Forall finite) l /\ length l = length a /\ Forall positive (diag a).
Proof.
  intros H. unfold cholesky in H.
  destruct (chol_rows_ok _ _ _ _ H (Forall_nil _)) as (Hl & Hlen & Hdiag).
  repeat split; [exact Hl|exact Hlen|].
  unfold diag. apply Forall_map. apply Forall_forall.
  intros i Hi. apply in_seq in Hi.
  apply (Hdiag i). lia.
Qed.

End NumPyFacts.

(** ** The factorisation with its single regularised retry *)

Module FactorFacts.
Import NumPy Pandas Factor NumPyFacts.
Local Open Scope R_scope.

Lemma factorize_eq (n : nat) (cov : list (list npfloat)) :
  factorize n cov
  = match cholesky cov with
    | inr chol => inr (cov, chol)
    | inl _ =>
        match cholesky (regularize n cov) with
        | inr chol => inr (regularize n cov, chol)
        | inl _ => inl LinAlgError
        end
    end.
Proof.
  unfold factorize.
  destruct (cholesky cov) as [e|chol] eqn:H1; [|reflexivity].
  rewrite (cholesky_error _ _ H1).
  unfold bind.
  destruct (cholesky (regularize n cov)) as [e'|chol'] eqn:H2; [|reflexivity].
  rewrite (cholesky_error _ _ H2). reflexivity.
Qed.

(** The covariance that [factorize] hands on is the one its factor
    belongs to. *)
Lemma factorize_ok (n : nat) (cov cov' chol : list (list npfloat)) :
  factorize n cov = inr (cov', chol) ->
  cholesky cov' = inr chol /\ (cov' = cov \/ cov' = regularize n cov).
Proof.
  rewrite factorize_eq.
  destruct (cholesky cov) as [e|c] eqn:H1.
  - destruct (cholesky (regularize n cov)) as [e'|c'] eqn:H2; [discriminate|].
    intros H. inversion H; subst. auto.
  - intros H. inversion H; subst. auto.
Qed.

Lemma factorize_error (n : nat) (cov : list (list npfloat)) (e : exn) :
  factorize n cov = inl e -> e = LinAlgError.
Proof.
  rewrite factorize_eq.
  destruct (cholesky cov); [|discriminate].
  destruct (cholesky (regularize n cov)); [|discriminate].
  intros H. inversion H. reflexivity.
Qed.

End FactorFacts.

(** ** What [run_monte_carlo_portfolio] returns *)

Module MonteCarloRun.
Import NumPy Pandas Factor MonteCarlo NumPyFacts FactorFacts MonteCarloFacts.
Local Open Scope R_scope.

(** After a successful factorisation the run returns, and the path matrix
    is known entry by entry. *)
Lemma run_paths (g : rng) (stats : statistics) (prices : frame)
      (n_sims horizon_days : nat) (daily_cov chol : list (list npfloat)) :
  factorize (length (cov (returns stats))) (cov (returns stats))
  = inr (daily_cov, chol) ->
  exists paths individual,
    run_monte_carlo_portfolio g stats prices n_sims horizon_days
    = (inr (paths, individual),
       advance g (n_sims * horizon_days * length (columns prices)))
    /\ nrows paths = (horizon_days + 1)%nat
    /\ forall d j,
        at2 paths d j
        = let value k :=
            portfolio_value_of (shares_of stats)
              (simulated_prices g stats prices daily_cov chol horizon_days k j) in
          if (j <? n_sims)%nat
          then if ((j <? 100) && (1 <=? d) && (d <=? horizon_days))%nat
               then value d
               else if Nat.eqb d horizon_days then value horizon_days
                    else if Nat.eqb d 0 then Num 100000 else Num 0
          else if Nat.eqb d 0 then Num 100000 else Num 0.
Proof.
  intros Hf. unfold run_monte_carlo_portfolio. rewrite Hf.
  eexists. eexists. split; [reflexivity|]. split.
  - cbn [fst]. rewrite sim_loop_nrows. cbn. reflexivity.
  - intros d j. cbn [fst]. rewrite sim_loop_at.
    cbn [fst nrows set_row2 zeros2 at2].
    replace (horizon_days + 1 - 1)%nat with horizon_days by lia.
    reflexivity.
Qed.

End MonteCarloRun.

(** ** What [run_portfolio_simulation] returns *)

Module SimulatorFacts.
Import NumPy Pandas Factor Simulator NumPyFacts FactorFacts.
Local Open Scope R_scope.

(** [for i in range(n): p[a, i, c] = f i] *)
Lemma store_prices_at (n a c : nat) (f : nat -> npfloat) (p : ndarray3)
      (d i j : nat) :
  at3 (for_range n (fun i p => set3 p a i c (f i)) p) d i j
  = if (Nat.eqb d a && Nat.eqb j c && (i <? n))%nat then f i else at3 p d i j.
Proof.
  induction n as [|n IH].
  - cbn. rewrite andb_false_r. reflexivity.
  - rewrite for_range_S. cbn [set3 at3]. rewrite IH.
    destruct (Nat.eqb d a), (Nat.eqb j c); cbn [andb]; try reflexivity.
    + destruct (Nat.eqb_spec i n) as [->|Hi].
      * replace (n <? S n)%nat with true by (symmetry; apply Nat.ltb_lt; lia).
        reflexivity.
      * destruct (Nat.ltb_spec i n), (Nat.ltb_spec i (S n)); try reflexivity; lia.
    + rewrite andb_false_r. reflexivity.
Qed.

(** [for i in range(n): p[0, i, :] = f i] *)
Lemma store_initial_at (n : nat) (f : nat -> npfloat) (p : ndarray3)
      (d i j : nat) :
  at3 (for_range n (fun i p => set_line3 p 0 i (f i)) p) d i j
  = if (Nat.eqb d 0 && (i <? n))%nat then f i else at3 p d i j.
Proof.
  induction n as [|n IH].
  - cbn. rewrite andb_false_r. reflexivity.
  - rewrite for_range_S. cbn [set_line3 at3]. rewrite IH.
    destruct (Nat.eqb d 0); cbn [andb]; try reflexivity.
    destruct (Nat.eqb_spec i n) as [->|Hi].
    + replace (n <? S n)%nat with true by (symmetry; apply Nat.ltb_lt; lia).
      reflexivity.
    + destruct (Nat.ltb_spec i n), (Nat.ltb_spec i (S n)); try reflexivity; lia.
Qed.

Section LoopFacts.
Variables (mu_daily : list npfloat)
            (cov_daily chol : list (list npfloat))
            (shares start : list npfloat)
            (n_assets horizon_days : nat)
            (g : rng).

Let sp := simulated_prices mu_daily cov_daily chol start g horizon_days n_assets.
Let day := day_body mu_daily cov_daily chol shares n_assets.
Let day_inv := day_inv mu_daily cov_daily chol shares start n_assets
                         horizon_days g.
Let sim_inv := sim_inv mu_daily cov_daily chol shares start n_assets
                         horizon_days g.

Lemma simulated_prices_S (k sim : nat) :
    sp (S k) sim
    = gbm_update mu_daily cov_daily chol (sp k sim)
                 (shocks g horizon_days n_assets sim k).
  Proof. unfold sp, simulated_prices. rewrite for_range_S. reflexivity. Qed.

Lemma day_body_inv (sim : nat) (p : ndarray3) (v : ndarray2)
        (t : nat) (st : loop_state) :
    day_inv sim p v t st -> day_inv sim p v (S t) (day sim t st).
  Proof.
    intros (Hg & Hp & H3 & H2 & Hr & Hc).
    unfold day, day_body, random_normal. cbn [gen stock_prices sim_stock_paths
      sim_portfolio_values].
    assert (Hz : map (fun i => Num (gen st i)) (seq 0 n_assets)
                 = shocks g horizon_days n_assets sim t).
    { unfold shocks. apply map_ext. intros a. rewrite Hg. reflexivity. }
    rewrite Hz, Hp, <- simulated_prices_S.
    unfold day_inv, Simulator.day_inv.
    cbn [gen stock_prices sim_stock_paths sim_portfolio_values].
    repeat split.
    - intros i. unfold advance. rewrite Hg. f_equal. ring.
    - intros d i j. rewrite store_prices_at, H3.
      replace (t + 1)%nat with (S t) by lia.
      destruct (Nat.eqb_spec d (S t)) as [->|Hd]; cbn [andb].
      + destruct (Nat.eqb j sim); cbn [andb]; [|reflexivity].
        replace (S t <=? S t)%nat with true by (symmetry; apply Nat.leb_le; lia).
        replace (S t <=? t)%nat with false by (symmetry; apply Nat.leb_gt; lia).
        cbn [andb]. reflexivity.
      + destruct (Nat.eqb j sim); cbn [andb]; [|reflexivity].
        destruct (1 <=? d)%nat; cbn [andb]; [|reflexivity].
        destruct (Nat.leb_spec d t), (Nat.leb_spec d (S t)); try reflexivity; lia.
    - intros d j. cbn [set2 at2]. rewrite H2.
      replace (t + 1)%nat with (S t) by lia.
      destruct (Nat.eqb_spec d (S t)) as [->|Hd]; cbn [andb].
      + destruct (Nat.eqb j sim); cbn [andb]; [|reflexivity].
        replace (S t <=? S t)%nat with true by (symmetry; apply Nat.leb_le; lia).
        reflexivity.
      + destruct (Nat.eqb j sim); cbn [andb]; [|reflexivity].
        destruct (1 <=? d)%nat; cbn [andb]; [|reflexivity].
        destruct (Nat.leb_spec d t), (Nat.leb_spec d (S t)); try reflexivity; lia.
    - exact Hr.
    - exact Hc.
  Qed.

Lemma sim_body_inv (p : ndarray3) (v : ndarray2) (k : nat) (st : loop_state) :
    sim_inv p v k st ->
    sim_inv p v (S k)
            (sim_body mu_daily cov_daily chol shares n_assets horizon_days
                      start k st).
  Proof.
    intros (Hg & H3 & H2 & Hr & Hc).
    unfold sim_body. fold day.
    pose proof (for_range_inv
                  (day_inv k (sim_stock_paths st) (sim_portfolio_values st))
                  horizon_days (day k)
                  (mkloop (gen st) start (sim_stock_paths st)
                          (sim_portfolio_values st))) as Hloop.
    destruct Hloop as (Hg' & _ & H3' & H2' & Hr' & Hc').
    - unfold day_inv, Simulator.day_inv.
      cbn [gen stock_prices sim_stock_paths sim_portfolio_values].
      repeat split.
      + intros i. rewrite Hg. f_equal. ring.
      + intros d i j. destruct (Nat.eqb j k); cbn [andb]; [|reflexivity].
        destruct (1 <=? d)%nat eqn:Hd; cbn [andb]; [|reflexivity].
        apply Nat.leb_le in Hd.
        replace (d <=? 0)%nat with false by (symmetry; apply Nat.leb_gt; lia).
        reflexivity.
      + intros d j. destruct (Nat.eqb j k); cbn [andb]; [|reflexivity].
        destruct (1 <=? d)%nat eqn:Hd; cbn [andb]; [|reflexivity].
        apply Nat.leb_le in Hd.
        replace (d <=? 0)%nat with false by (symmetry; apply Nat.leb_gt; lia).
        reflexivity.
    - intros i s _. apply day_body_inv.
    - unfold sim_inv, Simulator.sim_inv. repeat split.
      + intros i. rewrite Hg'. f_equal. ring.
      + intros d i j. rewrite H3', H3.
        destruct (Nat.eqb_spec j k) as [->|Hj]; cbn [andb].
        * replace (k <? S k)%nat with true by (symmetry; apply Nat.ltb_lt; lia).
          replace (k <? k)%nat with false by (symmetry; apply Nat.ltb_ge; lia).
          cbn [andb].
          destruct ((1 <=? d) && (d <=? horizon_days) && (i <? n_assets))%nat;
            reflexivity.
        * destruct (Nat.ltb_spec j k), (Nat.ltb_spec j (S k)); try reflexivity; lia.
      + intros d j. rewrite H2', H2.
        destruct (Nat.eqb_spec j k) as [->|Hj]; cbn [andb].
        * replace (k <? S k)%nat with true by (symmetry; apply Nat.ltb_lt; lia).
          replace (k <? k)%nat with false by (symmetry; apply Nat.ltb_ge; lia).
          cbn [andb].
          destruct ((1 <=? d) && (d <=? horizon_days))%nat; reflexivity.
        * destruct (Nat.ltb_spec j k), (Nat.ltb_spec j (S k)); try reflexivity; lia.
      + rewrite Hr'. exact Hr.
      + rewrite Hc'. exact Hc.
  Qed.

Lemma sim_loop_inv (p : ndarray3) (v : ndarray2) (n_sims : nat) :
    sim_inv p v n_sims
            (for_range n_sims
                       (sim_body mu_daily cov_daily chol shares n_assets
                                 horizon_days start)
                       (mkloop g start p v)).
  Proof.
    apply (for_range_inv (sim_inv p v)).
    - unfold sim_inv, Simulator.sim_inv.
      cbn [gen sim_stock_paths sim_portfolio_values].
      repeat split; reflexivity.
    - intros i st _. apply sim_body_inv.
  Qed.
End LoopFacts.

End SimulatorFacts.

(** ** The GBM update keeps prices strictly positive *)

Module Positivity.
Import NumPy Pandas Factor NumPyFacts FactorFacts.
Local Open Scope R_scope.

Lemma fexp_positive (a : npfloat) : finite a -> positive (fexp a).
Proof.
  intros [x ->]. exists (exp x). split; [reflexivity|apply exp_pos].
Qed.

Lemma fmul_positive (a b : npfloat) :
  positive a -> positive b -> positive (fmul a b).
Proof.
  intros (x & -> & Hx) (y & -> & Hy). exists (x * y).
  split; [reflexivity|apply Rmult_lt_0_compat; assumption].
Qed.

Lemma fadd_finite (a b : npfloat) : finite a -> finite b -> finite (fadd a b).
Proof. intros [x ->] [y ->]. eexists. reflexivity. Qed.

Lemma drift_finite (m v : npfloat) :
  finite m -> positive v ->
  finite (fmul (fsub m (fmul (Num (1 / 2)) v)) (Num 1)).
Proof. intros [x ->] (y & -> & _). eexists. reflexivity. Qed.

Lemma shocks_finite (f : nat -> R) (n : nat) :
  Forall finite (map (fun a => Num (f a)) (seq 0 n)).
Proof.
  apply Forall_map. apply Forall_forall. intros a _. eexists. reflexivity.
Qed.

Section Update.
Variables (mu : list npfloat) (cov chol : list (list npfloat)).
Hypothesis mu_finite : Forall finite mu.
Hypothesis chol_of_cov : cholesky cov = inr chol.

Lemma monte_carlo_update_positive (prices z : list npfloat) :
  Forall finite z -> Forall positive prices ->
  Forall positive (MonteCarlo.gbm_update mu cov chol prices z).
Proof.
  intros Hz Hp.
  destruct (cholesky_ok _ _ chol_of_cov) as (Hchol & _ & Hdiag).
  unfold MonteCarlo.gbm_update, MonteCarlo.dt.
  apply (Forall_map2 positive positive); [apply fmul_positive|exact Hp|].
  apply Forall_map.
  apply (Forall_map2 finite finite (fun e => positive (fexp e))).
  - intros a b Ha Hb. apply fexp_positive, fadd_finite; assumption.
  - apply (Forall_map2 finite positive); [apply drift_finite|exact mu_finite|exact Hdiag].
  - apply (Forall_map2 positive finite).
    + intros v c (x & -> & Hx) [y ->]. cbn [fmul lift2].
      rewrite fsqrt_pos by lra. eexists. reflexivity.
    + exact Hdiag.
    + apply matvec_finite; assumption.
Qed.

Lemma simulator_update_positive (prices z : list npfloat) :
  Forall finite z -> Forall positive prices ->
  Forall positive (Simulator.gbm_update mu cov chol prices z).
Proof.
  intros Hz Hp.
  destruct (cholesky_ok _ _ chol_of_cov) as (Hchol & _ & Hdiag).
  unfold Simulator.gbm_update.
  apply (Forall_map2 positive positive); [apply fmul_positive|exact Hp|].
  apply Forall_map.
  apply (Forall_map2 finite finite (fun e => positive (fexp e))).
  - intros a b Ha Hb. apply fexp_positive, fadd_finite; assumption.
  - apply (Forall_map2 finite positive); [apply drift_finite|exact mu_finite|exact Hdiag].
  - apply (Forall_map2 positive finite).
    + intros v c (x & -> & Hx) [y ->].
      rewrite !fsqrt_pos by lra. eexists. reflexivity.
    + exact Hdiag.
    + apply matvec_finite; assumption.
Qed.

Lemma monte_carlo_prices_positive (start : list npfloat)
      (random_matrix : nat -> nat -> list npfloat) (k sim : nat) :
  (forall s d, Forall finite (random_matrix s d)) ->
  Forall positive start ->
  Forall positive (MonteCarlo.prices_after mu cov chol start random_matrix k sim).
Proof.
  intros Hrm Hstart. unfold MonteCarlo.prices_after.
  induction k as [|k IH].
  - exact Hstart.
  - rewrite for_range_S. apply monte_carlo_update_positive; [apply Hrm|exact IH].
Qed.

Lemma simulator_prices_positive (start : list npfloat) (g : rng)
      (horizon_days n_assets k sim : nat) :
  Forall positive start ->
  Forall positive
         (Simulator.simulated_prices mu cov chol start g horizon_days n_assets
                                     k sim).
Proof.
  intros Hstart. unfold Simulator.simulated_prices.
  induction k as [|k IH].
  - exact Hstart.
  - rewrite for_range_S. apply simulator_update_positive; [|exact IH].
    apply shocks_finite.
Qed.
End Update.

End Positivity.

(** ** The arrays of the two runs, entry by entry *)

Module RunFacts.
Import NumPy Pandas Factor NumPyFacts FactorFacts.
Local Open Scope R_scope.

(** [individual_final_prices] after [n] simulations. *)
Lemma final_prices_at (daily_returns : list npfloat)
      (daily_cov chol : list (list npfloat))
      (initial_prices shares_held : list npfloat)
      (random_matrix : nat -> nat -> list npfloat) (h n : nat)
      (st : ndarray2 * ndarray2) (i j : nat) :
  at2 (snd (for_range n
                      (MonteCarlo.sim_body daily_returns daily_cov chol
                         initial_prices shares_held random_matrix h) st)) i j
  = if (j <? n)%nat
    then nth i (MonteCarlo.prices_after daily_returns daily_cov chol
                  initial_prices random_matrix h j) NaN
    else at2 (snd st) i j.
Proof.
  induction n as [|n IH].
  - reflexivity.
  - rewrite for_range_S. unfold MonteCarlo.sim_body at 1.
    cbn [snd set_col2 at2]. rewrite IH. unfold MonteCarlo.main_pass.
    destruct (Nat.eqb_spec j n) as [->|Hj].
    + replace (n <? S n)%nat with true by (symmetry; apply Nat.ltb_lt; lia).
      reflexivity.
    + destruct (Nat.ltb_spec j n), (Nat.ltb_spec j (S n)); try reflexivity; lia.
Qed.

(** The terminal prices that [run_monte_carlo_portfolio] returns are the
    prices after the last day. *)
Lemma run_final_prices (g : rng) (stats : MonteCarlo.statistics)
      (prices : frame) (n_sims horizon_days : nat)
      (daily_cov chol : list (list npfloat))
      (paths : ndarray2) (individual : ndarray3) (g' : rng) :
  factorize (length (cov (MonteCarlo.returns stats)))
            (cov (MonteCarlo.returns stats)) = inr (daily_cov, chol) ->
  MonteCarlo.run_monte_carlo_portfolio g stats prices n_sims horizon_days
  = (inr (paths, individual), g') ->
  forall i j, (j < n_sims)%nat ->
    at3 individual 1 i j
    = nth i (MonteCarlo.simulated_prices g stats prices daily_cov chol
               horizon_days horizon_days j) NaN.
Proof.
  intros Hf Hrun i j Hj.
  unfold MonteCarlo.run_monte_carlo_portfolio in Hrun. rewrite Hf in Hrun.
  inversion Hrun; subst; clear Hrun.
  cbn [at3]. rewrite final_prices_at.
  replace (j <? n_sims)%nat with true by (symmetry; apply Nat.ltb_lt; lia).
  reflexivity.
Qed.

(** After a successful factorisation [run_portfolio_simulation] returns,
    and both result arrays are known entry by entry. *)
Lemma run_simulation (g : rng) (prices : frame) (weights : list npfloat)
      (n_sims horizon_days : nat) (initial_value : npfloat)
      (last : list npfloat) (cov_daily chol : list (list npfloat)) :
  iloc_last prices = inr last ->
  factorize (length weights) (cov (log_returns prices)) = inr (cov_daily, chol) ->
  exists res g',
    Simulator.run_portfolio_simulation g prices weights n_sims horizon_days
                                       initial_value = (inr res, g')
    /\ (forall d i j,
          at3 (Simulator.stock_paths res) d i j
          = if ((j <? n_sims) && (1 <=? d) && (d <=? horizon_days)
                && (i <? length weights))%nat
            then nth i (Simulator.simulated_prices
                          (mean (log_returns prices)) cov_daily chol last g
                          horizon_days (length weights) d j) NaN
            else if (Nat.eqb d 0 && (i <? length weights))%nat
                 then nth i last NaN else Num 0)
    /\ (forall d j,
          at2 (Simulator.portfolio_paths res) d j
          = if ((j <? n_sims) && (1 <=? d) && (d <=? horizon_days))%nat
            then dot (Simulator.simulated_prices
                        (mean (log_returns prices)) cov_daily chol last g
                        horizon_days (length weights) d j)
                     (Simulator.shares_of initial_value weights last)
            else if Nat.eqb d 0 then initial_value else Num 0)
    /\ nrows (Simulator.portfolio_paths res) = (horizon_days + 1)%nat
    /\ ncols (Simulator.portfolio_paths res) = n_sims
    /\ Simulator.final_values res = last_row2 (Simulator.portfolio_paths res)
    /\ Simulator.sim_returns res
       = map (fun v => fsub (fdiv v initial_value) (Num 1))
             (Simulator.final_values res).
Proof.
  intros Hlast Hf. unfold Simulator.run_portfolio_simulation.
  rewrite Hlast, Hf.
  eexists. eexists. split; [reflexivity|].
  cbn [Simulator.stock_paths Simulator.portfolio_paths Simulator.final_values
       Simulator.sim_returns].
  destruct (SimulatorFacts.sim_loop_inv
              (mean (log_returns prices)) cov_daily chol
              (Simulator.shares_of initial_value weights last) last
              (length weights) horizon_days g
              (for_range (length weights)
                         (fun i p => set_line3 p 0 i (nth i last NaN))
                         (zeros3 (horizon_days + 1) (length weights) n_sims))
              (set_row2 (zeros2 (horizon_days + 1) n_sims) 0 initial_value)
              n_sims) as (_ & H3 & H2 & Hr & Hc).
  repeat split.
  - intros d i j. rewrite H3, SimulatorFacts.store_initial_at. reflexivity.
  - intros d j. rewrite H2. reflexivity.
  - rewrite Hr. reflexivity.
  - rewrite Hc. reflexivity.
Qed.

End RunFacts.

(** ** The sample inputs evaluated *)

Module SampleFacts.
Import NumPy Pandas Factor NumPyFacts FactorFacts Sample.
Local Open Scope R_scope.

(** Decide the comparisons of reals that an evaluation meets. *)
Ltac decide_reals :=
  repeat match goal with
         | |- context [Req_dec_T ?a ?b] =>
             destruct (Req_dec_T a b); [try (exfalso; lra)|try (exfalso; lra)]
         | |- context [Rlt_dec ?a ?b] =>
             destruct (Rlt_dec a b); [try (exfalso; lra)|try (exfalso; lra)]
         | |- context [Rle_dec ?a ?b] =>
             destruct (Rle_dec a b); [try (exfalso; lra)|try (exfalso; lra)]
         end.

Lemma epsilon_pos : 0 < epsilon.
Proof. unfold epsilon. lra. Qed.

Lemma cholesky_1x1_fails (a : R) :
  a <= 0 -> cholesky [[Num a]] = inl LinAlgError.
Proof.
  intros Ha. unfold cholesky. cbn [length chol_rows]. unfold chol_row.
  cbn [chol_offdiag length nth dot fsub lift2 fltb].
  destruct (Rlt_dec 0 (a - 0)); [lra|reflexivity].
Qed.

Lemma cholesky_1x1 (a : R) :
  0 < a -> cholesky [[Num a]] = inr [[Num (sqrt a)]].
Proof.
  intros Ha. unfold cholesky. cbn [length chol_rows]. unfold chol_row.
  cbn [chol_offdiag length nth dot fsub lift2 fltb].
  destruct (Rlt_dec 0 (a - 0)); [|lra].
  cbn. destruct (Rlt_dec (a - 0) 0); [lra|].
  replace (a - 0) with a by lra. reflexivity.
Qed.

Lemma regularize_1x1 (a : R) :
  regularize 1 [[Num a]] = [[Num (a + epsilon)]].
Proof.
  cbn. replace (a + 1 * epsilon) with (a + epsilon) by lra. reflexivity.
Qed.

(** The zero covariance fails the plain factorisation and passes the
    regularised one. *)
Lemma factorize_zero :
  factorize 1 [[Num 0]] = inr ([[Num epsilon]], [[Num (sqrt epsilon)]]).
Proof.
  rewrite factorize_eq, cholesky_1x1_fails by lra.
  rewrite regularize_1x1.
  replace (0 + epsilon) with epsilon by lra.
  rewrite cholesky_1x1 by apply epsilon_pos. reflexivity.
Qed.

(** A matrix that fails both attempts. *)
Lemma factorize_negative :
  factorize 1 [[Num (-1)]] = inl LinAlgError.
Proof.
  rewrite factorize_eq, cholesky_1x1_fails by lra.
  rewrite regularize_1x1, cholesky_1x1_fails; [reflexivity|].
  unfold epsilon. lra.
Qed.

(** A matrix that passes the first attempt is not regularised. *)
Lemma factorize_one :
  factorize 1 [[Num 1]] = inr ([[Num 1]], [[Num (sqrt 1)]]).
Proof. rewrite factorize_eq, cholesky_1x1 by lra. reflexivity. Qed.

Lemma flat_mean : mean flat_returns = [Num 0].
Proof. cbn. decide_reals. do 2 f_equal. lra. Qed.

Lemma flat_cov : cov flat_returns = [[Num 0]].
Proof.
  cbn. decide_reals. cbn. decide_reals. do 3 f_equal. lra.
Qed.

Lemma flat_prices_positive : Forall (Forall positive) (rows flat_prices).
Proof.
  repeat constructor; exists 1; split; try reflexivity; lra.
Qed.

Lemma flat_log_returns : log_returns flat_prices = flat_returns.
Proof.
  unfold log_returns, log_ratio, shift1, dropna, flat_prices, flat_returns.
  cbn. decide_reals. cbn. decide_reals.
  replace (1 / 1) with 1 by lra. rewrite ln_1. reflexivity.
Qed.

Lemma sample_weights :
  MonteCarlo.weights_of Sample.flat_composition ["A"%string]
  = inr [Num (100 / 100)].
Proof.
  cbn. destruct (Req_dec_T 100 0); [lra|]. reflexivity.
Qed.

(** The flat statistics are what the estimation makes of the flat panel
    held as the whole portfolio. *)
Lemma flat_statistics :
  MonteCarlo.calculate_portfolio_statistics flat_prices flat_composition
                                            (Num 100000)
  = inr flat_stats.
Proof.
  unfold MonteCarlo.calculate_portfolio_statistics.
  change (columns flat_prices) with ["A"%string].
  rewrite sample_weights. unfold bind.
  rewrite flat_log_returns, flat_mean, flat_cov.
  cbn. decide_reals. cbn. decide_reals.
  unfold flat_stats. f_equal.
  replace (100 / 100) with 1 by lra.
  replace (0 * 252) with 0 by lra.
  replace (1 * 0 + 0) with 0 by lra.
  replace (1 * (0 * 1 + 0) + 0) with 0 by lra.
  rewrite sqrt_0.
  replace (1 * 100) with 100 by lra.
  replace (100000 * 1) with 100000 by lra.
  replace (100000 / 1) with 100000 by lra.
  reflexivity.
Qed.

End SampleFacts.

(** ** Shapes *)

Module ShapeFacts.
Import NumPy Pandas Factor NumPyFacts FactorFacts.
Local Open Scope R_scope.

Lemma mean_length (df : frame) : length (mean df) = length (columns df).
Proof. unfold mean. rewrite length_map, length_seq. reflexivity. Qed.

Lemma cov_length (df : frame) : length (cov df) = length (columns df).
Proof. unfold cov. rewrite length_map, length_seq. reflexivity. Qed.

Lemma log_returns_columns (prices : frame) :
  columns (log_returns prices) = columns prices.
Proof. reflexivity. Qed.

Lemma diag_length (m : list (list npfloat)) : length (diag m) = length m.
Proof. unfold diag. rewrite length_map, length_seq. reflexivity. Qed.

Lemma matvec_length (m : list (list npfloat)) (v : list npfloat) :
  length (matvec m v) = length m.
Proof. unfold matvec. apply length_map. Qed.

Lemma regularize_length (n : nat) (c : list (list npfloat)) :
  length c = n -> length (regularize n c) = n.
Proof.
  intros Hc. unfold regularize, mat_add, mat_scale, eye.
  rewrite map2_length, !length_map, length_seq. lia.
Qed.

(** The covariance and the factor that [factorize] returns keep the size
    of the covariance it was given. *)
Lemma factorize_length (n : nat) (c c' l : list (list npfloat)) :
  length c = n -> factorize n c = inr (c', l) ->
  length c' = n /\ length l = n.
Proof.
  intros Hc Hf. destruct (factorize_ok _ _ _ _ Hf) as [Hl Hc'].
  destruct (cholesky_ok _ _ Hl) as (_ & Hlen & _).
  assert (length c' = n).
  { destruct Hc' as [->| ->]; [exact Hc|apply regularize_length; exact Hc]. }
  split; [assumption|congruence].
Qed.

Lemma simulator_update_length (mu : list npfloat) (c l : list (list npfloat))
      (prices z : list npfloat) (n : nat) :
  length mu = n -> length c = n -> length l = n -> length prices = n ->
  length (Simulator.gbm_update mu c l prices z) = n.
Proof.
  intros Hmu Hc Hl Hp. unfold Simulator.gbm_update.
  rewrite !map2_length, length_map, !map2_length, diag_length, matvec_length.
  lia.
Qed.

Lemma simulated_prices_length (mu : list npfloat) (c l : list (list npfloat))
      (start : list npfloat) (g : rng) (h n k sim : nat) :
  length mu = n -> length c = n -> length l = n -> length start = n ->
  length (Simulator.simulated_prices mu c l start g h n k sim) = n.
Proof.
  intros Hmu Hc Hl Hs. unfold Simulator.simulated_prices.
  induction k as [|k IH].
  - exact Hs.
  - rewrite for_range_S. apply simulator_update_length; assumption.
Qed.

Lemma monte_carlo_update_length (mu : list npfloat) (c l : list (list npfloat))
      (prices z : list npfloat) (n : nat) :
  length mu = n -> length c = n -> length l = n -> length prices = n ->
  length (MonteCarlo.gbm_update mu c l prices z) = n.
Proof.
  intros Hmu Hc Hl Hp. unfold MonteCarlo.gbm_update.
  rewrite !map2_length, length_map, !map2_length, diag_length, matvec_length.
  lia.
Qed.

Lemma monte_carlo_prices_length (mu : list npfloat) (c l : list (list npfloat))
      (start : list npfloat) (random_matrix : nat -> nat -> list npfloat)
      (n k sim : nat) :
  length mu = n -> length c = n -> length l = n -> length start = n ->
  length (MonteCarlo.prices_after mu c l start random_matrix k sim) = n.
Proof.
  intros Hmu Hc Hl Hs. unfold MonteCarlo.prices_after.
  induction k as [|k IH].
  - exact Hs.
  - rewrite for_range_S. apply monte_carlo_update_length; assumption.
Qed.

(** Row 0 of the [individual_paths] that [run_monte_carlo_portfolio]
    returns holds the initial prices. *)
Lemma run_initial_prices (g g' : rng) (stats : MonteCarlo.statistics)
      (prices : frame) (n_sims horizon_days : nat)
      (paths : ndarray2) (individual : ndarray3) :
  MonteCarlo.run_monte_carlo_portfolio g stats prices n_sims horizon_days
  = (inr (paths, individual), g') ->
  forall i sim,
    at3 individual 0 i sim = nth i (MonteCarlo.latest_prices stats) NaN.
Proof.
  unfold MonteCarlo.run_monte_carlo_portfolio.
  destruct (factorize _ _) as [e|[c l]]; [discriminate|].
  intros H. inversion H; subst; clear H. intros i sim. reflexivity.
Qed.

End ShapeFacts.

(** ** The degenerate single-asset run, day by day *)

Module DegenerateFacts.
Import NumPy Pandas Factor NumPyFacts FactorFacts Degenerate SampleFacts.
Local Open Scope R_scope.

Lemma sqrt_epsilon_sqr : sqrt epsilon * sqrt epsilon = epsilon.
Proof. apply sqrt_sqrt. pose proof epsilon_pos. lra. Qed.

Lemma monte_carlo_step (p z : R) :
  MonteCarlo.gbm_update [Num 0] [[Num epsilon]] [[Num (sqrt epsilon)]]
                        [Num p] [Num z]
  = [Num (p * exp (epsilon * z - epsilon / 2))].
Proof.
  pose proof epsilon_pos as He.
  unfold MonteCarlo.gbm_update, MonteCarlo.dt. cbn.
  destruct (Rlt_dec (epsilon * 1) 0); [lra|].
  cbn. do 4 f_equal.
  replace (epsilon * 1) with epsilon by lra.
  transitivity (sqrt epsilon * sqrt epsilon * z - epsilon / 2); [field|].
  rewrite sqrt_epsilon_sqr. reflexivity.
Qed.

Lemma simulator_step (p z : R) :
  Simulator.gbm_update [Num 0] [[Num epsilon]] [[Num (sqrt epsilon)]]
                       [Num p] [Num z]
  = [Num (p * exp (epsilon * z - epsilon / 2))].
Proof.
  pose proof epsilon_pos as He.
  unfold Simulator.gbm_update. cbn.
  destruct (Rlt_dec epsilon 0); [lra|].
  destruct (Rlt_dec 1 0); [lra|].
  cbn. do 4 f_equal. rewrite sqrt_1.
  transitivity (sqrt epsilon * sqrt epsilon * z - epsilon / 2); [field|].
  rewrite sqrt_epsilon_sqr. reflexivity.
Qed.

Lemma monte_carlo_prices (g : rng) (h k sim : nat) (p0 : R) :
  MonteCarlo.prices_after [Num 0] [[Num epsilon]] [[Num (sqrt epsilon)]]
                          [Num p0] (MonteCarlo.random_matrix_of g h 1) k sim
  = [Num (p0 * exp (log_growth (draw g h sim) k))].
Proof.
  induction k as [|k IH].
  - cbn. rewrite exp_0, Rmult_1_r. reflexivity.
  - rewrite MonteCarloFacts.prices_after_S, IH.
    change (MonteCarlo.random_matrix_of g h 1 sim k)
      with [Num (draw g h sim k)].
    rewrite monte_carlo_step. cbn [log_growth].
    rewrite (exp_plus (log_growth (draw g h sim) k)).
    do 2 f_equal. ring.
Qed.

Lemma simulator_prices (g : rng) (h k sim : nat) (p0 : R) :
  Simulator.simulated_prices [Num 0] [[Num epsilon]] [[Num (sqrt epsilon)]]
                             [Num p0] g h 1 k sim
  = [Num (p0 * exp (log_growth (draw g h sim) k))].
Proof.
  induction k as [|k IH].
  - cbn. rewrite exp_0, Rmult_1_r. reflexivity.
  - rewrite SimulatorFacts.simulated_prices_S, IH.
    change (Simulator.shocks g h 1 sim k) with [Num (draw g h sim k)].
    rewrite simulator_step. cbn [log_growth].
    rewrite (exp_plus (log_growth (draw g h sim) k)).
    do 2 f_equal. ring.
Qed.

(** The terminal values of the degenerate run of
    [run_monte_carlo_portfolio]. *)
Lemma monte_carlo_terminal (g : rng) (stats : MonteCarlo.statistics)
      (prices : frame) (n_sims horizon_days : nat) (p0 : R) :
  mean (MonteCarlo.returns stats) = [Num 0] ->
  cov (MonteCarlo.returns stats) = [[Num 0]] ->
  MonteCarlo.weights stats = [Num 1] ->
  MonteCarlo.latest_prices stats = [Num p0] ->
  0 < p0 ->
  length (columns prices) = 1%nat ->
  exists paths individual g',
    MonteCarlo.run_monte_carlo_portfolio g stats prices n_sims horizon_days
    = (inr (paths, individual), g')
    /\ forall sim, (sim < n_sims)%nat ->
         at2 paths horizon_days sim
         = Num (100000 * exp (log_growth (draw g horizon_days sim) horizon_days)).
Proof.
  intros Hmean Hcov Hw Hlast Hp0 Hcols.
  assert (Hf : factorize (length (cov (MonteCarlo.returns stats)))
                         (cov (MonteCarlo.returns stats))
               = inr ([[Num epsilon]], [[Num (sqrt epsilon)]])).
  { rewrite Hcov. exact factorize_zero. }
  destruct (MonteCarloRun.run_paths g stats prices n_sims horizon_days _ _ Hf)
    as (paths & individual & Hrun & _ & Hat).
  exists paths, individual. eexists. split; [exact Hrun|].
  intros sim Hsim. rewrite Hat. cbv zeta.
  replace (sim <? n_sims)%nat with true by (symmetry; apply Nat.ltb_lt; lia).
  rewrite Nat.eqb_refl.
  assert (Hv : MonteCarlo.portfolio_value_of (MonteCarlo.shares_of stats)
                 (MonteCarlo.simulated_prices g stats prices [[Num epsilon]]
                    [[Num (sqrt epsilon)]] horizon_days horizon_days sim)
               = Num (100000
                      * exp (log_growth (draw g horizon_days sim) horizon_days))).
  { unfold MonteCarlo.simulated_prices, MonteCarlo.shares_of.
    rewrite Hmean, Hw, Hlast, Hcols, monte_carlo_prices.
    cbn. destruct (Req_dec_T p0 0); [lra|].
    cbn. f_equal. field. lra. }
  rewrite Hv. destruct (_ && _)%bool; reflexivity.
Qed.

(** The terminal values of the degenerate run of
    [run_portfolio_simulation]. *)
Lemma simulator_terminal (g : rng) (prices : frame)
      (n_sims horizon_days : nat) (p0 v0 : R) :
  mean (log_returns prices) = [Num 0] ->
  cov (log_returns prices) = [[Num 0]] ->
  iloc_last prices = inr [Num p0] ->
  0 < p0 ->
  exists res g',
    Simulator.run_portfolio_simulation g prices [Num 1] n_sims horizon_days
                                       (Num v0) = (inr res, g')
    /\ forall sim, (sim < n_sims)%nat ->
         at2 (Simulator.portfolio_paths res) horizon_days sim
         = Num (v0 * exp (log_growth (draw g horizon_days sim) horizon_days)).
Proof.
  intros Hmean Hcov Hlast Hp0.
  assert (Hf : factorize (length [Num 1]) (cov (log_returns prices))
               = inr ([[Num epsilon]], [[Num (sqrt epsilon)]])).
  { rewrite Hcov. exact factorize_zero. }
  destruct (RunFacts.run_simulation g prices [Num 1] n_sims horizon_days
              (Num v0) _ _ _ Hlast Hf) as (res & g' & Hrun & _ & Hat & _).
  exists res, g'. split; [exact Hrun|].
  intros sim Hsim. rewrite Hat.
  replace (sim <? n_sims)%nat with true by (symmetry; apply Nat.ltb_lt; lia).
  replace (horizon_days <=? horizon_days)%nat with true
    by (symmetry; apply Nat.leb_le; lia).
  destruct horizon_days as [|h]; cbn [Nat.leb Nat.eqb andb].
  - cbn. rewrite exp_0, Rmult_1_r. reflexivity.
  - rewrite Hmean. change (length [Num 1]) with 1%nat.
    rewrite simulator_prices.
    unfold Simulator.shares_of. cbn.
    destruct (Req_dec_T p0 0); [lra|].
    cbn. f_equal. field. lra.
Qed.

End DegenerateFacts.

(** ** Order statistics and means *)

Module StatsFacts.
Import NumPy NumPyFacts Order.
Local Open Scope R_scope.

Lemma finite_values_Num (xs : list R) : finite_values (map Num xs) = Some xs.
Proof.
  induction xs as [|x xs IH]; cbn.
  - reflexivity.
  - rewrite IH. reflexivity.
Qed.

Lemma finite_values_NaN (a : list npfloat) :
  In NaN a -> finite_values a = None.
Proof.
  induction a as [|[x|] a IH]; cbn; intros H.
  - contradiction.
  - destruct H as [H|H]; [discriminate|]. rewrite (IH H). reflexivity.
  - reflexivity.
Qed.

Lemma Forall_finite_map (a : list npfloat) :
  Forall finite a -> exists xs, a = map Num xs.
Proof.
  induction 1 as [|x a [r ->] _ [xs ->]].
  - exists []. reflexivity.
  - exists (r :: xs). reflexivity.
Qed.

Lemma insert_length (x : R) (l : list R) : length (insert x l) = S (length l).
Proof.
  induction l as [|y l IH]; cbn.
  - reflexivity.
  - destruct (Rle_dec x y); cbn; [reflexivity|]. rewrite IH. reflexivity.
Qed.

Lemma sort_length (l : list R) : length (sort l) = length l.
Proof.
  induction l as [|x l IH]; cbn.
  - reflexivity.
  - rewrite insert_length, IH. reflexivity.
Qed.

Lemma insert_In (x y : R) (l : list R) :
  In y (insert x l) <-> y = x \/ In y l.
Proof.
  induction l as [|z l IH]; cbn.
  - intuition.
  - destruct (Rle_dec x z); cbn; [intuition|]. rewrite IH. intuition.
Qed.

Lemma sort_In (y : R) (l : list R) : In y (sort l) <-> In y l.
Proof.
  induction l as [|x l IH]; cbn.
  - reflexivity.
  - rewrite insert_In, IH. intuition.
Qed.

Lemma insert_ascending (x : R) (l : list R) :
  ascending l -> ascending (insert x l).
Proof.
  induction l as [|y l IH]; cbn; intros H.
  - split; [constructor|exact I].
  - destruct H as [Hy Hl]. destruct (Rle_dec x y) as [Hxy|Hxy]; cbn.
    + repeat split; try assumption.
      constructor; [exact Hxy|].
      eapply Forall_impl; [|exact Hy]. intros z Hz. lra.
    + split; [|apply IH; exact Hl].
      apply Forall_forall. intros z Hz. apply insert_In in Hz.
      destruct Hz as [->|Hz]; [lra|].
      eapply Forall_forall in Hy; eassumption.
Qed.

Lemma sort_ascending (l : list R) : ascending (sort l).
Proof.
  induction l as [|x l IH]; cbn.
  - exact I.
  - apply insert_ascending. exact IH.
Qed.

Lemma ascending_nth (l : list R) (i j : nat) :
  ascending l -> (i <= j < length l)%nat -> nth i l 0 <= nth j l 0.
Proof.
  revert i j. induction l as [|x l IH]; cbn; intros i j H Hij.
  - lia.
  - destruct H as [Hx Hl]. destruct i as [|i], j as [|j]; try lia.
    + lra.
    + eapply Forall_forall in Hx; [exact Hx|]. apply nth_In. lia.
    + apply IH; [exact Hl|lia].
Qed.

Lemma np_sum_Num (xs : list R) : np_sum (map Num xs) = Num (rsum xs).
Proof.
  induction xs as [|x xs IH]; cbn.
  - reflexivity.
  - unfold np_sum in IH. rewrite IH. reflexivity.
Qed.

Lemma np_mean_Num (xs : list R) :
  xs <> [] ->
  np_mean (map Num xs) = Num (rsum xs / INR (length xs)).
Proof.
  intros Hxs. unfold np_mean. rewrite np_sum_Num, length_map.
  apply fdiv_Num. apply not_0_INR. destruct xs; [contradiction|discriminate].
Qed.

Lemma np_mean_nil : np_mean [] = NaN.
Proof. unfold np_mean. cbn. destruct (Req_dec_T 0 0); [reflexivity|lra]. Qed.

Lemma rsum_le (xs : list R) (v : R) :
  Forall (fun x => x <= v) xs -> rsum xs <= INR (length xs) * v.
Proof.
  induction 1 as [|x xs Hx _ IH].
  - cbn. lra.
  - cbn [rsum length]. rewrite S_INR. lra.
Qed.

(** The indicator sum of [np.mean(mask)]. *)
Lemma np_sum_mask (f : npfloat -> bool) (a : list npfloat) :
  np_sum (map (fun r => of_bool (f r)) a) = Num (INR (length (filter f a))).
Proof.
  induction a as [|x a IH].
  - reflexivity.
  - cbn [map filter]. unfold np_sum in *. cbn [fold_right]. rewrite IH.
    destruct (f x); cbn [of_bool fadd lift2 length].
    + rewrite S_INR. f_equal. lra.
    + f_equal. lra.
Qed.

Lemma filter_length_le {A} (f : A -> bool) (l : list A) :
  (length (filter f l) <= length l)%nat.
Proof.
  induction l as [|x l IH]; cbn; [lia|].
  destruct (f x); cbn; lia.
Qed.

Lemma filter_fleb (ys : list R) (v : R) :
  filter (fun x => fleb x (Num v)) (map Num ys)
  = map Num (filter (fun y => if Rle_dec y v then true else false) ys).
Proof.
  induction ys as [|y ys IH]; cbn.
  - reflexivity.
  - destruct (Rle_dec y v); cbn; rewrite IH; reflexivity.
Qed.

End StatsFacts.

(** ** The risk figures *)

Module RiskFacts.
Import NumPy NumPyFacts Order Loss StatsFacts.
Local Open Scope R_scope.

Lemma even_size (k : nat) :
  ((S (2 * k) - 1) * 50 / 100 = k
   /\ (S (2 * k) - 1) * 50 mod 100 = 0
   /\ S (2 * k) / 2 = k)%nat
  /\ Nat.odd (S (2 * k)) = true.
Proof.
  repeat split.
  - symmetry. apply (Nat.div_unique _ 100 k 0); lia.
  - symmetry. apply (Nat.mod_unique _ 100 k 0); lia.
  - symmetry. apply (Nat.div_unique _ 2 k 1); lia.
  - rewrite Nat.odd_succ. apply Nat.even_spec. exists k. lia.
Qed.

Lemma odd_size (k : nat) :
  ((S (2 * k + 1) - 1) * 50 / 100 = k
   /\ (S (2 * k + 1) - 1) * 50 mod 100 = 50
   /\ S (2 * k + 1) / 2 = S k)%nat
  /\ Nat.odd (S (2 * k + 1)) = false.
Proof.
  repeat split.
  - symmetry. apply (Nat.div_unique _ 100 k 50); lia.
  - symmetry. apply (Nat.mod_unique _ 100 k 50); lia.
  - symmetry. apply (Nat.div_unique _ 2 (S k) 0); lia.
  - rewrite Nat.odd_succ, <- Nat.negb_odd.
    rewrite (proj2 (Nat.odd_spec _)); [reflexivity|]. exists k. lia.
Qed.

(** The 50th percentile of the linear method is the median. *)
Lemma percentile_50_median (a : list npfloat) :
  np_percentile a 50 = np_median a.
Proof.
  unfold np_percentile, np_median.
  destruct (finite_values a) as [[|x xs]|]; try reflexivity.
  pose proof (sort_length (x :: xs)) as Hn. cbn [length] in Hn.
  cbv zeta. generalize dependent (sort (x :: xs)). intros s Hn.
  rewrite Hn.
  destruct (Nat.Even_or_Odd (length xs)) as [[k Hk]|[k Hk]]; rewrite Hk.
  - destruct (even_size k) as [(Hlo & Hg & Hmid) Hodd].
    rewrite Hlo, Hg, Hmid, Hodd. f_equal. cbn [INR]. lra.
  - destruct (odd_size k) as [(Hlo & Hg & Hmid) Hodd].
    rewrite Hlo, Hg, Hmid, Hodd.
    replace (Nat.min (k + 1) (S (2 * k + 1) - 1)) with (S k) by lia.
    replace (S k - 1)%nat with k by lia.
    change [Num (nth k s 0); Num (nth (S k) s 0)]
      with (map Num [nth k s 0; nth (S k) s 0]).
    rewrite np_mean_Num by discriminate.
    f_equal. cbn [rsum length].
    replace (INR 50) with 50 by (rewrite INR_IZR_INZ; reflexivity).
    replace (INR 2) with 2 by (rewrite INR_IZR_INZ; reflexivity).
    lra.
Qed.

(** A percentile of a non-empty finite array is finite and not below the
    order statistic under it. *)
Lemma percentile_above_lower (ys : list R) (q : nat) :
  ys <> [] -> (q <= 100)%nat ->
  exists v y, np_percentile (map Num ys) q = Num v /\ In y ys /\ y <= v.
Proof.
  intros Hys Hq. unfold np_percentile. rewrite finite_values_Num.
  destruct ys as [|y0 ys]; [contradiction|].
  pose proof (sort_length (y0 :: ys)) as Hn.
  pose proof (sort_ascending (y0 :: ys)) as Hasc.
  pose proof (fun y => proj1 (sort_In y (y0 :: ys))) as Hin.
  cbv zeta. generalize dependent (sort (y0 :: ys)). intros s Hn Hasc Hin.
  set (n := length s) in *.
  set (lo := ((n - 1) * q / 100)%nat).
  set (hi := Nat.min (lo + 1) (n - 1)).
  assert (Hlo : (lo <= n - 1)%nat).
  { unfold lo. apply Nat.Div0.div_le_upper_bound.
    rewrite (Nat.mul_comm 100). apply Nat.mul_le_mono_l. exact Hq. }
  assert (Hn0 : (0 < n)%nat) by (cbn [length] in Hn; lia).
  eexists. exists (nth lo s 0). split; [reflexivity|]. split.
  - apply Hin. apply nth_In. fold n. lia.
  - assert (Hle : nth lo s 0 <= nth hi s 0).
    { apply ascending_nth; [exact Hasc|]. fold n. unfold hi. lia. }
    assert (Hg : 0 <= INR ((n - 1) * q mod 100) / 100).
    { pose proof (pos_INR ((n - 1) * q mod 100)). lra. }
    nra.
Qed.

(** On a non-empty finite array the selection at or below the fifth
    percentile is not empty, and its mean is finite and at most the
    percentile. *)
Lemma tail_mean_defined (ys : list R) :
  ys <> [] ->
  exists v c,
    np_percentile (map Num ys) 5 = Num v
    /\ filter (fun r => fleb r (Num v)) (map Num ys) <> []
    /\ np_mean (filter (fun r => fleb r (Num v)) (map Num ys)) = Num c
    /\ c <= v.
Proof.
  intros Hys.
  destruct (percentile_above_lower ys 5 Hys ltac:(lia)) as (v & y & Hv & Hy & Hyv).
  exists v. rewrite filter_fleb.
  set (zs := filter (fun y => if Rle_dec y v then true else false) ys).
  assert (Hz : In y zs).
  { apply filter_In. split; [exact Hy|].
    destruct (Rle_dec y v); [reflexivity|contradiction]. }
  assert (Hzs : zs <> []) by (intros E; rewrite E in Hz; contradiction).
  exists (rsum zs / INR (length zs)).
  split; [exact Hv|]. split.
  - intros E. apply Hzs. destruct zs; [reflexivity|discriminate].
  - split; [apply np_mean_Num; exact Hzs|].
    assert (Hall : Forall (fun z => z <= v) zs).
    { apply Forall_forall. intros z Hin. apply filter_In in Hin.
      destruct Hin as [_ Hin]. destruct (Rle_dec z v); [assumption|discriminate]. }
    pose proof (rsum_le zs v Hall) as Hsum.
    assert (Hlen : 0 < INR (length zs)).
    { apply lt_0_INR. destruct zs; [contradiction|cbn; lia]. }
    apply (Rmult_le_reg_r (INR (length zs))); [exact Hlen|].
    unfold Rdiv. rewrite Rmult_assoc, Rinv_l by lra. lra.
Qed.

(** An array with a [NaN] has no percentile and an empty selection. *)
Lemma tail_mean_undefined (a : list npfloat) (q : nat) :
  In NaN a ->
  np_percentile a q = NaN
  /\ filter (fun r => fleb r (np_percentile a q)) a = []
  /\ np_mean (filter (fun r => fleb r (np_percentile a q)) a) = NaN.
Proof.
  intros Hnan. assert (Hp : np_percentile a q = NaN).
  { unfold np_percentile. rewrite (finite_values_NaN _ Hnan). reflexivity. }
  rewrite Hp.
  assert (Hsel : filter (fun r => fleb r NaN) a = []).
  { clear. induction a as [|[x|] a IH]; cbn; auto. }
  rewrite Hsel. repeat split. apply np_mean_nil.
Qed.

(** [np.mean(returns < 0)] is the fraction of losing paths. *)
Lemma mean_of_loss_mask (rets : list npfloat) :
  rets <> [] ->
  np_mean (map (fun r => of_bool (fltb r (Num 0))) rets)
  = Num (loss_fraction rets)
  /\ 0 <= loss_fraction rets <= 1.
Proof.
  intros Hne. unfold np_mean, loss_fraction, loss_count.
  rewrite np_sum_mask, length_map.
  assert (Hlen : 0 < INR (length rets)).
  { apply lt_0_INR. destruct rets; [contradiction|cbn; lia]. }
  split.
  - apply fdiv_Num. lra.
  - pose proof (pos_INR (length (filter (fun r => fltb r (Num 0)) rets))) as H0.
    pose proof (le_INR _ _ (filter_length_le (fun r => fltb r (Num 0)) rets)) as H1.
    split.
    + apply Rmult_le_pos; [exact H0|]. left. apply Rinv_0_lt_compat. exact Hlen.
    + apply (Rmult_le_reg_r (INR (length rets))); [exact Hlen|].
      unfold Rdiv. rewrite Rmult_assoc, Rinv_l by lra. lra.
Qed.

(** The returns that [analyze_results] derives from the last row. *)
Lemma analyzed_returns (p : ndarray2) :
  MonteCarlo.sim_returns (MonteCarlo.analyze_results p)
  = map (fun v => fsub (fdiv v (Num 100000)) (Num 1)) (last_row2 p)
  /\ length (MonteCarlo.sim_returns (MonteCarlo.analyze_results p)) = ncols p.
Proof.
  split; [reflexivity|].
  cbn [MonteCarlo.analyze_results MonteCarlo.sim_returns].
  unfold last_row2. rewrite !length_map, length_seq. reflexivity.
Qed.

Lemma finite_returns (fs : list R) :
  map (fun v => fsub (fdiv v (Num 100000)) (Num 1)) (map Num fs)
  = map Num (map (fun x => x / 100000 - 1) fs).
Proof.
  rewrite !map_map. apply map_ext. intros x.
  rewrite fdiv_Num by lra. reflexivity.
Qed.

End RiskFacts.

(** ** The estimation on a short panel *)

Module EstimationFacts.
Import NumPy Pandas NumPyFacts StatsFacts.
Local Open Scope R_scope.

(** The only row of a one-day panel is divided by the [NaN] row of the
    shift and dropped. *)
Lemma single_row_log_returns (prices : frame) (r : list npfloat) :
  rows prices = [r] -> length r = length (columns prices) ->
  (0 < length (columns prices))%nat ->
  rows (log_returns prices) = [].
Proof.
  intros Hrows Hlen Hn.
  unfold log_returns, dropna, log_ratio, shift1. rewrite Hrows.
  cbn [rows columns removelast map2 filter].
  destruct r as [|x r]; [cbn in Hlen; lia|].
  destruct (length (columns prices)) as [|n]; [lia|].
  cbn [repeat map2 existsb].
  replace (flog (fdiv x NaN)) with NaN by (destruct x; reflexivity).
  reflexivity.
Qed.

Lemma log_returns_length (prices : frame) :
  (length (rows (log_returns prices)) <= length (rows prices))%nat.
Proof.
  unfold log_returns, dropna, log_ratio. cbn [rows].
  eapply Nat.le_trans; [apply filter_length_le|].
  rewrite map2_length. lia.
Qed.

Lemma mean_of_no_rows (df : frame) :
  rows df = [] -> Forall (fun m => m = NaN) (mean df).
Proof.
  intros Hrows. unfold mean, column. rewrite Hrows.
  apply Forall_map. apply Forall_forall. intros j _. apply np_mean_nil.
Qed.

Lemma cov_of_few_rows (df : frame) :
  (length (rows df) <= 1)%nat ->
  Forall (Forall (fun c => c = NaN)) (cov df).
Proof.
  intros Hrows. unfold cov.
  apply Forall_map. apply Forall_forall. intros i _.
  apply Forall_map. apply Forall_forall. intros j _.
  unfold cov_entry, column. rewrite length_map.
  replace (length (rows df) <=? 1)%nat with true
    by (symmetry; apply Nat.leb_le; exact Hrows).
  reflexivity.
Qed.

(** The statistics of a one-day panel: no exception, and a [NaN] in every
    entry of the mean vector and of the covariance matrix. *)
Lemma statistics_of_single_row (prices : frame)
      (portfolio : list (string * npfloat)) (initial_investment : npfloat)
      (r w : list npfloat) :
  rows prices = [r] -> length r = length (columns prices) ->
  MonteCarlo.weights_of portfolio (columns prices) = inr w ->
  exists s,
    MonteCarlo.calculate_portfolio_statistics prices portfolio
                                              initial_investment = inr s
    /\ length (MonteCarlo.mean_returns s) = length (columns prices)
    /\ Forall (fun m => m = NaN) (MonteCarlo.mean_returns s)
    /\ length (MonteCarlo.cov_matrix s) = length (columns prices)
    /\ Forall (Forall (fun c => c = NaN)) (MonteCarlo.cov_matrix s).
Proof.
  intros Hrows Hlen Hw.
  unfold MonteCarlo.calculate_portfolio_statistics.
  rewrite Hw. unfold bind, iloc_last. rewrite Hrows.
  eexists. split; [reflexivity|].
  cbn [MonteCarlo.mean_returns MonteCarlo.cov_matrix].
  assert (Hfew : (length (rows (log_returns prices)) <= 1)%nat).
  { pose proof (log_returns_length prices) as H. rewrite Hrows in H. exact H. }
  repeat split.
  - rewrite length_map. unfold mean. rewrite length_map, length_seq. reflexivity.
  - apply Forall_map.
    destruct (length (columns prices)) as [|n] eqn:Hn.
    + unfold mean. cbn [columns log_returns dropna log_ratio]. rewrite Hn.
      constructor.
    + eapply Forall_impl; [|apply mean_of_no_rows].
      * intros m ->. reflexivity.
      * apply (single_row_log_returns prices r Hrows); lia.
  - unfold mat_scale, cov. rewrite !length_map, length_seq. reflexivity.
  - unfold mat_scale. apply Forall_map.
    eapply Forall_impl; [|apply cov_of_few_rows; exact Hfew].
    intros row Hrow. apply Forall_map.
    eapply Forall_impl; [|exact Hrow]. intros c ->. reflexivity.
Qed.

End EstimationFacts.

(** * The claims *)

Import NumPy Pandas Factor.
Local Open Scope R_scope.



(** C2.  The factorisation step tries [cholesky] on the covariance; on a
    failure it adds [1e-6] times the identity once and tries once more; a
    second failure is the [LinAlgError] of the step, and there is no third
    attempt.  A run goes on exactly when the step returned: on its error
    both [run_monte_carlo_portfolio] and [run_portfolio_simulation] raise
    it, with the generator untouched. *)
Theorem factorization_retries_once
        (n : nat) (cov0 : list (list npfloat))
        (g : rng) (stats : MonteCarlo.statistics) (prices : frame)
        (weights : list npfloat) (n_sims horizon_days : nat)
        (initial_value : npfloat) :
  factorize n cov0
  = match cholesky cov0 with
    | inr chol => inr (cov0, chol)
    | inl _ =>
        match cholesky (mat_add cov0 (mat_scale (eye n) (Num (1 / 1000000)))) with
        | inr chol =>
            inr (mat_add cov0 (mat_scale (eye n) (Num (1 / 1000000))), chol)
        | inl _ => inl LinAlgError
        end
    end
  /\ match factorize (length (cov (MonteCarlo.returns stats)))
                     (cov (MonteCarlo.returns stats)) with
     | inl e =>
         MonteCarlo.run_monte_carlo_portfolio g stats prices n_sims horizon_days
         = (inl e, g)
     | inr _ =>
         exists batch g',
         MonteCarlo.run_monte_carlo_portfolio g stats prices n_sims horizon_days
         = (inr batch, g')
     end
  /\ match iloc_last prices with
     | inl e =>
         Simulator.run_portfolio_simulation g prices weights n_sims
                                            horizon_days initial_value
         = (inl e, g)
     | inr _ =>
         match factorize (length weights) (cov (log_returns prices)) with
         | inl e =>
             Simulator.run_portfolio_simulation g prices weights n_sims
                                                horizon_days initial_value
             = (inl e, g)
         | inr _ =>
             exists batch g',
             Simulator.run_portfolio_simulation g prices weights n_sims
                                                horizon_days initial_value
             = (inr batch, g')
         end
     end.
Proof.
  repeat split.
  - apply FactorFacts.factorize_eq.
  - destruct (factorize _ _) as [e|[c l]] eqn:Hf.
    + unfold MonteCarlo.run_monte_carlo_portfolio. rewrite Hf. reflexivity.
    + destruct (MonteCarloRun.run_paths g stats prices n_sims horizon_days c l Hf)
        as (paths & individual & Hrun & _).
      exists (paths, individual). eexists. exact Hrun.
  - destruct (iloc_last prices) as [e|last] eqn:Hlast.
    + unfold Simulator.run_portfolio_simulation. rewrite Hlast. reflexivity.
    + destruct (factorize _ _) as [e|[c l]] eqn:Hf.
      * unfold Simulator.run_portfolio_simulation. rewrite Hlast, Hf.
        reflexivity.
      * destruct (RunFacts.run_simulation g prices weights n_sims horizon_days
                    initial_value last c l Hlast Hf) as (res & g' & Hrun & _).
        exists res, g'. exact Hrun.
Qed.




(** C6, as the code has it.  On a non-empty array of returns,
    [display_results] of [portfolio_simulator.py] computes the probability
    of loss as the fraction of returns strictly below zero, a number in
    [0, 1]; [analyze_results] of [portfolio_monte_carlo.py] reports that
    fraction times 100, a percentage in [0, 100]. *)
Theorem probability_of_loss_scale
        (portfolio_paths : ndarray2) (batch : Simulator.simulation) :
  ((0 < ncols portfolio_paths)%nat ->
   let rets :=
     MonteCarlo.sim_returns (MonteCarlo.analyze_results portfolio_paths) in
   MonteCarlo.prob_loss (MonteCarlo.analyze_results portfolio_paths)
   = Num (Loss.loss_fraction rets * 100)
   /\ 0 <= Loss.loss_fraction rets * 100 <= 100)
  /\ (Simulator.sim_returns batch <> [] ->
      Simulator.prob_negative (Simulator.display_results batch)
      = Num (Loss.loss_fraction (Simulator.sim_returns batch))
      /\ 0 <= Loss.loss_fraction (Simulator.sim_returns batch) <= 1).
Proof.
  split.
  - intros Hn rets.
    assert (Hne : rets <> []).
    { intros E. pose proof (proj2 (RiskFacts.analyzed_returns portfolio_paths)) as Hl.
      fold rets in Hl. rewrite E in Hl. cbn in Hl. lia. }
    destruct (RiskFacts.mean_of_loss_mask rets Hne) as [Hm Hb].
    split; [|lra].
    cbn [MonteCarlo.analyze_results MonteCarlo.prob_loss].
    change (map (fun v => fsub (fdiv v (Num 100000)) (Num 1))
                (last_row2 portfolio_paths)) with rets.
    rewrite Hm. reflexivity.
  - intros Hne.
    destruct (RiskFacts.mean_of_loss_mask _ Hne) as [Hm Hb].
    split; [exact Hm|exact Hb].
Qed.

Lemma probability_of_loss_scale_witness :
  (let rets :=
     MonteCarlo.sim_returns (MonteCarlo.analyze_results Sample.halved) in
   MonteCarlo.prob_loss (MonteCarlo.analyze_results Sample.halved)
   = Num (Loss.loss_fraction rets * 100)
   /\ 0 <= Loss.loss_fraction rets * 100 <= 100)
  /\ (Simulator.prob_negative (Simulator.display_results Sample.halved_simulation)
      = Num (Loss.loss_fraction
               (Simulator.sim_returns Sample.halved_simulation))
      /\ 0 <= Loss.loss_fraction
                (Simulator.sim_returns Sample.halved_simulation) <= 1).
Proof.
  destruct (probability_of_loss_scale Sample.halved Sample.halved_simulation)
    as [Hmc Hsim].
  split.
  - apply Hmc. cbn. lia.
  - apply Hsim. cbn. discriminate.
Defined.

(** The one return of the halving path. *)
Lemma halved_return :
  MonteCarlo.sim_returns (MonteCarlo.analyze_results Sample.halved)
  = [Num (50000 / 100000 - 1)].
Proof.
  cbn. destruct (Req_dec_T 100000 0); [lra|]. reflexivity.
Qed.

(** C6 as stated fails for [analyze_results]: the one simulation of the
    halving path is a loss, the fraction of losses is 1, and the reported
    probability of loss is 100. *)
Lemma probability_of_loss_is_a_percentage :
  Loss.loss_fraction
    (MonteCarlo.sim_returns (MonteCarlo.analyze_results Sample.halved)) = 1
  /\ MonteCarlo.prob_loss (MonteCarlo.analyze_results Sample.halved) = Num 100
  /\ MonteCarlo.prob_loss (MonteCarlo.analyze_results Sample.halved)
     <> Num (Loss.loss_fraction
               (MonteCarlo.sim_returns
                  (MonteCarlo.analyze_results Sample.halved))).
Proof.
  assert (Hf : Loss.loss_fraction
                 (MonteCarlo.sim_returns
                    (MonteCarlo.analyze_results Sample.halved)) = 1).
  { rewrite halved_return. unfold Loss.loss_fraction, Loss.loss_count.
    cbn. destruct (Rlt_dec (50000 / 100000 - 1) 0); [|lra]. cbn. lra. }
  assert (Hp : MonteCarlo.prob_loss (MonteCarlo.analyze_results Sample.halved)
               = Num 100).
  { cbn [MonteCarlo.analyze_results MonteCarlo.prob_loss].
    pose proof halved_return as Hr.
    cbn [MonteCarlo.analyze_results MonteCarlo.sim_returns] in Hr.
    rewrite Hr in *.
    destruct (RiskFacts.mean_of_loss_mask [Num (50000 / 100000 - 1)]
                ltac:(discriminate)) as [Hm _].
    rewrite Hm.
    cbn [MonteCarlo.analyze_results MonteCarlo.sim_returns] in Hf.
    rewrite Hr in Hf. rewrite Hf. cbn. f_equal. lra. }
  split; [exact Hf|]. split; [exact Hp|].
  rewrite Hp, Hf. intros H. inversion H. lra.
Qed.

(** C7, as the code has it.  Nothing checks the number of observations.
    On a panel with one observation whose tickers are all in the portfolio,
    [calculate_portfolio_statistics] raises nothing: it returns statistics
    whose mean vector and covariance matrix hold [NaN] in every entry.  On
    a panel without observations the estimation is followed by
    [prices.iloc[-1]], which raises [IndexError], in both scripts. *)
Theorem short_panel_is_not_rejected
        (prices : frame) (portfolio : list (string * npfloat))
        (initial_investment : npfloat) (r w : list npfloat)
        (g : rng) (weights : list npfloat) (n_sims horizon_days : nat)
        (initial_value : npfloat) :
  (rows prices = [r] -> length r = length (columns prices) ->
   MonteCarlo.weights_of portfolio (columns prices) = inr w ->
   exists s,
     MonteCarlo.calculate_portfolio_statistics prices portfolio
                                               initial_investment = inr s
     /\ length (MonteCarlo.mean_returns s) = length (columns prices)
     /\ Forall (fun m => m = NaN) (MonteCarlo.mean_returns s)
     /\ length (MonteCarlo.cov_matrix s) = length (columns prices)
     /\ Forall (Forall (fun c => c = NaN)) (MonteCarlo.cov_matrix s))
  /\ (rows prices = [] ->
      MonteCarlo.weights_of portfolio (columns prices) = inr w ->
      MonteCarlo.calculate_portfolio_statistics prices portfolio
                                                initial_investment
      = inl IndexError)
  /\ (rows prices = [] ->
      Simulator.run_portfolio_simulation g prices weights n_sims horizon_days
                                         initial_value
      = (inl IndexError, g)).
Proof.
  repeat split.
  - apply EstimationFacts.statistics_of_single_row.
  - intros Hrows Hw. unfold MonteCarlo.calculate_portfolio_statistics.
    rewrite Hw. unfold bind, iloc_last. rewrite Hrows. reflexivity.
  - intros Hrows. unfold Simulator.run_portfolio_simulation, iloc_last.
    rewrite Hrows. reflexivity.
Qed.

Lemma short_panel_is_not_rejected_witness :
  (exists s,
     MonteCarlo.calculate_portfolio_statistics
       Sample.single_day Sample.flat_composition (Num 100000) = inr s
     /\ length (MonteCarlo.mean_returns s) = length (columns Sample.single_day)
     /\ Forall (fun m => m = NaN) (MonteCarlo.mean_returns s)
     /\ length (MonteCarlo.cov_matrix s) = length (columns Sample.single_day)
     /\ Forall (Forall (fun c => c = NaN)) (MonteCarlo.cov_matrix s))
  /\ MonteCarlo.calculate_portfolio_statistics
       Sample.no_day Sample.flat_composition (Num 100000) = inl IndexError
  /\ Simulator.run_portfolio_simulation Sample.still Sample.no_day [Num 1]
                                        1 1 (Num 100000)
     = (inl IndexError, Sample.still).
Proof.
  split; [|split].
  - apply (proj1 (short_panel_is_not_rejected
                    Sample.single_day Sample.flat_composition (Num 100000)
                    [Num 100] [Num (100 / 100)]
                    Sample.still [Num 1] 1 1 (Num 100000))).
    + reflexivity.
    + reflexivity.
    + exact SampleFacts.sample_weights.
  - apply (proj1 (proj2 (short_panel_is_not_rejected
                    Sample.no_day Sample.flat_composition (Num 100000)
                    [] [Num (100 / 100)]
                    Sample.still [Num 1] 1 1 (Num 100000)))).
    + reflexivity.
    + exact SampleFacts.sample_weights.
  - apply (proj2 (proj2 (short_panel_is_not_rejected
                    Sample.no_day Sample.flat_composition (Num 100000)
                    [] [Num (100 / 100)]
                    Sample.still [Num 1] 1 1 (Num 100000)))).
    reflexivity.
Defined.

(** C7 as stated fails: a panel with the single price 100 of one ticker
    that makes up the whole portfolio goes through the estimation without
    an exception, and comes out with the mean vector [[NaN]] and the
    covariance matrix [[[NaN]]]. *)
Lemma single_observation_yields_undefined_statistics :
  exists s,
    MonteCarlo.calculate_portfolio_statistics
      Sample.single_day Sample.flat_composition (Num 100000) = inr s
    /\ MonteCarlo.mean_returns s = [NaN]
    /\ MonteCarlo.cov_matrix s = [[NaN]].
Proof.
  unfold MonteCarlo.calculate_portfolio_statistics.
  change (columns Sample.single_day) with ["A"%string].
  rewrite SampleFacts.sample_weights. unfold bind.
  eexists. split; [reflexivity|].
  cbn [MonteCarlo.mean_returns MonteCarlo.cov_matrix].
  assert (Hrows : rows (log_returns Sample.single_day) = []).
  { apply (EstimationFacts.single_row_log_returns _ [Num 100]);
      [reflexivity|reflexivity|cbn; lia]. }
  unfold mean, cov, column, mat_scale, cov_entry. rewrite Hrows.
  cbn [log_returns dropna log_ratio columns Sample.single_day length seq map
       Nat.leb fmul lift2].
  rewrite StatsFacts.np_mean_nil. split; reflexivity.
Qed.

(** C8, as the code has it.  One asset, daily mean zero, daily variance
    zero, weight 1, a strictly positive initial price.  The plain
    factorisation fails on the zero covariance, the single retry replaces
    the variance by [1e-6], and the loops read the replaced variance: the
    terminal value of a simulation is the initial investment times the
    exponential of [sum_t (1e-6 * z_t - 1e-6 / 2)] over its draws [z_t],
    with the initial investment 100000 in [run_monte_carlo_portfolio]. *)
Theorem degenerate_run_follows_the_regularised_variance
        (g : rng) (stats : MonteCarlo.statistics) (prices : frame)
        (n_sims horizon_days : nat) (p0 v0 : R) :
  (mean (MonteCarlo.returns stats) = [Num 0] ->
   cov (MonteCarlo.returns stats) = [[Num 0]] ->
   MonteCarlo.weights stats = [Num 1] ->
   MonteCarlo.latest_prices stats = [Num p0] ->
   0 < p0 ->
   length (columns prices) = 1%nat ->
   exists paths individual g',
     MonteCarlo.run_monte_carlo_portfolio g stats prices n_sims horizon_days
     = (inr (paths, individual), g')
     /\ forall sim, (sim < n_sims)%nat ->
          at2 paths horizon_days sim
          = Num (100000
                 * exp (Degenerate.log_growth
                          (Degenerate.draw g horizon_days sim) horizon_days)))
  /\ (Forall (Forall positive) (rows prices) ->
      mean (log_returns prices) = [Num 0] ->
      cov (log_returns prices) = [[Num 0]] ->
      iloc_last prices = inr [Num p0] ->
      0 < p0 ->
      exists res g',
        Simulator.run_portfolio_simulation g prices [Num 1] n_sims
                                           horizon_days (Num v0)
        = (inr res, g')
        /\ forall sim, (sim < n_sims)%nat ->
             at2 (Simulator.portfolio_paths res) horizon_days sim
             = Num (v0
                    * exp (Degenerate.log_growth
                             (Degenerate.draw g horizon_days sim) horizon_days))).
Proof.
  split.
  - apply DegenerateFacts.monte_carlo_terminal.
  - intros _. apply DegenerateFacts.simulator_terminal.
Qed.

Lemma degenerate_run_follows_the_regularised_variance_witness :
  (exists paths individual g',
     MonteCarlo.run_monte_carlo_portfolio Sample.steady Sample.flat_stats
                                          Sample.flat_prices 1 1
     = (inr (paths, individual), g')
     /\ forall sim, (sim < 1)%nat ->
          at2 paths 1 sim
          = Num (100000
                 * exp (Degenerate.log_growth
                          (Degenerate.draw Sample.steady 1 sim) 1)))
  /\ (exists res g',
        Simulator.run_portfolio_simulation Sample.steady Sample.flat_prices
                                           [Num 1] 1 1 (Num 100000)
        = (inr res, g')
        /\ forall sim, (sim < 1)%nat ->
             at2 (Simulator.portfolio_paths res) 1 sim
             = Num (100000
                    * exp (Degenerate.log_growth
                             (Degenerate.draw Sample.steady 1 sim) 1))).
Proof.
  destruct (degenerate_run_follows_the_regularised_variance
              Sample.steady Sample.flat_stats Sample.flat_prices 1 1 1 100000)
    as [Hmc Hsim].
  split.
  - apply Hmc.
    + exact SampleFacts.flat_mean.
    + exact SampleFacts.flat_cov.
    + reflexivity.
    + reflexivity.
    + lra.
    + reflexivity.
  - apply Hsim.
    + exact SampleFacts.flat_prices_positive.
    + rewrite SampleFacts.flat_log_returns. exact SampleFacts.flat_mean.
    + rewrite SampleFacts.flat_log_returns. exact SampleFacts.flat_cov.
    + reflexivity.
    + lra.
Defined.

(** C8 as stated fails: the flat single-asset sample has daily mean zero,
    daily variance zero, weight 1 and initial price 1, and with a draw of
    zero its one-day simulation ends on [100000 * exp (-1e-6 / 2)], below
    the initial investment. *)
Lemma degenerate_run_leaves_initial_investment :
  mean (MonteCarlo.returns Sample.flat_stats) = [Num 0]
  /\ cov (MonteCarlo.returns Sample.flat_stats) = [[Num 0]]
  /\ MonteCarlo.weights Sample.flat_stats = [Num 1]
  /\ MonteCarlo.latest_prices Sample.flat_stats = [Num 1]
  /\ exists paths individual g',
       MonteCarlo.run_monte_carlo_portfolio Sample.still Sample.flat_stats
                                            Sample.flat_prices 1 1
       = (inr (paths, individual), g')
       /\ at2 paths 1 0 = Num (100000 * exp (0 + (epsilon * 0 - epsilon / 2)))
       /\ at2 paths 1 0 <> Num 100000.
Proof.
  split; [exact SampleFacts.flat_mean|].
  split; [exact SampleFacts.flat_cov|].
  split; [reflexivity|]. split; [reflexivity|].
  destruct (DegenerateFacts.monte_carlo_terminal
              Sample.still Sample.flat_stats Sample.flat_prices 1 1 1
              SampleFacts.flat_mean SampleFacts.flat_cov eq_refl eq_refl
              Rlt_0_1 eq_refl)
    as (paths & individual & g' & Hrun & Hat).
  exists paths, individual, g'. split; [exact Hrun|].
  specialize (Hat 0%nat ltac:(lia)).
  change (at2 paths 1 0 = Num (100000 * exp (0 + (epsilon * 0 - epsilon / 2))))
    in Hat.
  split; [exact Hat|].
  rewrite Hat. intros H. inversion H as [Hv].
  pose proof SampleFacts.epsilon_pos as He.
  assert (Hlt : exp (0 + (epsilon * 0 - epsilon / 2)) < exp 0)
    by (apply exp_increasing; lra).
  rewrite exp_0 in Hlt. lra.
Qed.



(** C10.  In [run_monte_carlo_portfolio], for a run that gets past the
    factorisation with at least one day, the column of every simulation
    with index one hundred or more holds the initial value in row 0, the
    terminal portfolio value in the last row, and the [0.0] of [np.zeros]
    in every row between. *)
Theorem later_paths_hold_endpoints_only
        (g : rng) (stats : MonteCarlo.statistics) (prices : frame)
        (n_sims horizon_days : nat) (daily_cov chol : list (list npfloat))
        (sim : nat) :
  factorize (length (cov (MonteCarlo.returns stats)))
            (cov (MonteCarlo.returns stats)) = inr (daily_cov, chol) ->
  (100 <= sim < n_sims)%nat ->
  (1 <= horizon_days)%nat ->
  exists paths individual g',
    MonteCarlo.run_monte_carlo_portfolio g stats prices n_sims horizon_days
    = (inr (paths, individual), g')
    /\ at2 paths 0 sim = Num 100000
    /\ at2 paths horizon_days sim
       = MonteCarlo.portfolio_value_of
           (MonteCarlo.shares_of stats)
           (MonteCarlo.simulated_prices g stats prices daily_cov chol
                                        horizon_days horizon_days sim)
    /\ forall day, (1 <= day < horizon_days)%nat -> at2 paths day sim = Num 0.
Proof.
  intros Hf [Hlo Hhi] Hh.
  destruct (MonteCarloRun.run_paths g stats prices n_sims horizon_days
                                    daily_cov chol Hf)
    as (paths & individual & Hrun & _ & Hat).
  exists paths, individual. eexists. split; [exact Hrun|].
  assert (Hsim : (sim <? n_sims)%nat = true) by (apply Nat.ltb_lt; lia).
  assert (Hviz : (sim <? 100)%nat = false) by (apply Nat.ltb_ge; lia).
  repeat split.
  - rewrite Hat. cbv zeta. rewrite Hsim, Hviz. cbn [andb].
    destruct (Nat.eqb_spec 0 horizon_days); [lia|reflexivity].
  - rewrite Hat. cbv zeta. rewrite Hsim, Hviz. cbn [andb].
    rewrite Nat.eqb_refl. reflexivity.
  - intros day Hday. rewrite Hat. cbv zeta. rewrite Hsim, Hviz. cbn [andb].
    destruct (Nat.eqb_spec day horizon_days); [lia|].
    destruct (Nat.eqb_spec day 0); [lia|reflexivity].
Qed.

Lemma later_paths_hold_endpoints_only_witness :
  exists paths individual g',
    MonteCarlo.run_monte_carlo_portfolio Sample.still Sample.flat_stats
                                         Sample.flat_prices 101 2
    = (inr (paths, individual), g')
    /\ at2 paths 0 100 = Num 100000
    /\ at2 paths 2 100
       = MonteCarlo.portfolio_value_of
           (MonteCarlo.shares_of Sample.flat_stats)
           (MonteCarlo.simulated_prices Sample.still Sample.flat_stats
              Sample.flat_prices [[Num epsilon]] [[Num (sqrt epsilon)]] 2 2 100)
    /\ forall day, (1 <= day < 2)%nat -> at2 paths day 100 = Num 0.
Proof.
  apply (later_paths_hold_endpoints_only
           Sample.still Sample.flat_stats Sample.flat_prices 101 2
           [[Num epsilon]] [[Num (sqrt epsilon)]] 100).
  - change (MonteCarlo.returns Sample.flat_stats) with Sample.flat_returns.
    rewrite SampleFacts.flat_cov. exact SampleFacts.factorize_zero.
  - lia.
  - lia.
Defined.

(** * Further properties *)

(** ** The console loops *)

Module ConsoleFacts.
Import NumPy NumPyFacts Order StatsFacts Console.
Local Open Scope R_scope.

Lemma rsum_app (xs : list R) (a : R) : rsum (xs ++ [a]) = rsum xs + a.
Proof.
  induction xs as [|x xs IH]; cbn.
  - lra.
  - rewrite IH. lra.
Qed.

Lemma rsum_scale (xs : list R) (c : R) :
  rsum (map (fun a => a * c) xs) = rsum xs * c.
Proof.
  induction xs as [|x xs IH]; cbn.
  - lra.
  - rewrite IH. lra.
Qed.

Lemma rsum_above (xs : list R) (a : R) :
  Forall (fun x => 0 < x) xs -> In a xs -> a <= rsum xs.
Proof.
  induction 1 as [|x xs Hx Hxs IH]; cbn; intros Hin.
  - contradiction.
  - assert (0 <= rsum xs).
    { clear -Hxs. induction Hxs; cbn; lra. }
    destruct Hin as [->|Hin]; [lra|]. specialize (IH Hin). lra.
Qed.

Lemma rsum_nonneg (xs : list R) :
  Forall (fun x => 0 < x) xs -> 0 <= rsum xs.
Proof. induction 1; cbn; lra. Qed.

Lemma rsum_pos (xs : list R) :
  Forall (fun x => 0 < x) xs -> xs <> [] -> 0 < rsum xs.
Proof.
  intros H Hne. destruct H as [|x xs Hx Hxs]; [contradiction|].
  cbn. pose proof (rsum_nonneg xs Hxs). lra.
Qed.

Lemma fadd_nan_r (a : npfloat) : fadd a NaN = NaN.
Proof. destruct a; reflexivity. Qed.

Lemma fdiv_nan_r (a : npfloat) : fdiv a NaN = NaN.
Proof. destruct a; reflexivity. Qed.

Section Weights.
Variable float : string -> option parsed.
Variable upper : string -> string.

(** The loop of [get_portfolio_input] appends to both lists at once. *)
Lemma accept_weight_length (st : list string * list npfloat * npfloat)
      (parts : list string) :
  length (fst (fst st)) = length (snd (fst st)) ->
  length (fst (fst (accept_weight float upper st parts)))
  = length (snd (fst (accept_weight float upper st parts))).
Proof.
  intros Hlen. unfold accept_weight.
  destruct parts as [|name [|text [|more parts]]]; try exact Hlen.
  destruct (float text) as [p|]; [|exact Hlen].
  cbv zeta. destruct (out_of_range p); [exact Hlen|].
  cbn [fst snd]. rewrite !length_app, Hlen. reflexivity.
Qed.

Lemma read_weights_length (lines : list line)
      (st st' : list string * list npfloat * npfloat) :
  read_weights float upper lines st = Some st' ->
  length (fst (fst st)) = length (snd (fst st)) ->
  length (fst (fst st')) = length (snd (fst st')).
Proof.
  revert st. induction lines as [|l lines IH]; intros st Hread Hlen;
    cbn in Hread.
  - discriminate.
  - destruct l as [|parts].
    + inversion Hread; subst st'. exact Hlen.
    + apply (IH _ Hread). apply accept_weight_length. exact Hlen.
Qed.

(** The state of the loop while no nan is typed: the weights are the
    accepted percentages over 100, and the total is their sum. *)
Lemma accept_weight_state (st : list string * list npfloat * npfloat)
      (parts : list string) (accepted : list R) :
  nan_on float (fun s => s) parts = false ->
  snd (fst st) = map (fun a => Num (a / 100)) accepted ->
  snd st = Num (rsum accepted) ->
  Forall (fun a => 0 < a <= 100) accepted ->
  exists accepted',
    let st' := accept_weight float upper st parts in
    snd (fst st') = map (fun a => Num (a / 100)) accepted'
    /\ snd st' = Num (rsum accepted')
    /\ Forall (fun a => 0 < a <= 100) accepted'.
Proof.
  intros Hnan Hw Ht Hall.
  assert (Hsame : exists accepted',
             snd (fst st) = map (fun a => Num (a / 100)) accepted'
             /\ snd st = Num (rsum accepted')
             /\ Forall (fun a => 0 < a <= 100) accepted')
    by (exists accepted; auto).
  unfold accept_weight. unfold nan_on in Hnan.
  destruct parts as [|name [|text [|more parts]]]; try exact Hsame.
  destruct (float text) as [[x| | |]|] eqn:Hf; try exact Hsame;
    [|discriminate].
  cbv zeta. cbn [out_of_range number fleb fltb].
  destruct (Rle_dec x 0); [exact Hsame|].
  destruct (Rlt_dec 100 x); [exact Hsame|].
  cbn [orb]. exists (accepted ++ [x]). cbn [fst snd].
  rewrite Hw, Ht, map_app, rsum_app.
  cbn [map fadd lift2]. rewrite fdiv_Num by lra.
  repeat split.
  apply Forall_app. split; [exact Hall|]. constructor; [lra|constructor].
Qed.

Lemma read_weights_state (lines : list line)
      (st st' : list string * list npfloat * npfloat) (accepted : list R) :
  typed_nan float (fun s => s) lines = false ->
  read_weights float upper lines st = Some st' ->
  snd (fst st) = map (fun a => Num (a / 100)) accepted ->
  snd st = Num (rsum accepted) ->
  Forall (fun a => 0 < a <= 100) accepted ->
  exists accepted',
    snd (fst st') = map (fun a => Num (a / 100)) accepted'
    /\ snd st' = Num (rsum accepted')
    /\ Forall (fun a => 0 < a <= 100) accepted'.
Proof.
  revert st accepted. induction lines as [|l lines IH];
    intros st accepted Hnan Hread Hw Ht Hall; cbn in Hread.
  - discriminate.
  - destruct l as [|parts].
    + inversion Hread; subst st'. exists accepted. auto.
    + cbn [typed_nan] in Hnan. apply orb_false_elim in Hnan as [Hhere Hrest].
      destruct (accept_weight_state st parts accepted Hhere Hw Ht Hall)
        as (acc' & Hw' & Ht' & Hall').
      apply (IH _ acc' Hrest Hread Hw' Ht' Hall').
Qed.

(** Once a nan is among the weights it stays, and the total is nan. *)
Lemma accept_weight_nan (st : list string * list npfloat * npfloat)
      (parts : list string) :
  In NaN (snd (fst st)) -> snd st = NaN ->
  In NaN (snd (fst (accept_weight float upper st parts)))
  /\ snd (accept_weight float upper st parts) = NaN.
Proof.
  intros Hin Ht. unfold accept_weight.
  destruct parts as [|name [|text [|more parts]]]; auto.
  destruct (float text) as [p|]; auto.
  cbv zeta. destruct (out_of_range p); auto.
  cbn [fst snd]. rewrite Ht. split; [|reflexivity].
  apply in_or_app. left. exact Hin.
Qed.

Lemma read_weights_nan (lines : list line)
      (st st' : list string * list npfloat * npfloat) :
  read_weights float upper lines st = Some st' ->
  In NaN (snd (fst st)) -> snd st = NaN ->
  In NaN (snd (fst st')) /\ snd st' = NaN.
Proof.
  revert st. induction lines as [|l lines IH]; intros st Hread Hin Ht;
    cbn in Hread.
  - discriminate.
  - destruct l as [|parts].
    + inversion Hread; subst st'. auto.
    + destruct (accept_weight_nan st parts Hin Ht) as [Hin' Ht'].
      apply (IH _ Hread Hin' Ht').
Qed.

(** A nan passes the range check and is appended. *)
Lemma accept_weight_first_nan (st : list string * list npfloat * npfloat)
      (parts : list string) :
  nan_on float (fun s => s) parts = true ->
  In NaN (snd (fst (accept_weight float upper st parts)))
  /\ snd (accept_weight float upper st parts) = NaN.
Proof.
  unfold nan_on, accept_weight.
  destruct parts as [|name [|text [|more parts]]]; try discriminate.
  destruct (float text) as [[x| | |]|]; try discriminate.
  intros _. cbv zeta. cbn [out_of_range number fst snd].
  split; [|apply fadd_nan_r].
  apply in_or_app. right. left. reflexivity.
Qed.

Lemma read_weights_typed_nan (lines : list line)
      (st st' : list string * list npfloat * npfloat) :
  typed_nan float (fun s => s) lines = true ->
  read_weights float upper lines st = Some st' ->
  In NaN (snd (fst st')) /\ snd st' = NaN.
Proof.
  revert st. induction lines as [|l lines IH]; intros st Hnan Hread;
    cbn in Hread.
  - discriminate.
  - destruct l as [|parts]; [discriminate|].
    cbn [typed_nan] in Hnan.
    destruct (nan_on float (fun s => s) parts) eqn:Hhere.
    + destruct (accept_weight_first_nan st parts Hhere) as [Hin Ht].
      apply (read_weights_nan lines _ _ Hread Hin Ht).
    + cbn [orb] in Hnan. apply (IH _ Hnan Hread).
Qed.

(** What [get_portfolio_input] returns. *)
Lemma collected_weights (lines : list line) (stocks : list string)
      (weights : list npfloat) :
  get_portfolio_input float upper lines = Some (stocks, weights) ->
  length stocks = length weights
  /\ weights <> []
  /\ (typed_nan float (fun s => s) lines = false ->
      exists ws,
        weights = map Num ws
        /\ Forall (fun w => 0 < w <= 1) ws
        /\ 1 - 1 / 10000 <= rsum ws <= 1 + 1 / 10000)
  /\ (typed_nan float (fun s => s) lines = true -> In NaN weights).
Proof.
  unfold get_portfolio_input.
  destruct (read_weights float upper lines ([], [], Num 0))
    as [[[stocks0 weights0] total]|] eqn:Hread; [|discriminate].
  pose proof (read_weights_length lines _ _ Hread eq_refl) as Hlen.
  cbn [fst snd] in Hlen.
  destruct (typed_nan float (fun s => s) lines) eqn:Hnan.
  - destruct (read_weights_typed_nan lines _ _ Hnan Hread) as [Hin Ht].
    cbn [fst snd] in Hin, Ht. subst total.
    destruct stocks0 as [|s0 stocks0].
    + destruct weights0; [contradiction|discriminate].
    + cbn [fsub lift2 fabs fltb]. intros H. inversion H; subst; clear H.
      repeat split; try exact Hlen; try discriminate.
      * intros E. rewrite E in Hin. contradiction.
      * intros _. exact Hin.
  - destruct (read_weights_state lines _ _ [] Hnan Hread eq_refl eq_refl
                (Forall_nil _))
      as (accepted & Hw & Ht & Hall).
    cbn [fst snd] in Hw, Ht. subst weights0 total.
    rewrite length_map in Hlen.
    destruct stocks0 as [|s0 stocks0].
    + intros H. inversion H; subst; clear H.
      repeat split; try discriminate.
      intros _. exists [4 / 10; 3 / 10; 3 / 10]. cbn.
      repeat split; try lra. repeat constructor; lra.
    + assert (Hne : accepted <> []).
      { intros E. subst accepted. cbn in Hlen. discriminate. }
      assert (Hpos : Forall (fun x => 0 < x) accepted).
      { eapply Forall_impl; [|exact Hall]. intros a Ha. cbv beta in Ha. lra. }
      pose proof (rsum_pos accepted Hpos Hne) as Ht.
      cbn [fsub lift2 fabs fltb].
      destruct (Rlt_dec (1 / 100) (Rabs (rsum accepted - 100))) as [Hfar|Hnear];
        intros H; inversion H; subst; clear H.
      * split; [rewrite !length_map; exact Hlen|].
        split; [intros E; apply map_eq_nil, map_eq_nil in E; contradiction|].
        split; [|discriminate]. intros _.
        exists (map (fun a => a * (/ rsum accepted)) accepted).
        repeat split.
        -- destruct (Req_dec_T 100 0); [lra|].
           rewrite !map_map. apply map_ext. intros a.
           rewrite fdiv_Num by lra.
           f_equal. field. lra.
        -- apply Forall_map. apply Forall_forall. intros a Ha.
           pose proof (rsum_above accepted a Hpos Ha) as Hle.
           eapply Forall_forall in Hpos; [|exact Ha]. cbv beta in Hpos.
           assert (Hinv : 0 < / rsum accepted) by (apply Rinv_0_lt_compat; lra).
           split; [apply Rmult_lt_0_compat; lra|].
           apply (Rmult_le_reg_r (rsum accepted)); [lra|].
           rewrite Rmult_assoc, Rinv_l by lra. lra.
        -- rewrite rsum_scale, Rinv_r by lra. lra.
        -- rewrite rsum_scale, Rinv_r by lra. lra.
      * split; [rewrite length_map; exact Hlen|].
        split; [intros E; apply map_eq_nil in E; contradiction|].
        split; [|discriminate]. intros _.
        exists (map (fun a => a * / 100) accepted).
        assert (Hclose : - (1 / 100) <= rsum accepted - 100 <= 1 / 100).
        { unfold Rabs in Hnear.
          destruct (Rcase_abs (rsum accepted - 100)); lra. }
        repeat split.
        -- rewrite map_map. apply map_ext. intros a. reflexivity.
        -- apply Forall_map. eapply Forall_impl; [|exact Hall].
           intros a Ha. cbv beta in Ha. lra.
        -- rewrite rsum_scale. lra.
        -- rewrite rsum_scale. lra.
Qed.
End Weights.

Lemma allocated_of_reals (vs : list (string * R)) :
  allocated (of_reals vs) = Num (rsum (map snd vs)).
Proof.
  unfold allocated, of_reals. rewrite map_map. cbn [snd].
  rewrite <- np_sum_Num, map_map. reflexivity.
Qed.

Lemma dict_set_nonempty (d : list (string * npfloat)) (k : string)
      (v : npfloat) : dict_set d k v <> [].
Proof.
  destruct d as [|[k0 v0] d]; cbn; [discriminate|].
  destruct (String.eqb k0 k); discriminate.
Qed.

(** An assignment to the dict keeps its keys distinct, whatever the
    value. *)
Lemma dict_set_keys (d : list (string * npfloat)) (k : string) (v : npfloat) :
  NoDup (map fst d) ->
  NoDup (map fst (dict_set d k v))
  /\ dict_set d k v <> []
  /\ (forall k', In k' (map fst (dict_set d k v)) ->
                 k' = k \/ In k' (map fst d)).
Proof.
  induction d as [|[k0 v0] d IH]; intros Hnd.
  - cbn. repeat split; try discriminate.
    + constructor; [intros []|constructor].
    + intros k' [H|[]]. left. congruence.
  - inversion Hnd as [|? ? Hk0 Hnd']; subst.
    cbn [dict_set].
    destruct (String.eqb_spec k0 k) as [->|Hne].
    + cbn [map fst]. repeat split; try discriminate.
      * constructor; assumption.
      * intros k' [H|H]; [left; congruence|right; right; exact H].
    + destruct (IH Hnd') as (Hnd2 & _ & Hkeys).
      cbn [map fst]. repeat split; try discriminate.
      * constructor; [|exact Hnd2].
        intros Hin. destruct (Hkeys _ Hin) as [E|Hin']; [congruence|].
        contradiction.
      * intros k' [H|H]; [right; left; exact H|].
        destruct (Hkeys _ H); [left; assumption|right; right; assumption].
Qed.

(** On finite values in range it keeps the values in range; it adds at
    most the new value to the sum, and exactly the new value under a new
    key. *)
Lemma dict_set_of_reals (vs : list (string * R)) (k : string) (v : R) :
  0 < v <= 100 ->
  Forall (fun kv => 0 < snd kv <= 100) vs ->
  NoDup (map fst vs) ->
  exists vs',
    dict_set (of_reals vs) k (Num v) = of_reals vs'
    /\ vs' <> []
    /\ Forall (fun kv => 0 < snd kv <= 100) vs'
    /\ NoDup (map fst vs')
    /\ (forall k', In k' (map fst vs') -> k' = k \/ In k' (map fst vs))
    /\ rsum (map snd vs') <= rsum (map snd vs) + v
    /\ (~ In k (map fst vs) ->
        rsum (map snd vs') = rsum (map snd vs) + v).
Proof.
  intros Hv. induction vs as [|[k0 v0] vs IH]; intros Hall Hnd.
  - exists [(k, v)]. cbn. repeat split; try lra; try discriminate.
    + constructor; [cbn; lra|constructor].
    + constructor; [intros []|constructor].
    + intros k' [H|[]]. left. congruence.
  - inversion Hall as [|? ? Hv0 Hall']; subst. cbn [snd] in Hv0.
    inversion Hnd as [|? ? Hk0 Hnd']; subst.
    cbn [of_reals map dict_set fst snd].
    destruct (String.eqb_spec k0 k) as [->|Hne].
    + exists ((k, v) :: vs). cbn [map fst snd rsum of_reals].
      repeat split; try lra; try discriminate.
      * constructor; [cbn; lra|exact Hall'].
      * constructor; assumption.
      * intros k' [H|H]; [left; congruence|right; right; exact H].
      * intros Hfresh. exfalso. apply Hfresh. left. reflexivity.
    + destruct (IH Hall' Hnd')
        as (vs' & Hset & _ & Hall2 & Hnd2 & Hkeys & Hle & Heq).
      fold (of_reals vs). rewrite Hset.
      exists ((k0, v0) :: vs'). cbn [map fst snd rsum of_reals].
      repeat split; try lra; try discriminate.
      * constructor; [cbn; lra|exact Hall2].
      * constructor; [|exact Hnd2].
        intros Hin. destruct (Hkeys _ Hin) as [E|Hin']; [congruence|].
        contradiction.
      * intros k' [H|H]; [right; left; exact H|].
        destruct (Hkeys _ H); [left; assumption|right; right; assumption].
      * intros Hfresh.
        rewrite Heq; [lra|]. intros Hin. apply Hfresh. right. exact Hin.
Qed.

Section Allocations.
Variable float : string -> option parsed.
Variable upper : string -> string.

(** The keys of the dict of [get_user_portfolio] stay distinct. *)
Lemma accept_allocation_keys (st : list (string * npfloat) * npfloat)
      (parts : list string) :
  NoDup (map fst (fst st)) ->
  NoDup (map fst (fst (accept_allocation float upper st parts))).
Proof.
  intros Hnd. unfold accept_allocation.
  destruct (map upper parts) as [|ticker [|text [|more rest]]]; try exact Hnd.
  destruct (float text) as [p|]; [|exact Hnd].
  cbv zeta. destruct (out_of_range p); [exact Hnd|].
  destruct (fltb _ _); [exact Hnd|].
  cbn [fst]. apply dict_set_keys. exact Hnd.
Qed.

Lemma read_allocations_keys (lines : list line)
      (st st' : list (string * npfloat) * npfloat) :
  read_allocations float upper lines st = Some st' ->
  NoDup (map fst (fst st)) -> NoDup (map fst (fst st')).
Proof.
  revert st. induction lines as [|l lines IH]; intros st Hread Hnd;
    cbn in Hread.
  - discriminate.
  - destruct l as [|parts].
    + inversion Hread; subst st'. exact Hnd.
    + apply (IH _ Hread). apply accept_allocation_keys. exact Hnd.
Qed.

(** One round of the loop while no nan is typed. *)
Lemma accept_allocation_state (vs : list (string * R)) (t : R)
      (parts : list string) :
  nan_on float upper parts = false ->
  Forall (fun kv => 0 < snd kv <= 100) vs ->
  NoDup (map fst vs) ->
  rsum (map snd vs) <= t <= 100 ->
  exists vs' t',
    accept_allocation float upper (of_reals vs, Num t) parts
    = (of_reals vs', Num t')
    /\ Forall (fun kv => 0 < snd kv <= 100) vs'
    /\ NoDup (map fst vs')
    /\ rsum (map snd vs') <= t' <= 100
    /\ (forall k', In k' (map fst vs') ->
                   In k' (map fst vs) \/ In k' (entered upper [Parts parts]))
    /\ ((forall k', In k' (entered upper [Parts parts]) ->
                    ~ In k' (map fst vs)) ->
        rsum (map snd vs) = t -> rsum (map snd vs') = t').
Proof.
  intros Hnan Hall Hnd Ht.
  assert (Hsame : exists vs' t',
             (of_reals vs, Num t) = (of_reals vs', Num t')
             /\ Forall (fun kv => 0 < snd kv <= 100) vs'
             /\ NoDup (map fst vs')
             /\ rsum (map snd vs') <= t' <= 100
             /\ (forall k', In k' (map fst vs') ->
                   In k' (map fst vs) \/ In k' (entered upper [Parts parts]))
             /\ ((forall k', In k' (entered upper [Parts parts]) ->
                             ~ In k' (map fst vs)) ->
                 rsum (map snd vs) = t -> rsum (map snd vs') = t')).
  { exists vs, t. repeat split; auto; lra. }
  unfold accept_allocation. unfold nan_on in Hnan.
  destruct parts as [|name [|text [|more parts]]]; try exact Hsame.
  cbn [map].
  destruct (float (upper text)) as [[x| | |]|] eqn:Hf; try exact Hsame;
    [|discriminate].
  cbv zeta. cbn [out_of_range number fleb fltb fadd lift2 fst snd].
  destruct (Rle_dec x 0); [exact Hsame|].
  destruct (Rlt_dec 100 x); [exact Hsame|].
  cbn [orb].
  destruct (Rlt_dec 100 (t + x)); [exact Hsame|].
  destruct (dict_set_of_reals vs (upper name) x ltac:(lra) Hall Hnd)
    as (vs' & Hset & _ & Hall' & Hnd' & Hkeys & Hle & Heq).
  exists vs', (t + x). rewrite Hset.
  repeat split; auto; try lra.
  - intros k' Hin. destruct (Hkeys _ Hin) as [->|Hin'].
    + right. cbn. left. reflexivity.
    + left. exact Hin'.
  - intros Hfresh Hsum. rewrite Heq; [lra|].
    apply Hfresh. cbn. left. reflexivity.
Qed.

Lemma entered_cons (l : line) (lines : list line) :
  entered upper (l :: lines) = entered upper [l] ++ entered upper lines.
Proof. unfold entered. cbn [flat_map]. rewrite app_nil_r. reflexivity. Qed.

Lemma read_allocations_state (lines : list line) (vs : list (string * R))
      (t : R) (st' : list (string * npfloat) * npfloat) :
  typed_nan float upper lines = false ->
  read_allocations float upper lines (of_reals vs, Num t) = Some st' ->
  Forall (fun kv => 0 < snd kv <= 100) vs ->
  NoDup (map fst vs) ->
  rsum (map snd vs) <= t <= 100 ->
  exists vs' t',
    st' = (of_reals vs', Num t')
    /\ Forall (fun kv => 0 < snd kv <= 100) vs'
    /\ NoDup (map fst vs')
    /\ rsum (map snd vs') <= t' <= 100
    /\ (NoDup (entered upper lines) ->
        (forall k', In k' (entered upper lines) -> ~ In k' (map fst vs)) ->
        rsum (map snd vs) = t -> rsum (map snd vs') = t').
Proof.
  revert vs t. induction lines as [|l lines IH];
    intros vs t Hnan Hread Hall Hnd Ht; cbn [read_allocations] in Hread.
  - discriminate.
  - destruct l as [|parts].
    + inversion Hread; subst st'. exists vs, t. repeat split; auto; lra.
    + cbn [typed_nan] in Hnan. apply orb_false_elim in Hnan as [Hhere Hrest].
      destruct (accept_allocation_state vs t parts Hhere Hall Hnd Ht)
        as (vs1 & t1 & Hacc & Hall1 & Hnd1 & Ht1 & Hkeys1 & Heq1).
      rewrite Hacc in Hread.
      destruct (IH vs1 t1 Hrest Hread Hall1 Hnd1 Ht1)
        as (vs' & t' & Hst & Hall' & Hnd' & Ht' & Heq').
      exists vs', t'. repeat split; auto; try lra.
      intros Hdistinct Hfresh Hsum.
      rewrite entered_cons in Hdistinct, Hfresh.
      apply NoDup_app_remove_l in Hdistinct as Hrest'.
      apply Heq'; [exact Hrest'| |].
      * intros k' Hin Hkey. destruct (Hkeys1 _ Hkey) as [Hold|Hnew].
        -- apply (Hfresh k'); [apply in_or_app; right; exact Hin|exact Hold].
        -- clear -Hdistinct Hin Hnew.
           induction (entered upper [Parts parts]) as [|e es IHes].
           ++ contradiction.
           ++ cbn in Hdistinct. inversion Hdistinct as [|? ? Hnotin Hd']; subst.
              destruct Hnew as [->|Hnew].
              ** apply Hnotin. apply in_or_app. right. exact Hin.
              ** apply IHes; assumption.
      * apply Heq1; [|exact Hsum].
        intros k' Hin. apply Hfresh. apply in_or_app. left. exact Hin.
Qed.

(** Once the total is nan it stays nan, and every later number in range
    is accepted. *)
Lemma accept_allocation_nan (st : list (string * npfloat) * npfloat)
      (parts : list string) :
  snd st = NaN -> fst st <> [] ->
  snd (accept_allocation float upper st parts) = NaN
  /\ fst (accept_allocation float upper st parts) <> [].
Proof.
  intros Ht Hne. unfold accept_allocation.
  destruct (map upper parts) as [|ticker [|text [|more rest]]]; auto.
  destruct (float text) as [p|]; auto.
  cbv zeta. destruct (out_of_range p); auto.
  rewrite Ht. cbn [fadd lift2 fltb fst snd].
  split; [reflexivity|]. apply (dict_set_nonempty).
Qed.

Lemma read_allocations_nan (lines : list line)
      (st st' : list (string * npfloat) * npfloat) :
  read_allocations float upper lines st = Some st' ->
  snd st = NaN -> fst st <> [] ->
  snd st' = NaN /\ fst st' <> [].
Proof.
  revert st. induction lines as [|l lines IH]; intros st Hread Ht Hne;
    cbn in Hread.
  - discriminate.
  - destruct l as [|parts].
    + inversion Hread; subst st'. auto.
    + destruct (accept_allocation_nan st parts Ht Hne) as [Ht' Hne'].
      apply (IH _ Hread Ht' Hne').
Qed.

(** A nan passes both checks of the loop. *)
Lemma accept_allocation_first_nan (st : list (string * npfloat) * npfloat)
      (parts : list string) :
  nan_on float upper parts = true ->
  snd (accept_allocation float upper st parts) = NaN
  /\ fst (accept_allocation float upper st parts) <> [].
Proof.
  unfold nan_on, accept_allocation.
  destruct parts as [|name [|text [|more parts]]]; try discriminate.
  cbn [map].
  destruct (float (upper text)) as [[x| | |]|]; try discriminate.
  intros _. cbv zeta. cbn [out_of_range number].
  rewrite fadd_nan_r. cbn [fltb fst snd].
  replace (fltb (Num 100) NaN) with false by reflexivity.
  cbn [fst snd]. split; [reflexivity|]. apply (dict_set_nonempty).
Qed.

Lemma read_allocations_typed_nan (lines : list line)
      (st st' : list (string * npfloat) * npfloat) :
  typed_nan float upper lines = true ->
  read_allocations float upper lines st = Some st' ->
  snd st' = NaN /\ fst st' <> [].
Proof.
  revert st. induction lines as [|l lines IH]; intros st Hnan Hread;
    cbn in Hread.
  - discriminate.
  - destruct l as [|parts]; [discriminate|].
    cbn [typed_nan] in Hnan.
    destruct (nan_on float upper parts) eqn:Hhere.
    + destruct (accept_allocation_first_nan st parts Hhere) as [Ht Hne].
      apply (read_allocations_nan lines _ _ Hread Ht Hne).
    + cbn [orb] in Hnan. apply (IH _ Hnan Hread).
Qed.

(** What [get_user_portfolio] returns. *)
Lemma collected_allocations (lines : list line)
      (portfolio : list (string * npfloat)) :
  get_user_portfolio float upper lines = Some portfolio ->
  portfolio <> []
  /\ NoDup (map fst portfolio)
  /\ (typed_nan float upper lines = false ->
      exists vs,
        portfolio = of_reals vs
        /\ Forall (fun kv => 0 < snd kv <= 100) vs
        /\ rsum (map snd vs) <= 100
        /\ (NoDup (entered upper lines) -> rsum (map snd vs) = 100))
  /\ (typed_nan float upper lines = true ->
      Forall (fun kv => snd kv = NaN) portfolio).
Proof.
  unfold get_user_portfolio.
  destruct (read_allocations float upper lines ([], Num 0))
    as [[entered_dict total]|] eqn:Hread; [|discriminate].
  destruct (typed_nan float upper lines) eqn:Hnan.
  - destruct (read_allocations_typed_nan lines _ _ Hnan Hread) as [Ht Hne].
    pose proof (read_allocations_keys lines _ _ Hread (NoDup_nil _)) as Hnd.
    cbn [fst snd] in Ht, Hne, Hnd. subst total.
    destruct entered_dict as [|kv d]; [contradiction|].
    cbn [feqb negb]. intros H. inversion H; subst; clear H.
    repeat split; try discriminate.
    + cbn [map fst] in *. rewrite map_map. cbn [fst]. exact Hnd.
    + intros _.
      change (Forall (fun kv => snd kv = NaN)
                     (map (fun kv0 : string * npfloat =>
                             (fst kv0, fmul (fdiv (snd kv0) NaN) (Num 100)))
                          (kv :: d))).
      apply Forall_map, Forall_forall. intros [k v] _.
      cbn [snd]. rewrite fdiv_nan_r. reflexivity.
  - destruct (read_allocations_state lines [] 0 _ Hnan Hread (Forall_nil _)
                (NoDup_nil _) ltac:(cbn; lra))
      as (vs & t & Hst & Hall & Hnd & Ht & Heq).
    inversion Hst; subst entered_dict total; clear Hst.
    assert (Hfinite : forall ws : list (string * R),
               ws <> [] -> NoDup (map fst ws) ->
               of_reals ws <> [] /\ NoDup (map fst (of_reals ws))).
    { intros ws Hws Hndw. split.
      - destruct ws; [contradiction|discriminate].
      - unfold of_reals. rewrite map_map. cbn [fst]. exact Hndw. }
    destruct vs as [|kv vs].
    + cbn [of_reals map feqb].
      destruct (Req_dec_T 100 100); [|lra]. cbn [negb].
      intros H. inversion H; subst; clear H.
      repeat split; try discriminate.
      * repeat constructor; cbn; intuition; discriminate.
      * intros _.
        exists [("AAPL"%string, 40); ("MSFT"%string, 30); ("GOOGL"%string, 30)].
        cbn. repeat split; try lra.
        repeat constructor; cbn; lra.
    + change (match of_reals (kv :: vs) with
              | [] => (default_portfolio, Num 100)
              | _ :: _ => (of_reals (kv :: vs), Num t)
              end) with (of_reals (kv :: vs), Num t).
      assert (Hne : kv :: vs <> []) by discriminate.
      remember (kv :: vs) as ws eqn:Hws. clear Hws kv vs.
      assert (Hpos : Forall (fun x => 0 < x) (map snd ws)).
      { apply Forall_map. eapply Forall_impl; [|exact Hall].
        intros a Ha. cbv beta in Ha. lra. }
      assert (Hsum : 0 < rsum (map snd ws)).
      { apply rsum_pos; [exact Hpos|].
        destruct ws; [contradiction|discriminate]. }
      cbn [feqb]. destruct (Req_dec_T t 100) as [->|Hnorm]; cbn [negb].
      * intros H. inversion H; subst; clear H.
        destruct (Hfinite ws Hne Hnd) as [Hne' Hnd'].
        split; [exact Hne'|]. split; [exact Hnd'|].
        split; [|discriminate]. intros _.
        exists ws. repeat split; auto; lra.
      * intros H. inversion H; subst; clear H.
        assert (Ht0 : 0 < t) by lra.
        assert (Hnormal :
                  map (fun kv => (fst kv,
                                  fmul (fdiv (snd kv) (Num t)) (Num 100)))
                      (of_reals ws)
                  = of_reals (map (fun kv => (fst kv, snd kv * (100 / t))) ws)).
        { unfold of_reals. rewrite !map_map. apply map_ext. intros [k v].
          cbn [fst snd]. rewrite fdiv_Num by lra. cbn. do 2 f_equal.
          field. lra. }
        rewrite Hnormal.
        assert (Hnd2 : NoDup (map fst (map (fun kv => (fst kv, snd kv * (100 / t)))
                                           ws))).
        { rewrite map_map. cbn [fst]. exact Hnd. }
        assert (Hne2 : map (fun kv => (fst kv, snd kv * (100 / t))) ws <> []).
        { intros E. apply map_eq_nil in E. contradiction. }
        destruct (Hfinite _ Hne2 Hnd2) as [Hne' Hnd'].
        split; [exact Hne'|]. split; [exact Hnd'|].
        split; [|discriminate]. intros _.
        exists (map (fun kv => (fst kv, snd kv * (100 / t))) ws).
        repeat split.
        -- apply Forall_map. apply Forall_forall. intros [k v] Hin.
           cbn [fst snd].
           assert (Hv : 0 < v <= 100).
           { eapply Forall_forall in Hall; [|exact Hin]. exact Hall. }
           assert (Hle : v <= rsum (map snd ws)).
           { apply rsum_above; [exact Hpos|].
             apply (in_map snd) in Hin. exact Hin. }
           assert (Hq : 0 < 100 / t) by (apply Rdiv_lt_0_compat; lra).
           split; [apply Rmult_lt_0_compat; lra|].
           assert (v * (100 / t) <= t * (100 / t))
             by (apply Rmult_le_compat_r; lra).
           replace (t * (100 / t)) with 100 in * by (field; lra). lra.
        -- rewrite map_map. cbn [snd].
           rewrite <- (map_map snd (fun v => v * (100 / t))), rsum_scale.
           assert (Hq : 0 < 100 / t) by (apply Rdiv_lt_0_compat; lra).
           assert (rsum (map snd ws) * (100 / t) <= t * (100 / t))
             by (apply Rmult_le_compat_r; lra).
           replace (t * (100 / t)) with 100 in * by (field; lra). lra.
        -- intros Hdistinct.
           rewrite map_map. cbn [snd].
           rewrite <- (map_map snd (fun v => v * (100 / t))), rsum_scale.
           rewrite (Heq Hdistinct); [field; lra| |reflexivity].
           intros k' _ [].
Qed.
End Allocations.

End ConsoleFacts.

Import Console.

Lemma sample_weights_collected :
  get_portfolio_input sample_float (fun s => s) sample_lines
  = Some (["AAPL"%string; "MSFT"%string], [Num (40 / 100); Num (60 / 100)]).
Proof.
  unfold get_portfolio_input, sample_lines.
  cbn [read_weights accept_weight sample_float String.eqb Ascii.eqb Bool.eqb
       out_of_range number fst snd app fleb fltb fadd lift2 orb].
  destruct (Rle_dec 40 0); [lra|]. destruct (Rlt_dec 100 40); [lra|].
  cbn [read_weights accept_weight sample_float String.eqb Ascii.eqb Bool.eqb
       out_of_range number fst snd app fleb fltb fadd lift2 orb].
  destruct (Rle_dec 60 0); [lra|]. destruct (Rlt_dec 100 60); [lra|].
  cbn [read_weights accept_weight sample_float String.eqb Ascii.eqb Bool.eqb
       out_of_range number fst snd app fleb fltb fadd fsub fabs lift2 orb].
  replace (0 + 40 + 60 - 100) with 0 by lra. rewrite Rabs_R0.
  destruct (Rlt_dec (1 / 100) 0); [lra|].
  rewrite !NumPyFacts.fdiv_Num by lra. reflexivity.
Qed.

Lemma sample_allocations_collected :
  get_user_portfolio sample_float (fun s => s) sample_lines
  = Some [("AAPL"%string, Num 40); ("MSFT"%string, Num 60)].
Proof.
  unfold get_user_portfolio, sample_lines.
  cbn [read_allocations accept_allocation sample_float String.eqb Ascii.eqb
       Bool.eqb out_of_range number map fst snd fleb fltb fadd lift2 orb
       dict_set].
  destruct (Rle_dec 40 0); [lra|]. destruct (Rlt_dec 100 40); [lra|].
  cbn [orb]. destruct (Rlt_dec 100 (0 + 40)); [lra|].
  cbn [read_allocations accept_allocation sample_float String.eqb Ascii.eqb
       Bool.eqb out_of_range number map fst snd fleb fltb fadd lift2 orb
       dict_set].
  destruct (Rle_dec 60 0); [lra|]. destruct (Rlt_dec 100 60); [lra|].
  cbn [orb]. destruct (Rlt_dec 100 (0 + 40 + 60)); [lra|].
  cbn [read_allocations accept_allocation sample_float String.eqb Ascii.eqb
       Bool.eqb out_of_range number map fst snd fleb fltb fadd lift2 orb
       dict_set feqb].
  destruct (Req_dec_T (0 + 40 + 60) 100); [|lra]. reflexivity.
Qed.

(** A nan on the console: [get_portfolio_input] returns it as a weight
    beside the finite one, not normalised; [get_user_portfolio] normalises
    by the nan total and returns nan for every ticker. *)
Lemma nan_weight_is_returned :
  get_portfolio_input sample_float (fun s => s) nan_lines
  = Some (["AAPL"%string; "MSFT"%string], [Num (40 / 100); NaN]).
Proof.
  unfold get_portfolio_input, nan_lines.
  cbn [read_weights accept_weight sample_float String.eqb Ascii.eqb Bool.eqb
       out_of_range number fst snd app fleb fltb fadd lift2 orb].
  destruct (Rle_dec 40 0); [lra|]. destruct (Rlt_dec 100 40); [lra|].
  cbn [read_weights accept_weight sample_float String.eqb Ascii.eqb Bool.eqb
       out_of_range number fst snd app fleb fltb fadd fsub fabs fdiv lift2
       orb].
  destruct (Req_dec_T 100 0); [lra|]. reflexivity.
Qed.

Lemma nan_allocation_spreads :
  get_user_portfolio sample_float (fun s => s) nan_lines
  = Some [("AAPL"%string, NaN); ("MSFT"%string, NaN)].
Proof.
  unfold get_user_portfolio, nan_lines.
  cbn [read_allocations accept_allocation sample_float String.eqb Ascii.eqb
       Bool.eqb out_of_range number map fst snd fleb fltb fadd lift2 orb
       dict_set].
  destruct (Rle_dec 40 0); [lra|]. destruct (Rlt_dec 100 40); [lra|].
  cbn [orb]. destruct (Rlt_dec 100 (0 + 40)); [lra|].
  cbn [read_allocations accept_allocation sample_float String.eqb Ascii.eqb
       Bool.eqb out_of_range number map fst snd fleb fltb fadd fmul fdiv
       lift2 orb dict_set feqb negb].
  reflexivity.
Qed.





(** ** The estimation *)

Module ReturnsFacts.
Import NumPy NumPyFacts Order StatsFacts Pandas Returns.
Local Open Scope R_scope.

Lemma nth_map_Num (r : list R) (j : nat) :
  (j < length r)%nat -> nth j (map Num r) NaN = Num (nth j r 0).
Proof.
  revert j. induction r as [|x r IH]; intros [|j] Hj; cbn in *; try lia.
  - reflexivity.
  - apply IH. lia.
Qed.

(** A column of a table of finite rows. *)
Lemma column_of_reals (df : frame) (rs : list (list R)) (j : nat) :
  rows df = map (map Num) rs ->
  Forall (fun r => (j < length r)%nat) rs ->
  column j df = map Num (map (fun r => nth j r 0) rs).
Proof.
  intros Hrows Hlen. unfold column. rewrite Hrows, !map_map.
  apply map_ext_in. intros r Hr.
  eapply Forall_forall in Hlen; [|exact Hr]. apply nth_map_Num. exact Hlen.
Qed.

Lemma nth_mean (df : frame) (j : nat) :
  (j < length (columns df))%nat ->
  nth j (mean df) NaN = np_mean (column j df).
Proof.
  intros Hj. unfold mean.
  rewrite (nth_indep _ NaN (np_mean (column 0 df)))
    by (rewrite length_map, length_seq; exact Hj).
  rewrite (map_nth (fun j => np_mean (column j df)) (seq 0 _) 0%nat).
  rewrite seq_nth by exact Hj. reflexivity.
Qed.

Lemma nth_cov (df : frame) (i j : nat) :
  (i < length (columns df))%nat -> (j < length (columns df))%nat ->
  nth j (nth i (cov df) []) NaN = cov_entry (column i df) (column j df).
Proof.
  intros Hi Hj. unfold cov.
  set (row := fun i => map (fun j => cov_entry (column i df) (column j df))
                           (seq 0 (length (columns df)))).
  rewrite (nth_indep _ [] (row 0%nat))
    by (rewrite length_map, length_seq; exact Hi).
  rewrite (map_nth row (seq 0 _) 0%nat), seq_nth by exact Hi.
  unfold row.
  rewrite (nth_indep _ NaN (cov_entry (column (0 + i) df) (column 0 df)))
    by (rewrite length_map, length_seq; exact Hj).
  rewrite (map_nth (fun j => cov_entry (column (0 + i) df) (column j df))
                   (seq 0 _) 0%nat), seq_nth by exact Hj.
  reflexivity.
Qed.

(** The rows that a shift pairs: the first with the [NaN] row, every other
    with the row before it. *)
Lemma map2_shifted {A B} (g : A -> A -> B) (a x : A) (xs : list A) :
  map2 g (x :: xs) (a :: removelast (x :: xs))
  = g x a :: (fix pairs (prev : A) (l : list A) : list B :=
                match l with
                | [] => []
                | y :: l' => g y prev :: pairs y l'
                end) x xs.
Proof.
  revert a x. induction xs as [|y xs IH]; intros a x.
  - reflexivity.
  - change (removelast (x :: y :: xs)) with (x :: removelast (y :: xs)).
    cbn [map2]. f_equal. apply IH.
Qed.

Lemma log_ratio_of_reals (r prev : list R) :
  Forall (fun x => 0 < x) r -> Forall (fun x => 0 < x) prev ->
  map2 (fun x y => flog (fdiv x y)) (map Num r) (map Num prev)
  = map Num (map2 (fun x y => ln (x / y)) r prev).
Proof.
  intros Hr. revert prev. induction Hr as [|x r Hx _ IH]; intros prev Hprev.
  - reflexivity.
  - destruct Hprev as [|y prev Hy Hprev]; [reflexivity|].
    cbn [map map2]. rewrite IH by exact Hprev. f_equal.
    rewrite fdiv_Num by lra. cbn.
    destruct (Rlt_dec 0 (x / y)) as [|Hn]; [reflexivity|].
    exfalso. apply Hn. apply Rdiv_lt_0_compat; assumption.
Qed.

Lemma no_nan_in_reals (r : list R) : existsb isnan (map Num r) = false.
Proof. induction r as [|x r IH]; cbn; auto. Qed.

(** The log returns of a table of positive prices. *)
Lemma log_returns_of_reals (prices : frame) (first : list R)
      (rest : list (list R)) :
  rows prices = map (map Num) (first :: rest) ->
  (0 < length (columns prices))%nat ->
  Forall (fun r => length r = length (columns prices)
                   /\ Forall (fun x => 0 < x) r) (first :: rest) ->
  rows (log_returns prices) = map (map Num) (log_changes first rest).
Proof.
  intros Hrows Hn Hall.
  unfold log_returns, dropna, log_ratio, shift1. rewrite Hrows.
  cbn [rows columns map].
  change (map Num first :: map (map Num) rest)
    with (map (map Num) (first :: rest)).
  cbn [map]. rewrite map2_shifted. cbn [filter].
  inversion Hall as [|? ? [Hlen Hpos] Hrest]; subst.
  assert (Hfirst : existsb isnan
                     (map2 (fun x y => flog (fdiv x y)) (map Num first)
                           (repeat NaN (length (columns prices)))) = true).
  { destruct first as [|x first]; [cbn in Hlen; lia|].
    destruct (length (columns prices)) as [|n]; [lia|].
    cbn. reflexivity. }
  rewrite Hfirst. cbn [negb].
  clear Hfirst Hrows Hall Hlen.
  revert first Hpos. induction Hrest as [|r rest [Hlen Hr] _ IH];
    intros prev Hprev.
  - reflexivity.
  - cbn [map log_changes filter].
    rewrite log_ratio_of_reals by assumption.
    rewrite no_nan_in_reals. cbn [negb]. f_equal. apply IH. exact Hr.
Qed.

Lemma log_changes_length (prev : list R) (rest : list (list R)) :
  length (log_changes prev rest) = length rest.
Proof.
  revert prev. induction rest as [|r rest IH]; intros prev; cbn; auto.
Qed.

Lemma log_changes_rows (prev : list R) (rest : list (list R)) (n : nat) :
  length prev = n -> Forall (fun r => length r = n) rest ->
  Forall (fun r => length r = n) (log_changes prev rest).
Proof.
  intros Hprev Hrest. revert prev Hprev.
  induction Hrest as [|r rest Hr _ IH]; intros prev Hprev; cbn.
  - constructor.
  - constructor; [rewrite map2_length; lia|apply IH; exact Hr].
Qed.

Lemma nth_map2 {A B C} (f : A -> B -> C) (xs : list A) (ys : list B)
      (j : nat) (a : A) (b : B) (c : C) :
  (j < length xs)%nat -> (j < length ys)%nat ->
  nth j (map2 f xs ys) c = f (nth j xs a) (nth j ys b).
Proof.
  revert ys j. induction xs as [|x xs IH]; intros [|y ys] [|j] Hx Hy;
    cbn in *; try lia.
  - reflexivity.
  - apply IH; lia.
Qed.

Lemma ln_quotient (x y : R) : 0 < x -> 0 < y -> ln (x / y) = ln x - ln y.
Proof.
  intros Hx Hy. unfold Rdiv.
  rewrite ln_mult by (try apply Rinv_0_lt_compat; assumption).
  rewrite ln_Rinv by assumption. lra.
Qed.

Lemma Forall_last {A} (P : A -> Prop) (l : list A) (d : A) :
  Forall P l -> P d -> P (last l d).
Proof.
  induction 1 as [|x l Hx Hl IH]; intros Hd; [exact Hd|].
  cbn [last]. destruct l; [exact Hx|]. apply IH. exact Hd.
Qed.

Lemma last_cons {A} (x : A) (l : list A) (d : A) :
  last (x :: l) d = last l x.
Proof.
  revert x d. induction l as [|y l IH]; intros x d; [reflexivity|].
  change (last (x :: y :: l) d) with (last (y :: l) d).
  rewrite !IH. reflexivity.
Qed.

(** The log returns of a column add up to the log of last over first. *)
Lemma log_changes_telescope (prev : list R) (rest : list (list R)) (j : nat) :
  (j < length prev)%nat -> Forall (fun x => 0 < x) prev ->
  Forall (fun r => (j < length r)%nat /\ Forall (fun x => 0 < x) r) rest ->
  rsum (map (fun r => nth j r 0) (log_changes prev rest))
  = ln (nth j (last rest prev) 0 / nth j prev 0).
Proof.
  intros Hj Hprev Hrest. revert prev Hj Hprev.
  induction Hrest as [|r rest [Hjr Hr] Hrest IH]; intros prev Hj Hprev.
  - cbn. rewrite Rdiv_diag; [symmetry; apply ln_1|].
    assert (0 < nth j prev 0)
      by (eapply Forall_forall; [exact Hprev|apply nth_In; exact Hj]).
    lra.
  - cbn [log_changes map rsum].
    rewrite (nth_map2 _ r prev j 0 0 0) by assumption.
    rewrite IH by assumption.
    assert (Hp : 0 < nth j prev 0)
      by (eapply Forall_forall; [exact Hprev|apply nth_In; exact Hj]).
    assert (Hc : 0 < nth j r 0)
      by (eapply Forall_forall; [exact Hr|apply nth_In; exact Hjr]).
    assert (Hl : 0 < nth j (last rest r) 0).
    { apply (Forall_last (fun r => 0 < nth j r 0)); [|exact Hc].
      eapply Forall_impl; [|exact Hrest]. intros r' [Hj' Hr'].
      eapply Forall_forall; [exact Hr'|apply nth_In; exact Hj']. }
    rewrite last_cons.
    rewrite !ln_quotient by assumption. lra.
Qed.

End ReturnsFacts.

(** X3.  On a panel of strictly positive prices with at least two
    observations, [np.log(prices / prices.shift(1)).dropna()] has one row
    fewer than the panel and only finite entries, and the daily mean return
    of a column is the log of its last price over its first price, divided
    by the number of returns: the prices between do not enter the
    drift. *)
Theorem daily_mean_telescopes
        (prices : frame) (first : list R) (rest : list (list R)) (j : nat) :
  rows prices = map (map Num) (first :: rest) ->
  rest <> [] ->
  Forall (fun r => length r = length (columns prices)
                   /\ Forall (fun x => 0 < x) r) (first :: rest) ->
  (j < length (columns prices))%nat ->
  length (rows (log_returns prices)) = length rest
  /\ Forall (Forall finite) (rows (log_returns prices))
  /\ nth j (mean (log_returns prices)) NaN
     = Num (ln (nth j (last rest first) 0 / nth j first 0)
            / INR (length rest)).
Proof.
  intros Hrows Hrest Hall Hj.
  assert (Hn : (0 < length (columns prices))%nat) by lia.
  pose proof (ReturnsFacts.log_returns_of_reals prices first rest Hrows Hn Hall)
    as Hlr.
  inversion Hall as [|? ? [Hlen Hpos] Hall']; subst.
  assert (Hshape : Forall (fun r => length r = length (columns prices))
                          (Returns.log_changes first rest)).
  { apply ReturnsFacts.log_changes_rows; [exact Hlen|].
    eapply Forall_impl; [|exact Hall']. intros r [H _]. exact H. }
  repeat split.
  - rewrite Hlr, length_map. apply ReturnsFacts.log_changes_length.
  - rewrite Hlr. apply Forall_map. apply Forall_forall. intros r _.
    apply Forall_map. apply Forall_forall. intros x _. eexists. reflexivity.
  - rewrite ReturnsFacts.nth_mean by exact Hj.
    rewrite (ReturnsFacts.column_of_reals _ (Returns.log_changes first rest) j Hlr).
    + rewrite StatsFacts.np_mean_Num.
      * rewrite length_map, ReturnsFacts.log_changes_length.
        rewrite ReturnsFacts.log_changes_telescope; [reflexivity|lia|exact Hpos|].
        eapply Forall_impl; [|exact Hall']. intros r [Hl Hp]. split; [lia|exact Hp].
      * intros E. apply (f_equal (@length R)) in E.
        rewrite length_map, ReturnsFacts.log_changes_length in E.
        destruct rest; [contradiction|discriminate].
    + eapply Forall_impl; [|exact Hshape]. intros r Hr. cbv beta in Hr. lia.
Qed.

Lemma daily_mean_telescopes_witness :
  length (rows (log_returns Sample.flat_prices)) = length [[1]; [1]]
  /\ Forall (Forall finite) (rows (log_returns Sample.flat_prices))
  /\ nth 0 (mean (log_returns Sample.flat_prices)) NaN
     = Num (ln (nth 0 (last [[1]; [1]] [1]) 0 / nth 0 [1] 0)
            / INR (length [[1]; [1]])).
Proof.
  apply (daily_mean_telescopes Sample.flat_prices [1] [[1]; [1]] 0).
  - reflexivity.
  - discriminate.
  - repeat constructor; lra.
  - cbn. lia.
Defined.

Module StatisticsFacts.
Import NumPy Pandas MonteCarlo.

Lemma lookup_found (portfolio : list (string * npfloat)) (t : string) :
  In t (map fst portfolio) -> exists v, lookup portfolio t = inr v.
Proof.
  induction portfolio as [|[k v] portfolio IH]; cbn; intros Hin.
  - contradiction.
  - destruct (String.eqb_spec k t) as [->|Hne].
    + exists v. reflexivity.
    + destruct Hin as [E|Hin]; [contradiction|]. apply IH. exact Hin.
Qed.

Lemma lookup_missing (portfolio : list (string * npfloat)) (t : string) :
  ~ In t (map fst portfolio) -> lookup portfolio t = inl KeyError.
Proof.
  induction portfolio as [|[k v] portfolio IH]; cbn; intros Hout.
  - reflexivity.
  - destruct (String.eqb_spec k t) as [->|Hne].
    + exfalso. apply Hout. left. reflexivity.
    + apply IH. intros Hin. apply Hout. right. exact Hin.
Qed.

Lemma weights_of_found (portfolio : list (string * npfloat))
      (tickers : list string) :
  Forall (fun t => In t (map fst portfolio)) tickers ->
  exists ws, weights_of portfolio tickers = inr ws
             /\ length ws = length tickers.
Proof.
  induction 1 as [|t tickers Ht _ [ws [Hws Hlen]]]; cbn.
  - exists []. split; reflexivity.
  - destruct (lookup_found portfolio t Ht) as [v Hv]. rewrite Hv, Hws. cbn.
    eexists. split; [reflexivity|]. cbn. rewrite Hlen. reflexivity.
Qed.

Lemma weights_of_missing (portfolio : list (string * npfloat))
      (tickers : list string) :
  Exists (fun t => ~ In t (map fst portfolio)) tickers ->
  weights_of portfolio tickers = inl KeyError.
Proof.
  induction 1 as [t tickers Ht|t tickers _ IH]; cbn.
  - rewrite (lookup_missing portfolio t Ht). reflexivity.
  - rewrite IH. unfold bind.
    destruct (lookup portfolio t) as [e|v] eqn:Hl; [|reflexivity].
    destruct (in_dec string_dec t (map fst portfolio)) as [Hin|Hout].
    + destruct (lookup_found portfolio t Hin) as [v Hv]. congruence.
    + rewrite (lookup_missing portfolio t Hout) in Hl. congruence.
Qed.

End StatisticsFacts.

(** X4.  The exceptions of [calculate_portfolio_statistics].  A ticker of
    the panel that is no key of the portfolio dict raises [KeyError],
    whatever the panel holds; with every ticker a key, a panel without
    rows raises [IndexError]; in every other case the function returns,
    with one weight per column, the log returns of the panel and its last
    row as the latest prices. *)
Theorem statistics_exceptions
        (prices : frame) (portfolio : list (string * npfloat))
        (initial_investment : npfloat) :
  (Exists (fun t => ~ In t (map fst portfolio)) (columns prices) ->
   MonteCarlo.calculate_portfolio_statistics prices portfolio
                                             initial_investment
   = inl KeyError)
  /\ (Forall (fun t => In t (map fst portfolio)) (columns prices) ->
      rows prices = [] ->
      MonteCarlo.calculate_portfolio_statistics prices portfolio
                                                initial_investment
      = inl IndexError)
  /\ (Forall (fun t => In t (map fst portfolio)) (columns prices) ->
      rows prices <> [] ->
      exists stats,
        MonteCarlo.calculate_portfolio_statistics prices portfolio
                                                  initial_investment
        = inr stats
        /\ length (MonteCarlo.weights stats) = length (columns prices)
        /\ MonteCarlo.returns stats = log_returns prices
        /\ MonteCarlo.latest_prices stats = last (rows prices) []).
Proof.
  unfold MonteCarlo.calculate_portfolio_statistics. repeat split.
  - intros Hmissing.
    rewrite (StatisticsFacts.weights_of_missing _ _ Hmissing). reflexivity.
  - intros Hfound Hrows.
    destruct (StatisticsFacts.weights_of_found _ _ Hfound) as (ws & Hws & _).
    rewrite Hws. unfold bind, iloc_last. rewrite Hrows. reflexivity.
  - intros Hfound Hrows.
    destruct (StatisticsFacts.weights_of_found _ _ Hfound) as (ws & Hws & Hlen).
    rewrite Hws. unfold bind, iloc_last.
    destruct (rows prices) as [|r rs]; [contradiction|].
    eexists. split; [reflexivity|]. cbn [MonteCarlo.weights MonteCarlo.returns
      MonteCarlo.latest_prices]. repeat split; [exact Hlen|].
    symmetry. apply ReturnsFacts.last_cons.
Qed.

Lemma statistics_exceptions_witness :
  MonteCarlo.calculate_portfolio_statistics Sample.flat_prices [] (Num 100000)
  = inl KeyError
  /\ MonteCarlo.calculate_portfolio_statistics
       Sample.no_day Sample.flat_composition (Num 100000)
     = inl IndexError
  /\ exists stats,
       MonteCarlo.calculate_portfolio_statistics
         Sample.flat_prices Sample.flat_composition (Num 100000)
       = inr stats
       /\ length (MonteCarlo.weights stats)
          = length (columns Sample.flat_prices)
       /\ MonteCarlo.returns stats = log_returns Sample.flat_prices
       /\ MonteCarlo.latest_prices stats = last (rows Sample.flat_prices) [].
Proof.
  split; [|split].
  - apply (proj1 (statistics_exceptions Sample.flat_prices [] (Num 100000))).
    constructor. intros [].
  - apply (proj1 (proj2 (statistics_exceptions
                           Sample.no_day Sample.flat_composition
                           (Num 100000)))).
    + constructor; [left; reflexivity|constructor].
    + reflexivity.
  - apply (proj2 (proj2 (statistics_exceptions
                           Sample.flat_prices Sample.flat_composition
                           (Num 100000)))).
    + constructor; [left; reflexivity|constructor].
    + discriminate.
Defined.

Module CovarianceFacts.
Import NumPy NumPyFacts Order StatsFacts Pandas.
Local Open Scope R_scope.

Lemma fmul_comm (a b : npfloat) : fmul a b = fmul b a.
Proof. destruct a, b; cbn; try reflexivity. f_equal. apply Rmult_comm. Qed.

Lemma map2_flip {A B C} (f : A -> B -> C) (xs : list A) (ys : list B) :
  map2 f xs ys = map2 (fun y x => f x y) ys xs.
Proof.
  revert ys. induction xs as [|x xs IH]; intros [|y ys]; cbn; try reflexivity.
  rewrite IH. reflexivity.
Qed.

Lemma map2_ext {A B C} (f g : A -> B -> C) (xs : list A) (ys : list B) :
  (forall x y, f x y = g x y) -> map2 f xs ys = map2 g xs ys.
Proof.
  intros H. revert ys. induction xs as [|x xs IH]; intros [|y ys]; cbn;
    try reflexivity.
  rewrite H, IH. reflexivity.
Qed.

Lemma cov_entry_symmetric (xs ys : list npfloat) :
  length xs = length ys -> cov_entry xs ys = cov_entry ys xs.
Proof.
  intros Hlen. unfold cov_entry. rewrite Hlen.
  destruct (length ys <=? 1)%nat; [reflexivity|].
  rewrite (map2_flip _ xs ys).
  rewrite (map2_ext _ (fun y x => fmul (fsub y (np_mean ys))
                                       (fsub x (np_mean xs))))
    by (intros; apply fmul_comm).
  reflexivity.
Qed.

Lemma column_length (j : nat) (df : frame) :
  length (column j df) = length (rows df).
Proof. unfold column. apply length_map. Qed.

Lemma map2_of_reals (f : npfloat -> npfloat -> npfloat) (g : R -> R -> R)
      (xs ys : list R) :
  (forall x y, f (Num x) (Num y) = Num (g x y)) ->
  map2 f (map Num xs) (map Num ys) = map Num (map2 g xs ys).
Proof.
  intros H. revert ys. induction xs as [|x xs IH]; intros [|y ys]; cbn;
    try reflexivity.
  rewrite H, IH. reflexivity.
Qed.

(** The sample covariance of two finite columns of at least two
    observations. *)
Lemma cov_entry_of_reals (xs ys : list R) :
  (2 <= length xs)%nat -> length ys = length xs ->
  cov_entry (map Num xs) (map Num ys)
  = Num (rsum (map2 (fun x y =>
                       (x - rsum xs / INR (length xs))
                       * (y - rsum ys / INR (length ys))) xs ys)
         / (INR (length xs) - 1)).
Proof.
  intros Hlen Hys. unfold cov_entry. rewrite length_map.
  replace (length xs <=? 1)%nat with false
    by (symmetry; apply Nat.leb_gt; lia).
  rewrite !np_mean_Num by (intros E; subst; cbn in *; lia).
  rewrite (map2_of_reals _ (fun x y =>
                              (x - rsum xs / INR (length xs))
                              * (y - rsum ys / INR (length ys))))
    by reflexivity.
  rewrite np_sum_Num. apply fdiv_Num.
  assert (2 <= INR (length xs)).
  { change 2 with (INR 2). apply le_INR. exact Hlen. }
  lra.
Qed.

Lemma rsum_squares (xs : list R) (m : R) :
  0 <= rsum (map2 (fun x y => (x - m) * (y - m)) xs xs).
Proof.
  induction xs as [|x xs IH]; cbn [map2 rsum]; [lra|].
  pose proof (Rle_0_sqr (x - m)) as H. unfold Rsqr in H. lra.
Qed.

End CovarianceFacts.

(** X5.  The covariance matrix that both scripts take from
    [returns.cov()] is symmetric.  On a table of finite returns with at
    least two rows every entry is finite and no diagonal entry is
    negative, so the [np.sqrt(np.diag(cov))] of the GBM step is defined. *)
Theorem covariance_symmetric_with_nonnegative_diagonal
        (df : frame) (rs : list (list R)) (i j : nat) :
  (i < length (columns df))%nat -> (j < length (columns df))%nat ->
  nth j (nth i (cov df) []) NaN = nth i (nth j (cov df) []) NaN
  /\ (rows df = map (map Num) rs ->
      (2 <= length rs)%nat ->
      Forall (fun r => length r = length (columns df)) rs ->
      finite (nth j (nth i (cov df) []) NaN)
      /\ exists v, nth i (nth i (cov df) []) NaN = Num v /\ 0 <= v).
Proof.
  intros Hi Hj. split.
  - rewrite !ReturnsFacts.nth_cov by assumption.
    apply CovarianceFacts.cov_entry_symmetric.
    rewrite !CovarianceFacts.column_length. reflexivity.
  - intros Hrows Hlen Hshape.
    assert (Hcol : forall k, (k < length (columns df))%nat ->
              column k df = map Num (map (fun r => nth k r 0) rs)).
    { intros k Hk. apply ReturnsFacts.column_of_reals; [exact Hrows|].
      eapply Forall_impl; [|exact Hshape]. intros r Hr. cbv beta in Hr. lia. }
    rewrite !ReturnsFacts.nth_cov by assumption.
    rewrite (Hcol i Hi), (Hcol j Hj).
    rewrite !CovarianceFacts.cov_entry_of_reals
      by (rewrite ?length_map; try reflexivity; exact Hlen).
    split; [eexists; reflexivity|].
    eexists. split; [reflexivity|].
    rewrite length_map.
    assert (H2 : 2 <= INR (length rs)).
    { change 2 with (INR 2). apply le_INR. exact Hlen. }
    apply Rmult_le_pos; [apply CovarianceFacts.rsum_squares|].
    left. apply Rinv_0_lt_compat. lra.
Qed.

Lemma covariance_symmetric_with_nonnegative_diagonal_witness :
  nth 0 (nth 0 (cov Sample.flat_returns) []) NaN
  = nth 0 (nth 0 (cov Sample.flat_returns) []) NaN
  /\ (finite (nth 0 (nth 0 (cov Sample.flat_returns) []) NaN)
      /\ exists v, nth 0 (nth 0 (cov Sample.flat_returns) []) NaN = Num v
                   /\ 0 <= v).
Proof.
  destruct (covariance_symmetric_with_nonnegative_diagonal
              Sample.flat_returns [[0]; [0]] 0 0) as [Hsym Hdiag].
  - cbn. lia.
  - cbn. lia.
  - split; [exact Hsym|]. apply Hdiag.
    + reflexivity.
    + cbn. lia.
    + repeat constructor.
Defined.

(** ** The two scripts side by side *)

Module CrossFacts.
Import NumPy NumPyFacts Pandas FactorFacts.
Local Open Scope R_scope.

Lemma sqrt_of_step (v : npfloat) :
  fsqrt (fmul v (Num 1)) = fmul (fsqrt v) (fsqrt (Num 1)).
Proof.
  destruct v as [x|]; [|reflexivity]. cbn.
  destruct (Rlt_dec (x * 1) 0), (Rlt_dec x 0), (Rlt_dec 1 0);
    try lra; try reflexivity.
  cbn. rewrite Rmult_1_r, sqrt_1, Rmult_1_r. reflexivity.
Qed.

(** The GBM step of the two scripts is one function. *)
Lemma updates_agree (mu : list npfloat) (c l : list (list npfloat))
      (prices z : list npfloat) :
  MonteCarlo.gbm_update mu c l prices z = Simulator.gbm_update mu c l prices z.
Proof.
  unfold MonteCarlo.gbm_update, Simulator.gbm_update, MonteCarlo.dt.
  rewrite (CovarianceFacts.map2_ext
             (fun v c0 => fmul (fsqrt (fmul v (Num 1))) c0)
             (fun v c0 => fmul (fmul (fsqrt v) (fsqrt (Num 1))) c0))
    by (intros; rewrite sqrt_of_step; reflexivity).
  reflexivity.
Qed.

Lemma prices_agree (mu : list npfloat) (c l : list (list npfloat))
      (start : list npfloat) (g : rng) (h n k sim : nat) :
  MonteCarlo.prices_after mu c l start (MonteCarlo.random_matrix_of g h n) k sim
  = Simulator.simulated_prices mu c l start g h n k sim.
Proof.
  unfold MonteCarlo.prices_after, Simulator.simulated_prices.
  induction k as [|k IH]; [reflexivity|].
  rewrite !for_range_S, IH. apply updates_agree.
Qed.

Lemma value_agree (shares prices : list npfloat) :
  MonteCarlo.portfolio_value_of shares prices = dot prices shares.
Proof.
  unfold MonteCarlo.portfolio_value_of, np_sum.
  revert shares. induction prices as [|p prices IH]; intros [|s shares];
    cbn; try reflexivity.
  rewrite IH. reflexivity.
Qed.

Lemma shares_agree (stats : MonteCarlo.statistics) :
  MonteCarlo.shares_of stats
  = Simulator.shares_of (Num 100000) (MonteCarlo.weights stats)
                        (MonteCarlo.latest_prices stats).
Proof.
  unfold MonteCarlo.shares_of, Simulator.shares_of. f_equal.
  apply map_ext. intros w. apply CovarianceFacts.fmul_comm.
Qed.

Lemma weights_of_length (portfolio : list (string * npfloat))
      (tickers : list string) (ws : list npfloat) :
  MonteCarlo.weights_of portfolio tickers = inr ws ->
  length ws = length tickers.
Proof.
  revert ws. induction tickers as [|t tickers IH]; intros ws; cbn.
  - intros H. inversion H. reflexivity.
  - unfold bind. destruct (MonteCarlo.lookup portfolio t); [discriminate|].
    destruct (MonteCarlo.weights_of portfolio tickers) as [|ws']; [discriminate|].
    intros H. inversion H. cbn. rewrite (IH ws' eq_refl). reflexivity.
Qed.

(** What the statistics carry into [run_monte_carlo_portfolio]. *)
Lemma statistics_fields (prices : frame) (portfolio : list (string * npfloat))
      (initial_investment : npfloat) (stats : MonteCarlo.statistics) :
  MonteCarlo.calculate_portfolio_statistics prices portfolio
                                            initial_investment = inr stats ->
  MonteCarlo.returns stats = log_returns prices
  /\ iloc_last prices = inr (MonteCarlo.latest_prices stats)
  /\ length (MonteCarlo.weights stats) = length (columns prices).
Proof.
  unfold MonteCarlo.calculate_portfolio_statistics, bind.
  destruct (MonteCarlo.weights_of portfolio (columns prices)) as [|ws] eqn:Hws;
    [discriminate|].
  destruct (iloc_last prices) as [|latest]; [discriminate|].
  intros H. inversion H; subst; clear H. cbn.
  repeat split. apply (weights_of_length _ _ _ Hws).
Qed.

Lemma viz_pass_ncols (mu : list npfloat) (c l : list (list npfloat))
      (start shares : list npfloat) (rm : nat -> nat -> list npfloat)
      (h sim : nat) (p : ndarray2) :
  ncols (snd (MonteCarlo.viz_pass mu c l start shares rm h sim p)) = ncols p.
Proof.
  unfold MonteCarlo.viz_pass.
  induction h as [|h IH]; [reflexivity|].
  rewrite for_range_from_S. cbn [snd set2 ncols]. exact IH.
Qed.

Lemma sim_loop_ncols (mu : list npfloat) (c l : list (list npfloat))
      (start shares : list npfloat) (rm : nat -> nat -> list npfloat)
      (h n : nat) (st : ndarray2 * ndarray2) :
  ncols (fst (for_range n (MonteCarlo.sim_body mu c l start shares rm h) st))
  = ncols (fst st).
Proof.
  induction n as [|n IH]; [reflexivity|].
  rewrite for_range_S. unfold MonteCarlo.sim_body at 1. cbn [fst].
  destruct (n <? 100)%nat.
  - rewrite viz_pass_ncols. cbn [set2 ncols]. exact IH.
  - cbn [set2 ncols]. exact IH.
Qed.

(** The shape of the path matrix of [run_monte_carlo_portfolio] and the
    generator it leaves. *)
Lemma monte_carlo_shape (g g' : rng) (stats : MonteCarlo.statistics)
      (prices : frame) (n_sims horizon_days : nat)
      (paths : ndarray2) (individual : ndarray3) :
  MonteCarlo.run_monte_carlo_portfolio g stats prices n_sims horizon_days
  = (inr (paths, individual), g') ->
  nrows paths = (horizon_days + 1)%nat
  /\ ncols paths = n_sims
  /\ g' = advance g (n_sims * horizon_days * length (columns prices)).
Proof.
  unfold MonteCarlo.run_monte_carlo_portfolio.
  destruct (Factor.factorize _ _) as [e|[c l]]; [discriminate|].
  intros H. inversion H; subst; clear H. cbn [fst].
  rewrite MonteCarloFacts.sim_loop_nrows, sim_loop_ncols. cbn.
  repeat split.
Qed.

(** The generator that a successful [run_portfolio_simulation] leaves. *)
Lemma simulator_generator (g g' : rng) (prices : frame)
      (weights : list npfloat) (n_sims horizon_days : nat)
      (initial_value : npfloat) (res : Simulator.simulation) :
  Simulator.run_portfolio_simulation g prices weights n_sims horizon_days
                                     initial_value = (inr res, g') ->
  forall i, g' i = g (n_sims * horizon_days * length weights + i)%nat.
Proof.
  unfold Simulator.run_portfolio_simulation.
  destruct (iloc_last prices) as [e|last]; [discriminate|].
  destruct (Factor.factorize _ _) as [e|[c l]]; [discriminate|].
  intros H. inversion H; subst; clear H.
  match goal with
  | |- forall i, Simulator.gen (for_range _ _ (Simulator.mkloop _ _ ?p ?v)) i = _ =>
      destruct (SimulatorFacts.sim_loop_inv
                  (mean (log_returns prices)) c l
                  (Simulator.shares_of initial_value weights last) last
                  (length weights) horizon_days g p v n_sims) as (Hg & _)
  end.
  exact Hg.
Qed.

End CrossFacts.

(** X6.  The two scripts simulate alike.  Started with the generator in
    the same state, on the same panel, with the weights of the statistics
    and an investment of 100000, [run_monte_carlo_portfolio] and
    [run_portfolio_simulation] either raise the same exception or return
    the same terminal portfolio value and the same terminal asset prices
    for every simulation, the same path for each of the first hundred
    simulations, and leave the generator in the same state; the report of
    [analyze_results] and the figures of [display_results] then agree on
    the returns, their mean, median, deviation and both VaR figures, and
    the probability of loss of the first is 100 times that of the
    second. *)
Theorem scripts_simulate_alike
        (g : rng) (prices : frame) (portfolio : list (string * npfloat))
        (initial_investment : npfloat) (stats : MonteCarlo.statistics)
        (n_sims horizon_days : nat) :
  MonteCarlo.calculate_portfolio_statistics prices portfolio
                                            initial_investment = inr stats ->
  (1 <= horizon_days)%nat ->
  match MonteCarlo.run_monte_carlo_portfolio g stats prices n_sims
                                             horizon_days,
        Simulator.run_portfolio_simulation g prices (MonteCarlo.weights stats)
                                           n_sims horizon_days (Num 100000)
  with
  | (inr (paths, individual), g1), (inr batch, g2) =>
      (forall sim, (sim < n_sims)%nat ->
         at2 paths horizon_days sim
         = at2 (Simulator.portfolio_paths batch) horizon_days sim)
      /\ (forall day sim,
            (day <= horizon_days)%nat -> (sim < n_sims)%nat ->
            (sim < 100)%nat ->
            at2 paths day sim = at2 (Simulator.portfolio_paths batch) day sim)
      /\ (forall i sim, (i < length (columns prices))%nat ->
            (sim < n_sims)%nat ->
            at3 individual 1 i sim
            = at3 (Simulator.stock_paths batch) horizon_days i sim)
      /\ (forall i, g1 i = g2 i)
      /\ MonteCarlo.sim_returns (MonteCarlo.analyze_results paths)
         = Simulator.sim_returns batch
      /\ MonteCarlo.mean_return (MonteCarlo.analyze_results paths)
         = Simulator.mean_return (Simulator.display_results batch)
      /\ MonteCarlo.median_return (MonteCarlo.analyze_results paths)
         = Simulator.median_return (Simulator.display_results batch)
      /\ MonteCarlo.std_return (MonteCarlo.analyze_results paths)
         = Simulator.volatility (Simulator.display_results batch)
      /\ MonteCarlo.var_5 (MonteCarlo.analyze_results paths)
         = Simulator.var_5 (Simulator.display_results batch)
      /\ MonteCarlo.var_1 (MonteCarlo.analyze_results paths)
         = Simulator.var_1 (Simulator.display_results batch)
      /\ MonteCarlo.prob_loss (MonteCarlo.analyze_results paths)
         = fmul (Simulator.prob_negative (Simulator.display_results batch))
                (Num 100)
  | (inl e1, _), (inl e2, _) => e1 = e2
  | _, _ => False
  end.
Proof.
  intros Hstats Hh.
  destruct (CrossFacts.statistics_fields _ _ _ _ Hstats) as (Hret & Hlast & Hlen).
  assert (Hsame : factorize (length (MonteCarlo.weights stats))
                            (cov (log_returns prices))
                  = factorize (length (cov (MonteCarlo.returns stats)))
                              (cov (MonteCarlo.returns stats))).
  { rewrite Hret, ShapeFacts.cov_length, ShapeFacts.log_returns_columns, Hlen.
    reflexivity. }
  destruct (factorize (length (cov (MonteCarlo.returns stats)))
                      (cov (MonteCarlo.returns stats))) as [e|[c l]] eqn:Hf.
  - unfold MonteCarlo.run_monte_carlo_portfolio,
      Simulator.run_portfolio_simulation.
    rewrite Hf, Hlast, Hsame. reflexivity.
  - destruct (MonteCarloRun.run_paths g stats prices n_sims horizon_days c l Hf)
      as (paths & individual & Hmc & Hrows & Hat).
    destruct (RunFacts.run_simulation g prices (MonteCarlo.weights stats)
                n_sims horizon_days (Num 100000) _ c l Hlast Hsame)
      as (batch & g2 & Hsim & H3 & H2 & Hr2 & Hc2 & Hfinal & Hrets).
    pose proof (CrossFacts.monte_carlo_shape _ _ _ _ _ _ _ _ Hmc)
      as (_ & Hcols & _).
    pose proof (CrossFacts.simulator_generator _ _ _ _ _ _ _ _ Hsim) as Hgen.
    pose proof (RunFacts.run_final_prices g stats prices n_sims horizon_days
                  c l paths individual _ Hf Hmc) as Hind.
    rewrite Hmc, Hsim.
    assert (Hvalue : forall k sim,
               MonteCarlo.portfolio_value_of
                 (MonteCarlo.shares_of stats)
                 (MonteCarlo.simulated_prices g stats prices c l
                                              horizon_days k sim)
               = dot (Simulator.simulated_prices
                        (mean (log_returns prices)) c l
                        (MonteCarlo.latest_prices stats) g horizon_days
                        (length (MonteCarlo.weights stats)) k sim)
                     (Simulator.shares_of (Num 100000)
                        (MonteCarlo.weights stats)
                        (MonteCarlo.latest_prices stats))).
    { intros k sim. rewrite CrossFacts.value_agree, CrossFacts.shares_agree.
      unfold MonteCarlo.simulated_prices.
      rewrite CrossFacts.prices_agree, Hret, Hlen. reflexivity. }
    assert (Hterminal : forall sim, (sim < n_sims)%nat ->
               at2 paths horizon_days sim
               = at2 (Simulator.portfolio_paths batch) horizon_days sim).
    { intros sim Hs. rewrite Hat, H2. cbv zeta.
      replace (sim <? n_sims)%nat with true by (symmetry; apply Nat.ltb_lt; lia).
      replace (1 <=? horizon_days)%nat with true
        by (symmetry; apply Nat.leb_le; lia).
      replace (horizon_days <=? horizon_days)%nat with true
        by (symmetry; apply Nat.leb_le; lia).
      rewrite Nat.eqb_refl, Hvalue. cbn [andb].
      destruct (sim <? 100)%nat; reflexivity. }
    assert (Hreturns : MonteCarlo.sim_returns (MonteCarlo.analyze_results paths)
                       = Simulator.sim_returns batch).
    { rewrite Hrets, Hfinal.
      cbn [MonteCarlo.analyze_results MonteCarlo.sim_returns].
      f_equal. unfold last_row2. rewrite Hrows, Hr2, Hcols, Hc2.
      apply map_ext_in. intros sim Hin. apply in_seq in Hin.
      replace (horizon_days + 1 - 1)%nat with horizon_days by lia.
      apply Hterminal. lia. }
    split; [exact Hterminal|]. split.
    { intros day sim _ Hs Hviz. rewrite Hat, H2. cbv zeta.
      replace (sim <? n_sims)%nat with true by (symmetry; apply Nat.ltb_lt; lia).
      replace (sim <? 100)%nat with true by (symmetry; apply Nat.ltb_lt; lia).
      cbn [andb]. rewrite Hvalue.
      destruct ((1 <=? day) && (day <=? horizon_days))%nat eqn:Hd;
        [reflexivity|].
      destruct (Nat.eqb_spec day horizon_days) as [->|Hne]; [|reflexivity].
      exfalso.
      replace (1 <=? horizon_days)%nat with true in Hd
        by (symmetry; apply Nat.leb_le; lia).
      replace (horizon_days <=? horizon_days)%nat with true in Hd
        by (symmetry; apply Nat.leb_le; lia).
      discriminate. }
    split.
    { intros i sim Hi Hs. rewrite (Hind i sim Hs), H3.
      replace (sim <? n_sims)%nat with true by (symmetry; apply Nat.ltb_lt; lia).
      replace (1 <=? horizon_days)%nat with true
        by (symmetry; apply Nat.leb_le; lia).
      replace (horizon_days <=? horizon_days)%nat with true
        by (symmetry; apply Nat.leb_le; lia).
      replace (i <? length (MonteCarlo.weights stats))%nat with true
        by (symmetry; apply Nat.ltb_lt; lia).
      cbn [andb]. unfold MonteCarlo.simulated_prices.
      rewrite CrossFacts.prices_agree, Hret, Hlen. reflexivity. }
    split.
    { intros i. rewrite Hgen, Hlen. reflexivity. }
    split; [exact Hreturns|].
    cbn [MonteCarlo.analyze_results MonteCarlo.sim_returns
         MonteCarlo.mean_return MonteCarlo.median_return MonteCarlo.std_return
         MonteCarlo.var_5 MonteCarlo.var_1 MonteCarlo.prob_loss] in *.
    unfold Simulator.display_results.
    cbn [Simulator.mean_return Simulator.median_return Simulator.volatility
         Simulator.var_5 Simulator.var_1 Simulator.prob_negative].
    rewrite <- Hreturns. repeat split; reflexivity.
Qed.

Lemma scripts_simulate_alike_witness :
  match MonteCarlo.run_monte_carlo_portfolio Sample.steady Sample.flat_stats
                                             Sample.flat_prices 2 1,
        Simulator.run_portfolio_simulation
          Sample.steady Sample.flat_prices
          (MonteCarlo.weights Sample.flat_stats) 2 1 (Num 100000)
  with
  | (inr (paths, individual), g1), (inr batch, g2) =>
      (forall sim, (sim < 2)%nat ->
         at2 paths 1 sim = at2 (Simulator.portfolio_paths batch) 1 sim)
      /\ (forall day sim,
            (day <= 1)%nat -> (sim < 2)%nat -> (sim < 100)%nat ->
            at2 paths day sim = at2 (Simulator.portfolio_paths batch) day sim)
      /\ (forall i sim, (i < length (columns Sample.flat_prices))%nat ->
            (sim < 2)%nat ->
            at3 individual 1 i sim
            = at3 (Simulator.stock_paths batch) 1 i sim)
      /\ (forall i, g1 i = g2 i)
      /\ MonteCarlo.sim_returns (MonteCarlo.analyze_results paths)
         = Simulator.sim_returns batch
      /\ MonteCarlo.mean_return (MonteCarlo.analyze_results paths)
         = Simulator.mean_return (Simulator.display_results batch)
      /\ MonteCarlo.median_return (MonteCarlo.analyze_results paths)
         = Simulator.median_return (Simulator.display_results batch)
      /\ MonteCarlo.std_return (MonteCarlo.analyze_results paths)
         = Simulator.volatility (Simulator.display_results batch)
      /\ MonteCarlo.var_5 (MonteCarlo.analyze_results paths)
         = Simulator.var_5 (Simulator.display_results batch)
      /\ MonteCarlo.var_1 (MonteCarlo.analyze_results paths)
         = Simulator.var_1 (Simulator.display_results batch)
      /\ MonteCarlo.prob_loss (MonteCarlo.analyze_results paths)
         = fmul (Simulator.prob_negative (Simulator.display_results batch))
                (Num 100)
  | (inl e1, _), (inl e2, _) => e1 = e2
  | _, _ => False
  end.
Proof.
  apply (scripts_simulate_alike Sample.steady Sample.flat_prices
           Sample.flat_composition (Num 100000) Sample.flat_stats 2 1).
  - exact SampleFacts.flat_statistics.
  - lia.
Defined.

(** ** Shares and portfolio values *)

Module ValueFacts.
Import NumPy NumPyFacts Order StatsFacts Pandas FactorFacts.
Local Open Scope R_scope.

Lemma nth_seq_all (xs : list npfloat) :
  map (fun i => nth i xs NaN) (seq 0 (length xs)) = xs.
Proof.
  induction xs as [|x xs IH]; [reflexivity|].
  cbn [length seq map nth]. f_equal.
  rewrite <- seq_shift, map_map. exact IH.
Qed.

(** The fields of the batch that repeat the inputs of the run. *)
Lemma simulation_fields (g g' : rng) (prices : frame)
      (weights last : list npfloat) (n_sims horizon_days : nat)
      (initial_value : npfloat) (res : Simulator.simulation) :
  iloc_last prices = inr last ->
  Simulator.run_portfolio_simulation g prices weights n_sims horizon_days
                                     initial_value = (inr res, g') ->
  Simulator.shares_per_stock res
  = Simulator.shares_of initial_value weights last
  /\ Simulator.last_prices res = last
  /\ Simulator.initial_portfolio_price res = dot last weights.
Proof.
  intros Hlast. unfold Simulator.run_portfolio_simulation. rewrite Hlast.
  destruct (Factor.factorize _ _) as [e|[c l]]; [discriminate|].
  intros H. inversion H; subst; clear H. cbn. repeat split.
Qed.

Lemma dot_nonneg (xs ys : list npfloat) :
  Forall positive xs -> Forall positive ys ->
  exists v, dot xs ys = Num v /\ 0 <= v.
Proof.
  intros Hxs. revert ys. induction Hxs as [|x xs (a & -> & Ha) _ IH];
    intros ys Hys.
  - exists 0. split; [reflexivity|lra].
  - destruct Hys as [|y ys (b & -> & Hb) Hys].
    + exists 0. split; [reflexivity|lra].
    + destruct (IH ys Hys) as (v & Hv & Hv0). cbn. rewrite Hv. cbn.
      eexists. split; [reflexivity|]. nra.
Qed.

Lemma dot_positive (xs ys : list npfloat) :
  Forall positive xs -> Forall positive ys -> xs <> [] -> ys <> [] ->
  positive (dot xs ys).
Proof.
  intros Hxs Hys Hx Hy.
  destruct Hxs as [|x xs (a & -> & Ha) Hxs]; [contradiction|].
  destruct Hys as [|y ys (b & -> & Hb) Hys]; [contradiction|].
  destruct (dot_nonneg xs ys Hxs Hys) as (v & Hv & Hv0).
  cbn. rewrite Hv. cbn. eexists. split; [reflexivity|]. nra.
Qed.

Lemma shares_positive (v : R) (weights last : list npfloat) :
  0 < v -> Forall positive weights -> Forall positive last ->
  Forall positive (Simulator.shares_of (Num v) weights last).
Proof.
  intros Hv Hw Hl. unfold Simulator.shares_of.
  apply (Forall_map2 positive positive); [|apply Forall_map|exact Hl].
  - intros a b (x & -> & Hx) (y & -> & Hy). rewrite fdiv_Num by lra.
    eexists. split; [reflexivity|]. apply Rdiv_lt_0_compat; assumption.
  - eapply Forall_impl; [|exact Hw]. intros a (x & -> & Hx). cbn.
    eexists. split; [reflexivity|]. apply Rmult_lt_0_compat; assumption.
Qed.

(** The value of the shares at the prices they were bought at. *)
Lemma share_value (v : R) (ws ps : list R) :
  length ps = length ws -> Forall (fun p => 0 < p) ps ->
  dot (map Num ps) (Simulator.shares_of (Num v) (map Num ws) (map Num ps))
  = Num (v * rsum ws).
Proof.
  intros Hlen Hps. unfold Simulator.shares_of. revert ws Hlen.
  induction Hps as [|p ps Hp _ IH]; intros [|w ws] Hlen; cbn in Hlen;
    try discriminate.
  - cbn. f_equal. lra.
  - cbn [map map2 dot rsum]. rewrite IH by lia.
    cbn [fmul lift2]. rewrite fdiv_Num by lra. cbn. f_equal. field. lra.
Qed.

End ValueFacts.

(** X7.  In the batch of [run_portfolio_simulation], one weight and one
    last price per column, every stored portfolio value from day 1 on is
    the dot product of the asset prices stored for that day and simulation
    with the share counts, and the share counts are those bought at the
    last observed prices and never changed; row 0 holds the initial
    investment and the last observed prices. *)
Theorem stored_values_follow_stored_prices
        (g : rng) (prices : frame) (weights last : list npfloat)
        (n_sims horizon_days : nat) (initial_value : npfloat)
        (cov_daily chol : list (list npfloat)) :
  iloc_last prices = inr last ->
  factorize (length weights) (cov (log_returns prices))
  = inr (cov_daily, chol) ->
  length last = length weights ->
  length (columns prices) = length weights ->
  exists batch g',
    Simulator.run_portfolio_simulation g prices weights n_sims horizon_days
                                       initial_value = (inr batch, g')
    /\ Simulator.shares_per_stock batch
       = map2 fdiv (map (fmul initial_value) weights) last
    /\ (forall day sim,
          (1 <= day <= horizon_days)%nat -> (sim < n_sims)%nat ->
          at2 (Simulator.portfolio_paths batch) day sim
          = dot (map (fun i => at3 (Simulator.stock_paths batch) day i sim)
                     (seq 0 (length weights)))
                (Simulator.shares_per_stock batch))
    /\ (forall sim, (sim < n_sims)%nat ->
          at2 (Simulator.portfolio_paths batch) 0 sim = initial_value)
    /\ (forall i sim, (i < length weights)%nat -> (sim < n_sims)%nat ->
          at3 (Simulator.stock_paths batch) 0 i sim = nth i last NaN).
Proof.
  intros Hlast Hf Hlen Hcols.
  destruct (RunFacts.run_simulation g prices weights n_sims horizon_days
              initial_value last cov_daily chol Hlast Hf)
    as (batch & g' & Hrun & H3 & H2 & _).
  destruct (ValueFacts.simulation_fields _ _ _ _ _ _ _ _ _ Hlast Hrun)
    as (Hshares & _).
  exists batch, g'. split; [exact Hrun|]. split; [exact Hshares|].
  assert (Hc : length (cov (log_returns prices)) = length weights).
  { rewrite ShapeFacts.cov_length. exact Hcols. }
  destruct (ShapeFacts.factorize_length _ _ _ _ Hc Hf) as [Hc' Hl'].
  repeat split.
  - intros day sim [Hd1 Hd2] Hs. rewrite H2, Hshares.
    replace (sim <? n_sims)%nat with true by (symmetry; apply Nat.ltb_lt; lia).
    replace (1 <=? day)%nat with true by (symmetry; apply Nat.leb_le; lia).
    replace (day <=? horizon_days)%nat with true
      by (symmetry; apply Nat.leb_le; lia).
    cbn [andb]. f_equal.
    rewrite <- (ValueFacts.nth_seq_all
                  (Simulator.simulated_prices (mean (log_returns prices))
                     cov_daily chol last g horizon_days (length weights)
                     day sim)) at 1.
    rewrite ShapeFacts.simulated_prices_length; try assumption;
      [|rewrite ShapeFacts.mean_length; exact Hcols].
    apply map_ext_in. intros i Hi. apply in_seq in Hi. rewrite H3.
    replace (sim <? n_sims)%nat with true by (symmetry; apply Nat.ltb_lt; lia).
    replace (1 <=? day)%nat with true by (symmetry; apply Nat.leb_le; lia).
    replace (day <=? horizon_days)%nat with true
      by (symmetry; apply Nat.leb_le; lia).
    replace (i <? length weights)%nat with true
      by (symmetry; apply Nat.ltb_lt; lia).
    reflexivity.
  - intros sim _. rewrite H2. rewrite andb_false_r. reflexivity.
  - intros i sim Hi _. rewrite H3. rewrite andb_false_r. cbn [andb].
    replace (i <? length weights)%nat with true
      by (symmetry; apply Nat.ltb_lt; lia).
    reflexivity.
Qed.

Lemma stored_values_follow_stored_prices_witness :
  exists batch g',
    Simulator.run_portfolio_simulation Sample.steady Sample.flat_prices
                                       [Num 1] 2 1 (Num 100000)
    = (inr batch, g')
    /\ Simulator.shares_per_stock batch
       = map2 fdiv (map (fmul (Num 100000)) [Num 1]) [Num 1]
    /\ (forall day sim,
          (1 <= day <= 1)%nat -> (sim < 2)%nat ->
          at2 (Simulator.portfolio_paths batch) day sim
          = dot (map (fun i => at3 (Simulator.stock_paths batch) day i sim)
                     (seq 0 (length [Num 1])))
                (Simulator.shares_per_stock batch))
    /\ (forall sim, (sim < 2)%nat ->
          at2 (Simulator.portfolio_paths batch) 0 sim = Num 100000)
    /\ (forall i sim, (i < length [Num 1])%nat -> (sim < 2)%nat ->
          at3 (Simulator.stock_paths batch) 0 i sim = nth i [Num 1] NaN).
Proof.
  apply (stored_values_follow_stored_prices
           Sample.steady Sample.flat_prices [Num 1] [Num 1] 2 1 (Num 100000)
           [[Num Factor.epsilon]] [[Num (sqrt Factor.epsilon)]]).
  - reflexivity.
  - rewrite SampleFacts.flat_log_returns, SampleFacts.flat_cov.
    exact SampleFacts.factorize_zero.
  - reflexivity.
  - reflexivity.
Defined.

(** With positive last prices, positive weights and a positive
    investment, the batch of [run_portfolio_simulation] holds positive
    portfolio values only. *)
Lemma positive_batch
      (g : rng) (prices : frame) (weights last : list npfloat)
      (n_sims horizon_days : nat) (v : R)
      (cov_daily chol : list (list npfloat)) :
  iloc_last prices = inr last ->
  factorize (length weights) (cov (log_returns prices))
  = inr (cov_daily, chol) ->
  Forall finite (mean (log_returns prices)) ->
  Forall positive last ->
  Forall positive weights ->
  (0 < v)%R ->
  weights <> [] ->
  length last = length weights ->
  length (columns prices) = length weights ->
  exists batch g',
    Simulator.run_portfolio_simulation g prices weights n_sims horizon_days
                                       (Num v) = (inr batch, g')
    /\ (forall day sim,
          (day <= horizon_days)%nat -> (sim < n_sims)%nat ->
          positive (at2 (Simulator.portfolio_paths batch) day sim))
    /\ nrows (Simulator.portfolio_paths batch) = (horizon_days + 1)%nat
    /\ ncols (Simulator.portfolio_paths batch) = n_sims
    /\ Simulator.sim_returns batch
       = map (fun x => fsub (fdiv x (Num v)) (Num 1))
             (last_row2 (Simulator.portfolio_paths batch)).
Proof.
  intros Hlast Hf Hmu Hp Hw Hv Hne Hlen Hcols.
  destruct (RunFacts.run_simulation g prices weights n_sims horizon_days
              (Num v) last cov_daily chol Hlast Hf)
    as (batch & g' & Hrun & _ & H2 & Hr & Hc & Hfin & Hret).
  exists batch, g'. split; [exact Hrun|].
  destruct (FactorFacts.factorize_ok _ _ _ _ Hf) as [Hl _].
  assert (Hcl : length (cov (log_returns prices)) = length weights).
  { rewrite ShapeFacts.cov_length. exact Hcols. }
  destruct (ShapeFacts.factorize_length _ _ _ _ Hcl Hf) as [Hc' Hl'].
  repeat split; [|exact Hr|exact Hc|rewrite Hret, Hfin; reflexivity].
  intros day sim Hday Hsim. rewrite H2.
  replace (sim <? n_sims)%nat with true by (symmetry; apply Nat.ltb_lt; lia).
  replace (day <=? horizon_days)%nat with true
    by (symmetry; apply Nat.leb_le; lia).
  destruct day as [|day]; cbn [Nat.leb Nat.eqb andb].
  - exists v. split; [reflexivity|exact Hv].
  - apply ValueFacts.dot_positive.
    + apply (Positivity.simulator_prices_positive _ _ _ Hmu Hl last g
               horizon_days (length weights) (S day) sim Hp).
    + apply ValueFacts.shares_positive; assumption.
    + intros Hnil.
      assert (Hsl : length (Simulator.simulated_prices
                              (mean (log_returns prices)) cov_daily chol last
                              g horizon_days (length weights) (S day) sim)
                    = length weights).
      { apply ShapeFacts.simulated_prices_length; try assumption.
        rewrite ShapeFacts.mean_length. exact Hcols. }
      rewrite Hnil in Hsl. destruct weights; [contradiction|discriminate].
    + destruct weights as [|w ws]; [contradiction|].
      destruct last as [|l ls]; [discriminate|].
      unfold Simulator.shares_of. cbn. discriminate.
Qed.



(** X9.  The shares bought at the last observed prices are worth, at
    those prices, the investment times the sum of the weights, in both
    scripts: the value that row 0 of the path matrix holds is the value of
    the holdings exactly when the weights sum to one. *)
Theorem shares_are_worth_the_weighted_investment
        (v : R) (ws ps : list R) (stats : MonteCarlo.statistics) :
  length ps = length ws ->
  Forall (fun p => (0 < p)%R) ps ->
  MonteCarlo.weights stats = map Num ws ->
  MonteCarlo.latest_prices stats = map Num ps ->
  dot (map Num ps) (Simulator.shares_of (Num v) (map Num ws) (map Num ps))
  = Num (v * Order.rsum ws)
  /\ MonteCarlo.portfolio_value_of (MonteCarlo.shares_of stats) (map Num ps)
     = Num (100000 * Order.rsum ws).
Proof.
  intros Hlen Hps Hw Hl. split.
  - apply ValueFacts.share_value; assumption.
  - rewrite CrossFacts.value_agree, CrossFacts.shares_agree, Hw, Hl.
    apply ValueFacts.share_value; assumption.
Qed.

Lemma shares_are_worth_the_weighted_investment_witness :
  dot (map Num [1%R])
      (Simulator.shares_of (Num 100000) (map Num [1%R]) (map Num [1%R]))
  = Num (100000 * Order.rsum [1%R])
  /\ MonteCarlo.portfolio_value_of (MonteCarlo.shares_of Sample.flat_stats)
                                   (map Num [1%R])
     = Num (100000 * Order.rsum [1%R]).
Proof.
  apply (shares_are_worth_the_weighted_investment
           100000 [1%R] [1%R] Sample.flat_stats).
  - reflexivity.
  - repeat constructor. lra.
  - reflexivity.
  - reflexivity.
Defined.

(** ** The fan charts *)

Module ChartFacts.
Import NumPy NumPyFacts Order StatsFacts Charts Sparse.
Local Open Scope R_scope.

Lemma nth_map_seq {A} (f : nat -> A) (n k : nat) (d : A) :
  (k < n)%nat -> nth k (map f (seq 0 n)) d = f k.
Proof.
  intros Hk. rewrite (nth_indep _ d (f 0%nat))
    by (rewrite length_map, length_seq; exact Hk).
  rewrite map_nth, seq_nth by exact Hk. reflexivity.
Qed.

Lemma nth_axis1 (a : ndarray2) (q day : nat) :
  (day < nrows a)%nat ->
  nth day (np_percentile_axis1 a q) NaN = np_percentile (row2 a day) q.
Proof.
  intros Hd. unfold np_percentile_axis1.
  apply (nth_map_seq (fun d => np_percentile (row2 a d) q)). exact Hd.
Qed.

Lemma positives_all (l : list R) :
  Forall (fun x => 0 < x) l -> positives l = l.
Proof.
  induction 1 as [|x l Hx _ IH]; [reflexivity|].
  unfold positives in *. cbn. destruct (Rlt_dec 0 x); [|contradiction].
  rewrite IH. reflexivity.
Qed.

Lemma positives_none (l : list R) :
  Forall (fun x => x = 0) l -> positives l = [].
Proof.
  induction 1 as [|x l Hx _ IH]; [reflexivity|].
  unfold positives in *. cbn. destruct (Rlt_dec 0 x); [lra|]. exact IH.
Qed.

Lemma positives_cons_length (x : R) (l : list R) :
  (length (positives l) <= length (positives (x :: l)))%nat.
Proof.
  unfold positives. cbn. destruct (Rlt_dec 0 x); cbn; lia.
Qed.

Lemma positives_insert (x : R) (l : list R) :
  length (positives (insert x l)) = length (positives (x :: l)).
Proof.
  induction l as [|y l IH]; [reflexivity|].
  cbn [insert]. destruct (Rle_dec x y); [reflexivity|].
  unfold positives in *. cbn in *.
  destruct (Rlt_dec 0 y), (Rlt_dec 0 x); cbn in *; rewrite IH; reflexivity.
Qed.

Lemma positives_sort (l : list R) :
  length (positives (sort l)) = length (positives l).
Proof.
  induction l as [|x l IH]; [reflexivity|].
  cbn [sort]. rewrite positives_insert.
  unfold positives in *. cbn. destruct (Rlt_dec 0 x); cbn; rewrite IH;
    reflexivity.
Qed.

(** In an ascending array everything from a positive entry on is
    positive. *)
Lemma positives_tail (l : list R) (k : nat) :
  ascending l -> (k < length l)%nat -> 0 < nth k l 0 ->
  (length l - k <= length (positives l))%nat.
Proof.
  revert k. induction l as [|x l IH]; intros k Hasc Hk Hpos.
  - cbn in Hk. lia.
  - destruct Hasc as [Hx Hasc]. destruct k as [|k].
    + cbn in Hpos. rewrite positives_all; [lia|].
      constructor; [exact Hpos|].
      eapply Forall_impl; [|exact Hx]. intros y Hy. cbn in Hy. lra.
    + cbn [nth length] in *.
      pose proof (IH k Hasc ltac:(lia) Hpos) as Hl.
      pose proof (positives_cons_length x l). lia.
Qed.

(** An array that is zero from index [m] on has at most [m] positive
    entries. *)
Lemma positives_sparse (ys : list R) (m : nat) :
  (forall j, (m <= j < length ys)%nat -> nth j ys 0 = 0) ->
  (length (positives ys) <= m)%nat.
Proof.
  intros Hz. rewrite <- (firstn_skipn m ys).
  unfold positives. rewrite filter_app, length_app.
  fold (positives (skipn m ys)). rewrite (positives_none (skipn m ys)).
  - cbn [length]. pose proof (filter_length_le
                               (fun x => if Rlt_dec 0 x then true else false)
                               (firstn m ys)) as Hf.
    rewrite length_firstn in Hf. lia.
  - apply Forall_nth. intros i d Hi. rewrite length_skipn in Hi.
    rewrite (nth_indep _ d 0) by (rewrite length_skipn; exact Hi).
    rewrite nth_skipn. apply Hz. lia.
Qed.

(** The low entries of the sorted array are zero. *)
Lemma sorted_sparse (ys : list R) (m k : nat) :
  Forall (fun y => 0 <= y) ys ->
  (forall j, (m <= j < length ys)%nat -> nth j ys 0 = 0) ->
  (k + m < length ys)%nat ->
  nth k (sort ys) 0 = 0.
Proof.
  intros Hnn Hz Hk.
  assert (Hlen : length (sort ys) = length ys) by apply sort_length.
  assert (H0 : 0 <= nth k (sort ys) 0).
  { eapply Forall_forall in Hnn; [exact Hnn|].
    apply sort_In, nth_In. lia. }
  destruct (Rlt_dec 0 (nth k (sort ys) 0)) as [Hpos|Hpos]; [|lra].
  pose proof (positives_tail (sort ys) k (sort_ascending ys) ltac:(lia) Hpos)
    as Ht.
  rewrite positives_sort, Hlen in Ht.
  pose proof (positives_sparse ys m Hz). lia.
Qed.

(** The percentiles up to the ninetieth of a long array of non-negative
    values that is zero from index 100 on. *)
Lemma percentile_sparse (xs : list npfloat) (q : nat) :
  (forall j, (j < length xs)%nat ->
     exists x, nth j xs NaN = Num x /\ 0 <= x /\ ((100 <= j)%nat -> x = 0)) ->
  (1002 <= length xs)%nat -> (q <= 90)%nat ->
  np_percentile xs q = Num 0.
Proof.
  intros Hx Hn Hq.
  assert (Hfin : Forall finite xs).
  { apply Forall_nth. intros i d Hi.
    rewrite (nth_indep _ d NaN) by exact Hi.
    destruct (Hx i Hi) as (x & -> & _). exists x. reflexivity. }
  destruct (Forall_finite_map xs Hfin) as [ys ->].
  rewrite length_map in *.
  assert (Hy : forall j, (j < length ys)%nat ->
             0 <= nth j ys 0 /\ ((100 <= j)%nat -> nth j ys 0 = 0)).
  { intros j Hj. destruct (Hx j Hj) as (x & Hnth & Hx0 & Hxz).
    rewrite (nth_indep _ NaN (Num 0)) in Hnth by (rewrite length_map; exact Hj).
    rewrite (map_nth Num ys 0 j) in Hnth. inversion Hnth; subst. auto. }
  assert (Hnn : Forall (fun y => 0 <= y) ys).
  { apply Forall_nth. intros i d Hi. rewrite (nth_indep _ d 0) by exact Hi.
    apply Hy. exact Hi. }
  assert (Hz : forall j, (100 <= j < length ys)%nat -> nth j ys 0 = 0).
  { intros j Hj. apply Hy; lia. }
  unfold np_percentile. rewrite finite_values_Num.
  destruct ys as [|y0 ys]; [cbn in Hn; lia|].
  cbv zeta. rewrite sort_length.
  set (n := length (y0 :: ys)) in *.
  assert (Hlo : (100 * ((n - 1) * q / 100) <= (n - 1) * 90)%nat).
  { etransitivity; [apply Nat.Div0.mul_div_le|].
    apply Nat.mul_le_mono_l. exact Hq. }
  set (lo := ((n - 1) * q / 100)%nat) in *.
  rewrite (sorted_sparse (y0 :: ys) 100 lo Hnn Hz) by (fold n; lia).
  rewrite (sorted_sparse (y0 :: ys) 100 (Nat.min (lo + 1) (n - 1)) Hnn Hz)
    by (fold n; lia).
  f_equal. lra.
Qed.

(** The percentiles of an array of positive values are positive. *)
Lemma percentile_positive (xs : list npfloat) (q : nat) :
  Forall positive xs -> xs <> [] -> (q <= 100)%nat ->
  positive (np_percentile xs q).
Proof.
  intros Hp Hne Hq.
  assert (Hfin : Forall finite xs).
  { eapply Forall_impl; [|exact Hp]. intros a. apply positive_finite. }
  destruct (Forall_finite_map xs Hfin) as [ys ->].
  assert (Hys : ys <> []) by (destruct ys; [contradiction|discriminate]).
  destruct (RiskFacts.percentile_above_lower ys q Hys Hq)
    as (v & y & Hv & Hin & Hle).
  rewrite Hv. exists v. split; [reflexivity|].
  eapply Forall_forall in Hp; [|apply in_map; exact Hin].
  destruct Hp as (r & Hr & Hr0). inversion Hr; subst. lra.
Qed.

End ChartFacts.

(** Between the first and the last day, a row of the path matrix of
    [run_monte_carlo_portfolio] holds non-negative values in its first
    hundred columns and zero in the others. *)
Lemma intermediate_row
      (g : rng) (stats : MonteCarlo.statistics) (prices : frame)
      (n_sims horizon_days : nat) (daily_cov chol : list (list npfloat))
      (paths : ndarray2) (individual : ndarray3) (g' : rng) :
  factorize (length (cov (MonteCarlo.returns stats)))
            (cov (MonteCarlo.returns stats)) = inr (daily_cov, chol) ->
  Forall finite (mean (MonteCarlo.returns stats)) ->
  Forall positive (MonteCarlo.latest_prices stats) ->
  Forall positive (MonteCarlo.weights stats) ->
  MonteCarlo.run_monte_carlo_portfolio g stats prices n_sims horizon_days
  = (inr (paths, individual), g') ->
  forall day, (1 <= day < horizon_days)%nat ->
    length (Charts.row2 paths day) = n_sims
    /\ forall sim, (sim < n_sims)%nat ->
         exists x, nth sim (Charts.row2 paths day) NaN = Num x
                   /\ (0 <= x)%R /\ ((100 <= sim)%nat -> x = 0%R).
Proof.
  intros Hf Hmu Hp Hw Hrun day Hday.
  destruct (MonteCarloRun.run_paths g stats prices n_sims horizon_days
                                    daily_cov chol Hf)
    as (paths' & individual' & Hrun' & _ & Hat).
  rewrite Hrun in Hrun'. inversion Hrun'; subst paths' individual'.
  destruct (CrossFacts.monte_carlo_shape _ _ _ _ _ _ _ _ Hrun)
    as (_ & Hcols & _).
  unfold Charts.row2. rewrite Hcols. split.
  - rewrite length_map, length_seq. reflexivity.
  - intros sim Hsim.
    rewrite (ChartFacts.nth_map_seq (fun j => at2 paths day j)) by exact Hsim.
    rewrite Hat. cbv zeta.
    replace (sim <? n_sims)%nat with true by (symmetry; apply Nat.ltb_lt; lia).
    replace (1 <=? day)%nat with true by (symmetry; apply Nat.leb_le; lia).
    replace (day <=? horizon_days)%nat with true
      by (symmetry; apply Nat.leb_le; lia).
    replace (day =? horizon_days)%nat with false
      by (symmetry; apply Nat.eqb_neq; lia).
    replace (day =? 0)%nat with false by (symmetry; apply Nat.eqb_neq; lia).
    destruct (Nat.ltb_spec sim 100) as [Hlt|Hge]; cbn [andb].
    + destruct (FactorFacts.factorize_ok _ _ _ _ Hf) as [Hl _].
      rewrite CrossFacts.value_agree, CrossFacts.shares_agree.
      destruct (ValueFacts.dot_nonneg
                  (MonteCarlo.simulated_prices g stats prices daily_cov chol
                                               horizon_days day sim)
                  (Simulator.shares_of (Num 100000) (MonteCarlo.weights stats)
                                       (MonteCarlo.latest_prices stats)))
        as (x & Hx & Hx0).
      * unfold MonteCarlo.simulated_prices.
        apply Positivity.monte_carlo_prices_positive; try assumption.
        intros s d. unfold MonteCarlo.random_matrix_of.
        apply (Positivity.shocks_finite
                 (fun a => g ((s * horizon_days + d)
                              * length (columns prices) + a)%nat)).
      * apply ValueFacts.shares_positive; [lra|assumption|assumption].
      * exists x. split; [exact Hx|]. split; [exact Hx0|]. lia.
    + exists 0%R. split; [reflexivity|]. split; [lra|reflexivity].
Qed.

(** X10.  When [run_monte_carlo_portfolio] is run with 1002 simulations
    or more (its default is 5000) on positive prices and weights, the
    percentile bands that [create_visualizations] computes from its path
    matrix are exactly zero on every day strictly between the first and
    the last: the matrix holds intermediate values for the first hundred
    simulations only, and the zeros of the others fill every percentile
    up to the ninetieth. *)
Theorem fan_chart_bands_vanish_between_endpoints
        (g : rng) (stats : MonteCarlo.statistics) (prices : frame)
        (n_sims horizon_days : nat)
        (daily_cov chol : list (list npfloat)) :
  factorize (length (cov (MonteCarlo.returns stats)))
            (cov (MonteCarlo.returns stats)) = inr (daily_cov, chol) ->
  Forall finite (mean (MonteCarlo.returns stats)) ->
  Forall positive (MonteCarlo.latest_prices stats) ->
  Forall positive (MonteCarlo.weights stats) ->
  (1002 <= n_sims)%nat ->
  exists paths individual g',
    MonteCarlo.run_monte_carlo_portfolio g stats prices n_sims horizon_days
    = (inr (paths, individual), g')
    /\ forall day, (1 <= day < horizon_days)%nat ->
         nth day (MonteCarloCharts.p10
                    (MonteCarloCharts.create_visualizations paths)) NaN
         = Num 0
         /\ nth day (MonteCarloCharts.p25
                       (MonteCarloCharts.create_visualizations paths)) NaN
            = Num 0
         /\ nth day (MonteCarloCharts.p50
                       (MonteCarloCharts.create_visualizations paths)) NaN
            = Num 0
         /\ nth day (MonteCarloCharts.p75
                       (MonteCarloCharts.create_visualizations paths)) NaN
            = Num 0
         /\ nth day (MonteCarloCharts.p90
                       (MonteCarloCharts.create_visualizations paths)) NaN
            = Num 0.
Proof.
  intros Hf Hmu Hp Hw Hn.
  destruct (MonteCarloRun.run_paths g stats prices n_sims horizon_days
                                    daily_cov chol Hf)
    as (paths & individual & Hrun & Hrows & _).
  exists paths, individual. eexists. split; [exact Hrun|].
  intros day Hday.
  destruct (intermediate_row g stats prices n_sims horizon_days daily_cov chol
              paths individual _ Hf Hmu Hp Hw Hrun day Hday) as (Hlen & Hrow).
  assert (Hq : forall q, (q <= 90)%nat ->
             nth day (Charts.np_percentile_axis1 paths q) NaN = Num 0).
  { intros q Hq. rewrite ChartFacts.nth_axis1 by lia.
    apply ChartFacts.percentile_sparse; [|lia|exact Hq].
    intros j Hj. apply Hrow. lia. }
  cbn [MonteCarloCharts.create_visualizations MonteCarloCharts.p10
       MonteCarloCharts.p25 MonteCarloCharts.p50 MonteCarloCharts.p75
       MonteCarloCharts.p90].
  repeat split; apply Hq; lia.
Qed.

Lemma fan_chart_bands_vanish_between_endpoints_witness :
  exists paths individual g',
    MonteCarlo.run_monte_carlo_portfolio Sample.steady Sample.flat_stats
                                         Sample.flat_prices 1002 2
    = (inr (paths, individual), g')
    /\ forall day, (1 <= day < 2)%nat ->
         nth day (MonteCarloCharts.p10
                    (MonteCarloCharts.create_visualizations paths)) NaN
         = Num 0
         /\ nth day (MonteCarloCharts.p25
                       (MonteCarloCharts.create_visualizations paths)) NaN
            = Num 0
         /\ nth day (MonteCarloCharts.p50
                       (MonteCarloCharts.create_visualizations paths)) NaN
            = Num 0
         /\ nth day (MonteCarloCharts.p75
                       (MonteCarloCharts.create_visualizations paths)) NaN
            = Num 0
         /\ nth day (MonteCarloCharts.p90
                       (MonteCarloCharts.create_visualizations paths)) NaN
            = Num 0.
Proof.
  assert (Hone : Forall positive [Num 1]).
  { repeat constructor. exists 1%R. split; [reflexivity|lra]. }
  apply (fan_chart_bands_vanish_between_endpoints
           Sample.steady Sample.flat_stats Sample.flat_prices 1002 2
           [[Num Factor.epsilon]] [[Num (sqrt Factor.epsilon)]]).
  - change (MonteCarlo.returns Sample.flat_stats) with Sample.flat_returns.
    rewrite SampleFacts.flat_cov. exact SampleFacts.factorize_zero.
  - change (MonteCarlo.returns Sample.flat_stats) with Sample.flat_returns.
    rewrite SampleFacts.flat_mean. repeat constructor. exists 0%R. reflexivity.
  - exact Hone.
  - exact Hone.
  - lia.
Defined.



(** ** The percentile ladder *)

Module LadderFacts.
Import NumPy NumPyFacts Order StatsFacts.
Local Open Scope R_scope.

Lemma INR_100 : INR 100 = 100.
Proof. rewrite INR_IZR_INZ. reflexivity. Qed.

(** The linear-interpolation percentile does not decrease with [q]. *)
Lemma percentile_monotone (ys : list R) (q q' : nat) :
  ys <> [] -> (q <= q')%nat -> (q' <= 100)%nat ->
  exists v v',
    np_percentile (map Num ys) q = Num v
    /\ np_percentile (map Num ys) q' = Num v'
    /\ v <= v'.
Proof.
  intros Hys Hqq Hq. unfold np_percentile. rewrite finite_values_Num.
  destruct ys as [|y0 ys]; [contradiction|].
  pose proof (sort_length (y0 :: ys)) as Hn.
  pose proof (sort_ascending (y0 :: ys)) as Hasc.
  cbv zeta. generalize dependent (sort (y0 :: ys)). intros s Hn Hasc.
  set (n := length s) in *.
  assert (Hn0 : (0 < n)%nat) by (cbn [length] in Hn; lia).
  set (pos := ((n - 1) * q)%nat).
  set (pos' := ((n - 1) * q')%nat).
  assert (Hpos : (pos <= pos')%nat) by (apply Nat.mul_le_mono_l; exact Hqq).
  assert (Hlo' : (pos' / 100 <= n - 1)%nat).
  { apply Nat.Div0.div_le_upper_bound.
    rewrite (Nat.mul_comm 100). apply Nat.mul_le_mono_l. exact Hq. }
  assert (Hlolo : (pos / 100 <= pos' / 100)%nat)
    by (apply Nat.Div0.div_le_mono; exact Hpos).
  pose proof (Nat.div_mod_eq pos 100) as Hd.
  pose proof (Nat.div_mod_eq pos' 100) as Hd'.
  pose proof (Nat.mod_upper_bound pos 100 ltac:(lia)) as Hr.
  pose proof (Nat.mod_upper_bound pos' 100 ltac:(lia)) as Hr'.
  set (lo := (pos / 100)%nat) in *.
  set (lo' := (pos' / 100)%nat) in *.
  set (r := (pos mod 100)%nat) in *.
  set (r' := (pos' mod 100)%nat) in *.
  assert (Hg : 0 <= INR r / 100 <= 1).
  { pose proof (pos_INR r). apply lt_INR in Hr.
    rewrite INR_100 in Hr. lra. }
  assert (Hg' : 0 <= INR r' / 100 <= 1).
  { pose proof (pos_INR r'). apply lt_INR in Hr'.
    rewrite INR_100 in Hr'. lra. }
  assert (Hle : nth lo s 0 <= nth (Nat.min (lo + 1) (n - 1)) s 0).
  { apply ascending_nth; [exact Hasc|]. fold n. lia. }
  assert (Hle' : nth lo' s 0 <= nth (Nat.min (lo' + 1) (n - 1)) s 0).
  { apply ascending_nth; [exact Hasc|]. fold n. lia. }
  eexists. eexists. split; [reflexivity|]. split; [reflexivity|].
  destruct (Nat.eq_dec lo lo') as [Heq|Hneq].
  - rewrite <- Heq in *.
    assert (Hrr : INR r <= INR r') by (apply le_INR; lia).
    nra.
  - assert (Hhi : nth (Nat.min (lo + 1) (n - 1)) s 0 <= nth lo' s 0).
    { apply ascending_nth; [exact Hasc|]. fold n. lia. }
    nra.
Qed.

End LadderFacts.

(** X12.  On finite terminal values the risk figures come out in order:
    in the report of [analyze_results] and in the figures of
    [display_results] the 1% VaR is at most the 5% VaR, which is at most
    the median return, and the entries of the percentile dictionary of
    [analyze_results] do not decrease with their keys. *)
Theorem risk_figures_are_ordered
        (portfolio_paths : ndarray2) (fs : list R)
        (batch : Simulator.simulation) (rs : list R) :
  (last_row2 portfolio_paths = map Num fs -> fs <> [] ->
   let results := MonteCarlo.analyze_results portfolio_paths in
   (exists v1 v5 m,
      MonteCarlo.var_1 results = Num v1
      /\ MonteCarlo.var_5 results = Num v5
      /\ MonteCarlo.median_return results = Num m
      /\ (v1 <= v5 <= m)%R)
   /\ forall q q' a b,
        In (q, a) (MonteCarlo.percentiles results) ->
        In (q', b) (MonteCarlo.percentiles results) ->
        (q <= q')%nat ->
        exists x y, a = Num x /\ b = Num y /\ (x <= y)%R)
  /\ (Simulator.sim_returns batch = map Num rs -> rs <> [] ->
      exists v1 v5 m,
        Simulator.var_1 (Simulator.display_results batch) = Num v1
        /\ Simulator.var_5 (Simulator.display_results batch) = Num v5
        /\ Simulator.median_return (Simulator.display_results batch) = Num m
        /\ (v1 <= v5 <= m)%R).
Proof.
  assert (Hthree : forall ys : list R, ys <> [] ->
            exists v1 v5 m,
              np_percentile (map Num ys) 1 = Num v1
              /\ np_percentile (map Num ys) 5 = Num v5
              /\ np_median (map Num ys) = Num m
              /\ (v1 <= v5 <= m)%R).
  { intros ys Hys.
    destruct (LadderFacts.percentile_monotone ys 1 5 Hys ltac:(lia) ltac:(lia))
      as (v1 & v5 & H1 & H5 & H15).
    destruct (LadderFacts.percentile_monotone ys 5 50 Hys ltac:(lia) ltac:(lia))
      as (v5' & m & H5' & Hm & H5m).
    rewrite H5 in H5'. inversion H5'; subst v5'.
    rewrite RiskFacts.percentile_50_median in Hm.
    exists v1, v5, m. repeat split; assumption. }
  split.
  - intros Hlast Hfs results.
    assert (Hrets : MonteCarlo.sim_returns results
                    = map Num (map (fun x => (x / 100000 - 1)%R) fs)).
    { unfold results. cbn [MonteCarlo.analyze_results MonteCarlo.sim_returns].
      rewrite Hlast. apply RiskFacts.finite_returns. }
    assert (Hne : map (fun x => (x / 100000 - 1)%R) fs <> [])
      by (destruct fs; [contradiction|discriminate]).
    split.
    + destruct (Hthree _ Hne) as (v1 & v5 & m & H1 & H5 & Hm & Hord).
      exists v1, v5, m.
      change (MonteCarlo.var_1 results)
        with (np_percentile (MonteCarlo.sim_returns results) 1).
      change (MonteCarlo.var_5 results)
        with (np_percentile (MonteCarlo.sim_returns results) 5).
      change (MonteCarlo.median_return results)
        with (np_median (MonteCarlo.sim_returns results)).
      rewrite Hrets. repeat split; assumption || apply Hord.
    + intros q q' a b Ha Hb Hqq.
      change (MonteCarlo.percentiles results)
        with (map (fun q => (q, np_percentile (MonteCarlo.sim_returns results) q))
                  MonteCarlo.ladder) in Ha, Hb.
      rewrite Hrets in Ha, Hb.
      apply in_map_iff in Ha. destruct Ha as (q0 & Ha & _).
      apply in_map_iff in Hb. destruct Hb as (q1 & Hb & Hin).
      inversion Ha; subst. inversion Hb; subst.
      assert (Hq' : (q' <= 100)%nat).
      { unfold MonteCarlo.ladder in Hin. cbn in Hin.
        repeat (destruct Hin as [Hin|Hin]; [lia|]). contradiction. }
      destruct (LadderFacts.percentile_monotone _ q q' Hne Hqq Hq')
        as (x & y & Hx & Hy & Hxy).
      exists x, y. repeat split; assumption.
  - intros Hrets Hrs.
    destruct (Hthree _ Hrs) as (v1 & v5 & m & H1 & H5 & Hm & Hord).
    exists v1, v5, m.
    cbn [Simulator.display_results Simulator.var_1 Simulator.var_5
         Simulator.median_return].
    rewrite Hrets. repeat split; assumption || apply Hord.
Qed.

Lemma risk_figures_are_ordered_witness :
  (let results := MonteCarlo.analyze_results Sample.halved in
   (exists v1 v5 m,
      MonteCarlo.var_1 results = Num v1
      /\ MonteCarlo.var_5 results = Num v5
      /\ MonteCarlo.median_return results = Num m
      /\ (v1 <= v5 <= m)%R)
   /\ forall q q' a b,
        In (q, a) (MonteCarlo.percentiles results) ->
        In (q', b) (MonteCarlo.percentiles results) ->
        (q <= q')%nat ->
        exists x y, a = Num x /\ b = Num y /\ (x <= y)%R)
  /\ exists v1 v5 m,
       Simulator.var_1 (Simulator.display_results Sample.halved_simulation)
       = Num v1
       /\ Simulator.var_5 (Simulator.display_results Sample.halved_simulation)
          = Num v5
       /\ Simulator.median_return
            (Simulator.display_results Sample.halved_simulation) = Num m
       /\ (v1 <= v5 <= m)%R.
Proof.
  destruct (risk_figures_are_ordered Sample.halved [50000%R]
              Sample.halved_simulation [(-1 / 2)%R]) as [Hmc Hsim].
  split.
  - apply Hmc; [reflexivity|discriminate].
  - apply Hsim; [reflexivity|discriminate].
Defined.

(** ** The printed dollar figures *)

Module PrintedFacts.
Import NumPy NumPyFacts Order StatsFacts Printed.
Local Open Scope R_scope.

Section Increasing.
Variable f : R -> R.
Hypothesis f_increasing : forall x y, x <= y <-> f x <= f y.

Lemma insert_map (x : R) (l : list R) :
  insert (f x) (map f l) = map f (insert x l).
Proof.
  induction l as [|y l IH]; [reflexivity|].
  cbn [map insert].
  destruct (Rle_dec (f x) (f y)) as [H|H], (Rle_dec x y) as [H'|H'].
  - reflexivity.
  - apply f_increasing in H. contradiction.
  - apply f_increasing in H'. contradiction.
  - cbn [map]. rewrite IH. reflexivity.
Qed.

Lemma sort_map (l : list R) : sort (map f l) = map f (sort l).
Proof.
  induction l as [|x l IH]; [reflexivity|].
  cbn [map sort]. rewrite IH. apply insert_map.
Qed.
End Increasing.

Lemma to_return_increasing (x y : R) : x <= y <-> to_return x <= to_return y.
Proof. unfold to_return. lra. Qed.

(** The percentile of a non-empty array of finite values. *)
Lemma percentile_of_reals (ys : list R) (q : nat) :
  ys <> [] ->
  np_percentile (map Num ys) q
  = Num (nth ((length ys - 1) * q / 100) (sort ys) 0
         + (nth (Nat.min ((length ys - 1) * q / 100 + 1) (length ys - 1))
                (sort ys) 0
            - nth ((length ys - 1) * q / 100) (sort ys) 0)
           * (INR ((length ys - 1) * q mod 100) / 100)).
Proof.
  intros Hys. unfold np_percentile. rewrite finite_values_Num.
  destruct ys as [|y ys]; [contradiction|].
  cbv zeta. rewrite sort_length. reflexivity.
Qed.

(** A percentile of the returns is the return of that percentile of the
    terminal values. *)
Lemma percentile_of_returns (fs : list R) (q : nat) :
  fs <> [] -> (q <= 100)%nat ->
  exists p,
    np_percentile (map Num fs) q = Num p
    /\ np_percentile (map Num (map to_return fs)) q = Num (to_return p).
Proof.
  intros Hfs Hq.
  assert (Hne : map to_return fs <> [])
    by (destruct fs; [contradiction|discriminate]).
  rewrite (percentile_of_reals fs q Hfs).
  rewrite (percentile_of_reals (map to_return fs) q Hne).
  rewrite (sort_map to_return to_return_increasing), length_map.
  assert (Hn0 : (0 < length fs)%nat)
    by (destruct fs; [contradiction|cbn; lia]).
  set (n := length fs) in *.
  set (lo := ((n - 1) * q / 100)%nat).
  assert (Hlo : (lo <= n - 1)%nat).
  { unfold lo. apply Nat.Div0.div_le_upper_bound.
    rewrite (Nat.mul_comm 100). apply Nat.mul_le_mono_l. exact Hq. }
  eexists. split; [reflexivity|].
  rewrite (nth_indep (map to_return (sort fs)) 0 (to_return 0))
    by (rewrite length_map, sort_length; fold n; lia).
  rewrite (nth_indep (map to_return (sort fs)) 0 (to_return 0))
    by (rewrite length_map, sort_length; fold n; lia).
  rewrite !map_nth. f_equal. unfold to_return. field.
Qed.

Lemma rsum_to_return (fs : list R) :
  rsum (map to_return fs) = rsum fs / 100000 - INR (length fs).
Proof.
  induction fs as [|x fs IH].
  - cbn. lra.
  - cbn [map rsum length]. rewrite IH, S_INR. unfold to_return. lra.
Qed.

Lemma percentile_at_ladder (rets : list npfloat) (q : nat) :
  In q MonteCarlo.ladder ->
  Printed.percentile_at
    (map (fun q => (q, np_percentile rets q)) MonteCarlo.ladder) q
  = inr (np_percentile rets q).
Proof.
  unfold MonteCarlo.ladder. cbn [In].
  intros H. repeat (destruct H as [<-|H]; [reflexivity|]). contradiction.
Qed.

End PrintedFacts.

(** X13.  On a report of [analyze_results] with finite terminal values,
    the dollar figures that [print_detailed_results] prints are
    consistent with the return figures: the expected and the median value
    are 100000 times one plus the mean and the median return, and the
    best and worst case values, computed as [percentile * 100000 +
    100000] from the return percentiles 95 and 5, are the percentiles 95
    and 5 of the terminal values themselves. *)
Theorem printed_values_match_returns
        (portfolio_paths : ndarray2) (fs : list R) :
  last_row2 portfolio_paths = map Num fs ->
  fs <> [] ->
  let results := MonteCarlo.analyze_results portfolio_paths in
  exists printed mean_r median_r,
    Printed.print_detailed_results results = inr printed
    /\ MonteCarlo.mean_return results = Num mean_r
    /\ MonteCarlo.median_return results = Num median_r
    /\ Printed.expected_value printed = Num (100000 * (1 + mean_r))
    /\ Printed.median_value printed = Num (100000 * (1 + median_r))
    /\ Printed.best_case_value printed
       = np_percentile (MonteCarlo.final_values results) 95
    /\ Printed.worst_case_value printed
       = np_percentile (MonteCarlo.final_values results) 5
    /\ Printed.best_case_return printed
       = np_percentile (MonteCarlo.sim_returns results) 99
    /\ Printed.worst_case_return printed
       = np_percentile (MonteCarlo.sim_returns results) 1.
Proof.
  intros Hlast Hfs results.
  assert (Hfin : MonteCarlo.final_values results = map Num fs) by exact Hlast.
  assert (Hrets : MonteCarlo.sim_returns results
                  = map Num (map Printed.to_return fs)).
  { unfold results. cbn [MonteCarlo.analyze_results MonteCarlo.sim_returns].
    rewrite Hlast. apply RiskFacts.finite_returns. }
  assert (Hne : map Printed.to_return fs <> [])
    by (destruct fs; [contradiction|discriminate]).
  assert (Hlen : INR (length fs) <> 0%R).
  { apply not_0_INR. destruct fs; [contradiction|discriminate]. }
  unfold Printed.print_detailed_results.
  change (MonteCarlo.percentiles results)
    with (map (fun q => (q, np_percentile (MonteCarlo.sim_returns results) q))
              MonteCarlo.ladder).
  rewrite !PrintedFacts.percentile_at_ladder
    by (unfold MonteCarlo.ladder; cbn; tauto).
  unfold bind, ret.
  destruct (PrintedFacts.percentile_of_returns fs 50 Hfs ltac:(lia))
    as (p50 & Hp50 & Hr50).
  destruct (PrintedFacts.percentile_of_returns fs 95 Hfs ltac:(lia))
    as (p95 & Hp95 & Hr95).
  destruct (PrintedFacts.percentile_of_returns fs 5 Hfs ltac:(lia))
    as (p5 & Hp5 & Hr5).
  eexists. exists (Order.rsum (map Printed.to_return fs)
                   / INR (length (map Printed.to_return fs)))%R.
  exists (Printed.to_return p50).
  split; [reflexivity|].
  cbn [Printed.expected_value Printed.median_value Printed.best_case_value
       Printed.worst_case_value Printed.best_case_return
       Printed.worst_case_return].
  change (MonteCarlo.mean_return results)
    with (np_mean (MonteCarlo.sim_returns results)).
  change (MonteCarlo.median_return results)
    with (np_median (MonteCarlo.sim_returns results)).
  rewrite Hfin, Hrets.
  rewrite <- !RiskFacts.percentile_50_median, Hp50, Hr50, Hp95, Hr95, Hp5, Hr5.
  rewrite !StatsFacts.np_mean_Num by assumption.
  rewrite PrintedFacts.rsum_to_return, length_map.
  unfold Printed.to_return. cbn [fmul fadd lift2].
  repeat split; f_equal; field; exact Hlen.
Qed.

Lemma printed_values_match_returns_witness :
  let results := MonteCarlo.analyze_results Sample.halved in
  exists printed mean_r median_r,
    Printed.print_detailed_results results = inr printed
    /\ MonteCarlo.mean_return results = Num mean_r
    /\ MonteCarlo.median_return results = Num median_r
    /\ Printed.expected_value printed = Num (100000 * (1 + mean_r))
    /\ Printed.median_value printed = Num (100000 * (1 + median_r))
    /\ Printed.best_case_value printed
       = np_percentile (MonteCarlo.final_values results) 95
    /\ Printed.worst_case_value printed
       = np_percentile (MonteCarlo.final_values results) 5
    /\ Printed.best_case_return printed
       = np_percentile (MonteCarlo.sim_returns results) 99
    /\ Printed.worst_case_return printed
       = np_percentile (MonteCarlo.sim_returns results) 1.
Proof.
  apply (printed_values_match_returns Sample.halved [50000%R]).
  - reflexivity.
  - discriminate.
Defined.

(** ** The historical metrics *)

Module MetricsFacts.
Import NumPy NumPyFacts Order StatsFacts Pandas Linear.
Local Open Scope R_scope.

Lemma rsum_map_zero {A} (l : list A) : rsum (map (fun _ => 0) l) = 0.
Proof. induction l as [|a l IH]; cbn; lra. Qed.

Lemma rsum_map_plus {A} (f g : A -> R) (l : list A) :
  rsum (map (fun a => f a + g a) l) = rsum (map f l) + rsum (map g l).
Proof. induction l as [|a l IH]; cbn; lra. Qed.

Lemma rsum_map_scale {A} (f : A -> R) (c : R) (l : list A) :
  rsum (map (fun a => f a * c) l) = rsum (map f l) * c.
Proof. induction l as [|a l IH]; cbn; lra. Qed.

Lemma rsum_map_ext {A} (f g : A -> R) (l : list A) :
  (forall a, In a l -> f a = g a) -> rsum (map f l) = rsum (map g l).
Proof. intros H. f_equal. apply map_ext_in. exact H. Qed.

(** Two finite sums can be taken in either order. *)
Lemma rsum_exchange {A B} (F : A -> B -> R) (la : list A) (lb : list B) :
  rsum (map (fun a => rsum (map (F a) lb)) la)
  = rsum (map (fun b => rsum (map (fun a => F a b) la)) lb).
Proof.
  induction la as [|a la IH]; cbn [map rsum].
  - rewrite rsum_map_zero. reflexivity.
  - rewrite IH, <- rsum_map_plus. reflexivity.
Qed.

Lemma weighted_seq (ws r : list R) (n : nat) :
  length r = n -> length ws = n ->
  weighted ws r = rsum (map (fun j => nth j r 0 * nth j ws 0) (seq 0 n)).
Proof.
  unfold weighted. revert ws r.
  induction n as [|n IH]; intros [|w ws] [|x r] Hr Hw; cbn in Hr, Hw;
    try discriminate.
  - reflexivity.
  - cbn [map2 rsum seq map nth]. rewrite <- seq_shift. rewrite map_map.
    rewrite (IH ws r) by lia. reflexivity.
Qed.

(** The sum of the weighted rows is the weighted sum of the column sums. *)
Lemma weighted_rows (rs : list (list R)) (ws : list R) (n : nat) :
  Forall (fun r => length r = n) rs -> length ws = n ->
  rsum (map (weighted ws) rs)
  = rsum (map (fun j => rsum (col j rs) * nth j ws 0) (seq 0 n)).
Proof.
  intros Hrs Hws.
  rewrite (rsum_map_ext (weighted ws)
             (fun r => rsum (map (fun j => nth j r 0 * nth j ws 0) (seq 0 n)))).
  - rewrite (rsum_exchange (fun r j => nth j r 0 * nth j ws 0)).
    apply rsum_map_ext. intros j _. unfold col.
    apply (rsum_map_scale (fun r => nth j r 0)).
  - intros r Hr. eapply Forall_forall in Hrs; [|exact Hr].
    apply weighted_seq; assumption.
Qed.

Lemma dot_of_reals (xs ys : list R) :
  dot (map Num xs) (map Num ys) = Num (rsum (map2 Rmult xs ys)).
Proof.
  revert ys. induction xs as [|x xs IH]; intros [|y ys]; cbn [map dot map2 rsum];
    try reflexivity.
  rewrite IH. reflexivity.
Qed.

(** On finite values [Series.sum] has nothing to skip. *)
Lemma series_sum_Num (xs : list R) : series_sum (map Num xs) = Num (rsum xs).
Proof.
  unfold series_sum.
  replace (filter (fun x => negb (isnan x)) (map Num xs)) with (map Num xs).
  - apply np_sum_Num.
  - induction xs as [|x xs IH]; [reflexivity|].
    cbn [map filter isnan negb]. rewrite <- IH. reflexivity.
Qed.

Lemma weighted_row_of_reals (ws r : list R) :
  series_sum (map2 fmul (map Num r) (map Num ws)) = Num (weighted ws r).
Proof.
  rewrite (CovarianceFacts.map2_of_reals fmul Rmult) by reflexivity.
  apply series_sum_Num.
Qed.

(** The column means of a table of finite values. *)
Lemma mean_of_reals (df : frame) (rs : list (list R)) :
  rows df = map (map Num) rs ->
  Forall (fun r => length r = length (columns df)) rs ->
  rs <> [] ->
  mean df
  = map Num (map (fun j => rsum (col j rs) / INR (length rs))
                 (seq 0 (length (columns df)))).
Proof.
  intros Hrows Hlen Hne. unfold mean. rewrite map_map.
  apply map_ext_in. intros j Hj. apply in_seq in Hj.
  rewrite (ReturnsFacts.column_of_reals df rs j Hrows).
  - fold (col j rs). rewrite np_mean_Num.
    + unfold col. rewrite length_map. reflexivity.
    + unfold col. destruct rs; [contradiction|discriminate].
  - eapply Forall_impl; [|exact Hlen]. intros r Hr. cbn in Hr. lia.
Qed.

(** The figures of [calculate_portfolio_statistics]. *)
Lemma statistics_figures (prices : frame) (portfolio : list (string * npfloat))
      (initial_investment : npfloat) (stats : MonteCarlo.statistics) :
  MonteCarlo.calculate_portfolio_statistics prices portfolio
                                            initial_investment = inr stats ->
  MonteCarlo.mean_returns stats
  = map (fun m => fmul m (Num 252)) (mean (log_returns prices))
  /\ MonteCarlo.cov_matrix stats
     = mat_scale (cov (log_returns prices)) (Num 252)
  /\ MonteCarlo.portfolio_return stats
     = series_sum (map2 fmul (MonteCarlo.weights stats)
                    (MonteCarlo.mean_returns stats))
  /\ MonteCarlo.portfolio_volatility stats
     = fsqrt (dot (MonteCarlo.weights stats)
                  (matvec (MonteCarlo.cov_matrix stats)
                          (MonteCarlo.weights stats))).
Proof.
  unfold MonteCarlo.calculate_portfolio_statistics, bind.
  destruct (MonteCarlo.weights_of portfolio (columns prices)) as [|ws];
    [discriminate|].
  destruct (iloc_last prices) as [|latest]; [discriminate|].
  intros H. inversion H; subst; clear H. cbn. repeat split.
Qed.

(** The historical return of the portfolio, in both scripts. *)
Lemma historical_return (df : frame) (rs : list (list R)) (ws : list R) :
  rows df = map (map Num) rs ->
  Forall (fun r => length r = length (columns df)) rs ->
  rs <> [] ->
  length ws = length (columns df) ->
  fmul (np_mean (map (fun r => series_sum (map2 fmul r (map Num ws))) (rows df)))
       (Num 252)
  = series_sum (map2 fmul (map Num ws)
                 (map (fun m => fmul m (Num 252)) (mean df)))
  /\ finite (fmul (np_mean (map (fun r => series_sum (map2 fmul r (map Num ws)))
                                (rows df)))
                  (Num 252)).
Proof.
  intros Hrows Hlen Hne Hws.
  assert (Hm : INR (length rs) <> 0).
  { apply not_0_INR. destruct rs; [contradiction|discriminate]. }
  assert (Hleft :
            fmul (np_mean (map (fun r => series_sum (map2 fmul r (map Num ws)))
                               (rows df))) (Num 252)
            = Num (rsum (map (weighted ws) rs) / INR (length rs) * 252)).
  { rewrite Hrows, map_map.
    rewrite (map_ext _ (fun r => Num (weighted ws r)))
      by (intros r; apply weighted_row_of_reals).
    rewrite <- (map_map (weighted ws) Num).
    rewrite np_mean_Num by (destruct rs; [contradiction|discriminate]).
    rewrite length_map. reflexivity. }
  split; [|rewrite Hleft; eexists; reflexivity].
  rewrite Hleft, (mean_of_reals df rs Hrows Hlen Hne).
  rewrite map_map.
  rewrite <- (map_map (fun x => x * 252) Num).
  rewrite (CovarianceFacts.map2_of_reals fmul Rmult) by reflexivity.
  rewrite series_sum_Num. f_equal.
  fold (weighted (map (fun x => x * 252)
                      (map (fun j => rsum (col j rs) / INR (length rs))
                           (seq 0 (length (columns df))))) ws).
  rewrite (weighted_seq _ ws (length (columns df)))
    by (try rewrite !length_map, length_seq; auto).
  rewrite (weighted_rows rs ws (length (columns df)) Hlen Hws).
  unfold Rdiv. rewrite Rmult_assoc.
  rewrite <- (rsum_map_scale _ (/ INR (length rs) * 252)).
  apply rsum_map_ext. intros j Hj. apply in_seq in Hj.
  rewrite map_map.
  rewrite (ChartFacts.nth_map_seq
             (fun j => rsum (col j rs) * / INR (length rs) * 252)) by lia.
  lra.
Qed.

End MetricsFacts.

Module VolatilityFacts.
Import NumPy NumPyFacts Order StatsFacts Pandas Linear MetricsFacts.
Local Open Scope R_scope.

Lemma rsum_map_minus {A} (f g : A -> R) (l : list A) :
  rsum (map f l) - rsum (map g l) = rsum (map (fun a => f a - g a) l).
Proof. induction l as [|a l IH]; cbn; lra. Qed.

Lemma rsum_map_scale_l {A} (f : A -> R) (c : R) (l : list A) :
  rsum (map (fun a => c * f a) l) = c * rsum (map f l).
Proof. induction l as [|a l IH]; cbn; lra. Qed.

Lemma rsum_map_nonneg {A} (f : A -> R) (l : list A) :
  (forall a, 0 <= f a) -> 0 <= rsum (map f l).
Proof.
  intros H. induction l as [|a l IH]; cbn; [lra|]. pose proof (H a). lra.
Qed.

Lemma rsum_product {A B} (f : A -> R) (g : B -> R)
      (la : list A) (lb : list B) :
  rsum (map f la) * rsum (map g lb)
  = rsum (map (fun a => rsum (map (fun b => f a * g b) lb)) la).
Proof.
  rewrite <- (rsum_map_scale f (rsum (map g lb))).
  apply rsum_map_ext. intros a _. symmetry. apply rsum_map_scale_l.
Qed.

Lemma map2_map {A} (g : R -> R -> R) (f1 f2 : A -> R) (l : list A) :
  map2 g (map f1 l) (map f2 l) = map (fun a => g (f1 a) (f2 a)) l.
Proof. induction l as [|a l IH]; cbn; [reflexivity|]. rewrite IH. reflexivity. Qed.

Section Variance.
Variables (rs : list (list R)) (ws : list R) (n : nat).
Hypothesis rows_wide : Forall (fun r => length r = n) rs.
Hypothesis weights_wide : length ws = n.

Lemma pbar_weighted :
  pbar ws rs = rsum (map (fun j => mu rs j * nth j ws 0) (seq 0 n)).
Proof.
  unfold pbar. rewrite (weighted_rows rs ws n rows_wide weights_wide).
  unfold Rdiv. rewrite <- rsum_map_scale.
  apply rsum_map_ext. intros j _. unfold mu, Rdiv. ring.
Qed.

Lemma deviation (r : list R) :
  In r rs ->
  weighted ws r - pbar ws rs
  = rsum (map (fun j => (nth j r 0 - mu rs j) * nth j ws 0) (seq 0 n)).
Proof.
  intros Hr.
  pose proof (proj1 (Forall_forall _ _) rows_wide r Hr) as Hwide.
  cbn beta in Hwide.
  rewrite (weighted_seq ws r n Hwide weights_wide), pbar_weighted.
  rewrite rsum_map_minus. apply rsum_map_ext. intros j _. ring.
Qed.

(** The squared deviations of the weighted rows, by pairs of columns. *)
Lemma variance_expand :
  rsum (map (fun r => (weighted ws r - pbar ws rs)
                      * (weighted ws r - pbar ws rs)) rs)
  = rsum (map (fun i =>
                 rsum (map (fun j => nth i ws 0 * nth j ws 0 * comoment rs i j)
                           (seq 0 n)))
              (seq 0 n)).
Proof.
  set (d := fun (r : list R) (j : nat) => (nth j r 0 - mu rs j) * nth j ws 0).
  rewrite (rsum_map_ext _
             (fun r => rsum (map (fun i =>
                                    rsum (map (fun j => d r i * d r j)
                                              (seq 0 n)))
                                 (seq 0 n)))).
  - rewrite (rsum_exchange
               (fun r i => rsum (map (fun j => d r i * d r j) (seq 0 n)))).
    apply rsum_map_ext. intros i _.
    rewrite (rsum_exchange (fun r j => d r i * d r j)).
    apply rsum_map_ext. intros j _.
    unfold comoment. rewrite <- rsum_map_scale_l.
    apply rsum_map_ext. intros r _. unfold d. ring.
  - intros r Hr. rewrite (deviation r Hr). fold (d r).
    apply (rsum_product (d r) (d r)).
Qed.

(** The quadratic form of the annualised covariance in the weights. *)
Lemma quadratic_form :
  rsum (map (fun i =>
               nth i ws 0
               * rsum (map (fun j =>
                              comoment rs i j / (INR (length rs) - 1) * 252
                              * nth j ws 0)
                           (seq 0 n)))
            (seq 0 n))
  = variance ws rs * 252.
Proof.
  unfold variance. rewrite variance_expand.
  unfold Rdiv. rewrite Rmult_assoc.
  rewrite <- (rsum_map_scale _ (/ (INR (length rs) - 1) * 252)).
  apply rsum_map_ext. intros i _.
  rewrite <- rsum_map_scale_l.
  rewrite <- (rsum_map_scale _ (/ (INR (length rs) - 1) * 252)).
  apply rsum_map_ext. intros j _. ring.
Qed.
End Variance.

Lemma variance_nonneg (ws : list R) (rs : list (list R)) :
  (2 <= length rs)%nat -> 0 <= variance ws rs.
Proof.
  intros Hm. unfold variance.
  assert (1 < INR (length rs)).
  { apply le_INR in Hm. cbn in Hm. lra. }
  apply Rmult_le_pos.
  - apply rsum_map_nonneg. intros r. apply Rle_0_sqr.
  - apply Rlt_le, Rinv_0_lt_compat. lra.
Qed.

(** [Series.std] of the weighted rows. *)
Lemma std_of_weighted (ws : list R) (rs : list (list R)) :
  (2 <= length rs)%nat ->
  Metrics.std (map Num (map (weighted ws) rs)) = Num (sqrt (variance ws rs)).
Proof.
  intros Hm. unfold Metrics.std.
  rewrite CovarianceFacts.cov_entry_of_reals
    by (rewrite ?length_map; auto).
  rewrite map2_map, !length_map.
  apply fsqrt_pos. apply (variance_nonneg ws rs Hm).
Qed.

(** [df.cov()] of a table of finite values with two rows or more. *)
Lemma cov_of_reals (df : frame) (rs : list (list R)) :
  rows df = map (map Num) rs ->
  Forall (fun r => length r = length (columns df)) rs ->
  (2 <= length rs)%nat ->
  cov df
  = map (fun i =>
           map Num (map (fun j => comoment rs i j / (INR (length rs) - 1))
                        (seq 0 (length (columns df)))))
        (seq 0 (length (columns df))).
Proof.
  intros Hrows Hlen Hm. unfold cov.
  apply map_ext_in. intros i Hi. apply in_seq in Hi.
  rewrite map_map. apply map_ext_in. intros j Hj. apply in_seq in Hj.
  rewrite (ReturnsFacts.column_of_reals df rs i Hrows)
    by (eapply Forall_impl; [|exact Hlen]; intros r Hr; cbn in Hr; lia).
  rewrite (ReturnsFacts.column_of_reals df rs j Hrows)
    by (eapply Forall_impl; [|exact Hlen]; intros r Hr; cbn in Hr; lia).
  rewrite CovarianceFacts.cov_entry_of_reals
    by (rewrite ?length_map; auto).
  rewrite map2_map, !length_map. reflexivity.
Qed.

(** The historical volatility of the portfolio, in both scripts. *)
Lemma historical_volatility (df : frame) (rs : list (list R)) (ws : list R) :
  rows df = map (map Num) rs ->
  Forall (fun r => length r = length (columns df)) rs ->
  (2 <= length rs)%nat ->
  length ws = length (columns df) ->
  fmul (Metrics.std (map (fun r => series_sum (map2 fmul r (map Num ws)))
                         (rows df)))
       (fsqrt (Num 252))
  = fsqrt (dot (map Num ws)
               (matvec (mat_scale (cov df) (Num 252)) (map Num ws)))
  /\ fmul (Metrics.std (map (fun r => series_sum (map2 fmul r (map Num ws)))
                            (rows df)))
          (fsqrt (Num 252))
     = Num (sqrt (variance ws rs * 252)).
Proof.
  intros Hrows Hlen Hm Hws.
  set (n := length (columns df)) in *.
  pose proof (variance_nonneg ws rs Hm) as Hv.
  assert (Hleft :
            fmul (Metrics.std (map (fun r => series_sum (map2 fmul r (map Num ws)))
                                   (rows df)))
                 (fsqrt (Num 252))
            = Num (sqrt (variance ws rs * 252))).
  { rewrite Hrows, map_map.
    rewrite (map_ext _ (fun r => Num (weighted ws r)))
      by (intros r; apply weighted_row_of_reals).
    rewrite <- (map_map (weighted ws) Num).
    rewrite (std_of_weighted ws rs Hm), fsqrt_pos by lra.
    cbn [fmul lift2]. rewrite sqrt_mult by lra. reflexivity. }
  split; [|exact Hleft].
  rewrite Hleft, (cov_of_reals df rs Hrows Hlen Hm). fold n.
  unfold mat_scale, matvec. rewrite !map_map.
  rewrite (map_ext
             (fun i =>
                dot (map (fun x => fmul x (Num 252))
                         (map Num (map (fun j => comoment rs i j
                                                 / (INR (length rs) - 1))
                                       (seq 0 n))))
                    (map Num ws))
             (fun i =>
                Num (rsum (map (fun j =>
                                  comoment rs i j / (INR (length rs) - 1) * 252
                                  * nth j ws 0)
                               (seq 0 n))))).
  - rewrite <- (map_map
                  (fun i =>
                     rsum (map (fun j =>
                                  comoment rs i j / (INR (length rs) - 1) * 252
                                  * nth j ws 0)
                               (seq 0 n)))
                  Num).
    rewrite dot_of_reals.
    fold (weighted
            (map (fun i =>
                    rsum (map (fun j =>
                                 comoment rs i j / (INR (length rs) - 1) * 252
                                 * nth j ws 0)
                              (seq 0 n)))
                 (seq 0 n)) ws).
    rewrite (weighted_seq _ ws n) by (rewrite ?length_map, ?length_seq; auto).
    rewrite (rsum_map_ext _
               (fun i =>
                  nth i ws 0
                  * rsum (map (fun j =>
                                 comoment rs i j / (INR (length rs) - 1) * 252
                                 * nth j ws 0)
                              (seq 0 n)))).
    + rewrite (quadratic_form rs ws n Hlen Hws).
      symmetry. apply fsqrt_pos. lra.
    + intros i Hi. apply in_seq in Hi.
      rewrite (ChartFacts.nth_map_seq
                 (fun i =>
                    rsum (map (fun j =>
                                 comoment rs i j / (INR (length rs) - 1) * 252
                                 * nth j ws 0)
                              (seq 0 n)))) by lia.
      reflexivity.
  - intros i. rewrite !map_map.
    rewrite <- (map_map (fun j => comoment rs i j / (INR (length rs) - 1) * 252)
                        Num).
    rewrite dot_of_reals.
    fold (weighted ws
            (map (fun j => comoment rs i j / (INR (length rs) - 1) * 252)
                 (seq 0 n))).
    rewrite (weighted_seq ws _ n) by (rewrite ?length_map, ?length_seq; auto).
    f_equal. apply rsum_map_ext. intros j Hj. apply in_seq in Hj.
    rewrite (ChartFacts.nth_map_seq
               (fun j => comoment rs i j / (INR (length rs) - 1) * 252))
      by lia.
    reflexivity.
Qed.

End VolatilityFacts.

(** X14.  The two scripts agree on the historical figures of a
    portfolio.  On a table of finite log returns with at least one row,
    and with the finite weights of the statistics,
    [calculate_portfolio_metrics] of [portfolio_simulator.py] returns, its
    annual return of each asset is that of
    [calculate_portfolio_statistics], and its portfolio return, 252 times
    the mean of the weighted daily returns, is the weighted sum of the
    annual asset returns of the other script.  With two rows or more its
    portfolio volatility, the deviation of the weighted daily returns
    times [sqrt 252], is the square root of the quadratic form of the
    annualised covariance matrix that the other script computes. *)
Theorem historical_figures_agree
        (prices : frame) (portfolio : list (string * npfloat))
        (initial_investment : npfloat) (stats : MonteCarlo.statistics)
        (rs : list (list R)) (ws : list R) :
  MonteCarlo.calculate_portfolio_statistics prices portfolio
                                            initial_investment = inr stats ->
  rows (log_returns prices) = map (map Num) rs ->
  Forall (fun r => length r = length (columns prices)) rs ->
  rs <> [] ->
  MonteCarlo.weights stats = map Num ws ->
  exists m,
    Metrics.calculate_portfolio_metrics prices (MonteCarlo.weights stats)
    = Some m
    /\ Metrics.individual_returns m = MonteCarlo.mean_returns stats
    /\ mat_scale (Metrics.covariance_matrix m) (Num 252)
       = MonteCarlo.cov_matrix stats
    /\ Metrics.portfolio_return m = MonteCarlo.portfolio_return stats
    /\ finite (Metrics.portfolio_return m)
    /\ ((2 <= length rs)%nat ->
        Metrics.portfolio_volatility m = MonteCarlo.portfolio_volatility stats
        /\ Metrics.portfolio_volatility m
           = Num (sqrt (Linear.variance ws rs * 252))).
Proof.
  intros Hstats Hrows Hlen Hne Hws.
  destruct (CrossFacts.statistics_fields _ _ _ _ Hstats) as (_ & _ & Hwl).
  destruct (MetricsFacts.statistics_figures _ _ _ _ Hstats)
    as (Hmean & Hcov & Hret & Hvol).
  assert (Hwsl : length ws = length (columns (log_returns prices))).
  { change (columns (log_returns prices)) with (columns prices).
    rewrite <- Hwl, Hws, length_map. reflexivity. }
  unfold Metrics.calculate_portfolio_metrics.
  rewrite Hwl. change (columns (log_returns prices)) with (columns prices).
  rewrite Nat.eqb_refl. cbn [negb].
  eexists. split; [reflexivity|].
  cbn [Metrics.individual_returns Metrics.covariance_matrix
       Metrics.portfolio_return Metrics.portfolio_volatility].
  rewrite Hmean, Hcov, Hret, Hvol, Hmean, Hcov, Hws.
  destruct (MetricsFacts.historical_return (log_returns prices) rs ws
              Hrows Hlen Hne Hwsl) as [Hr Hfin].
  repeat split; try assumption.
  - apply (VolatilityFacts.historical_volatility (log_returns prices) rs ws
             Hrows Hlen H Hwsl).
  - apply (VolatilityFacts.historical_volatility (log_returns prices) rs ws
             Hrows Hlen H Hwsl).
Qed.

Lemma historical_figures_agree_witness :
  exists m,
    Metrics.calculate_portfolio_metrics
      Sample.flat_prices (MonteCarlo.weights Sample.flat_stats) = Some m
    /\ Metrics.individual_returns m = MonteCarlo.mean_returns Sample.flat_stats
    /\ mat_scale (Metrics.covariance_matrix m) (Num 252)
       = MonteCarlo.cov_matrix Sample.flat_stats
    /\ Metrics.portfolio_return m
       = MonteCarlo.portfolio_return Sample.flat_stats
    /\ finite (Metrics.portfolio_return m)
    /\ ((2 <= length [[0%R]; [0%R]])%nat ->
        Metrics.portfolio_volatility m
        = MonteCarlo.portfolio_volatility Sample.flat_stats
        /\ Metrics.portfolio_volatility m
           = Num (sqrt (Linear.variance [1%R] [[0%R]; [0%R]] * 252))).
Proof.
  apply (historical_figures_agree
           Sample.flat_prices Sample.flat_composition (Num 100000)
           Sample.flat_stats [[0%R]; [0%R]] [1%R]).
  - exact SampleFacts.flat_statistics.
  - rewrite SampleFacts.flat_log_returns. reflexivity.
  - repeat constructor.
  - discriminate.
  - reflexivity.
Defined.

(** X15.  More simulations keep the earlier ones.  From the same
    generator state, a run with more simulations fails exactly when the
    shorter one does, and otherwise repeats it: every stored portfolio
    value and asset price of a simulation that the shorter run has is the
    same in the longer run, in both scripts, because simulation [sim]
    draws the shocks numbered from [sim * horizon_days * n_assets] on,
    whatever the number of simulations. *)
Theorem more_simulations_keep_the_earlier_ones
        (g : rng) (stats : MonteCarlo.statistics) (prices : frame)
        (weights : list npfloat) (initial_value : npfloat)
        (n_sims n_sims' horizon_days : nat) :
  (n_sims <= n_sims')%nat ->
  match MonteCarlo.run_monte_carlo_portfolio g stats prices n_sims
                                             horizon_days,
        MonteCarlo.run_monte_carlo_portfolio g stats prices n_sims'
                                             horizon_days
  with
  | (inr (paths, individual), _), (inr (paths', individual'), _) =>
      forall sim, (sim < n_sims)%nat ->
        (forall day, (day <= horizon_days)%nat ->
           at2 paths day sim = at2 paths' day sim)
        /\ (forall i, (i < length (columns prices))%nat ->
              at3 individual 1 i sim = at3 individual' 1 i sim)
  | (inl e, _), (inl e', _) => e = e'
  | _, _ => False
  end
  /\ match Simulator.run_portfolio_simulation g prices weights n_sims
                                              horizon_days initial_value,
           Simulator.run_portfolio_simulation g prices weights n_sims'
                                              horizon_days initial_value
     with
     | (inr batch, _), (inr batch', _) =>
         forall sim, (sim < n_sims)%nat ->
           forall day, (day <= horizon_days)%nat ->
             at2 (Simulator.portfolio_paths batch) day sim
             = at2 (Simulator.portfolio_paths batch') day sim
             /\ (forall i, (i < length weights)%nat ->
                   at3 (Simulator.stock_paths batch) day i sim
                   = at3 (Simulator.stock_paths batch') day i sim)
     | (inl e, _), (inl e', _) => e = e'
     | _, _ => False
     end.
Proof.
  intros Hn. split.
  - destruct (factorize (length (cov (MonteCarlo.returns stats)))
                        (cov (MonteCarlo.returns stats))) as [e|[c l]] eqn:Hf.
    + unfold MonteCarlo.run_monte_carlo_portfolio. rewrite Hf. reflexivity.
    + destruct (MonteCarloRun.run_paths g stats prices n_sims horizon_days
                                        c l Hf)
        as (paths & individual & Hrun & _ & Hat).
      destruct (MonteCarloRun.run_paths g stats prices n_sims' horizon_days
                                        c l Hf)
        as (paths' & individual' & Hrun' & _ & Hat').
      pose proof (RunFacts.run_final_prices g stats prices n_sims horizon_days
                    c l paths individual _ Hf Hrun) as Hind.
      pose proof (RunFacts.run_final_prices g stats prices n_sims' horizon_days
                    c l paths' individual' _ Hf Hrun') as Hind'.
      rewrite Hrun, Hrun'. intros sim Hsim. split.
      * intros day _. rewrite Hat, Hat'. cbv zeta.
        replace (sim <? n_sims)%nat with true
          by (symmetry; apply Nat.ltb_lt; lia).
        replace (sim <? n_sims')%nat with true
          by (symmetry; apply Nat.ltb_lt; lia).
        reflexivity.
      * intros i _. rewrite Hind, Hind' by lia. reflexivity.
  - destruct (iloc_last prices) as [e|last] eqn:Hlast.
    + unfold Simulator.run_portfolio_simulation. rewrite Hlast. reflexivity.
    + destruct (factorize (length weights) (cov (log_returns prices)))
        as [e|[c l]] eqn:Hf.
      * unfold Simulator.run_portfolio_simulation. rewrite Hlast, Hf.
        reflexivity.
      * destruct (RunFacts.run_simulation g prices weights n_sims horizon_days
                    initial_value last c l Hlast Hf)
          as (batch & g1 & Hrun & H3 & H2 & _).
        destruct (RunFacts.run_simulation g prices weights n_sims' horizon_days
                    initial_value last c l Hlast Hf)
          as (batch' & g2 & Hrun' & H3' & H2' & _).
        rewrite Hrun, Hrun'. intros sim Hsim day _. split.
        -- rewrite H2, H2'.
           replace (sim <? n_sims)%nat with true
             by (symmetry; apply Nat.ltb_lt; lia).
           replace (sim <? n_sims')%nat with true
             by (symmetry; apply Nat.ltb_lt; lia).
           reflexivity.
        -- intros i _. rewrite H3, H3'.
           replace (sim <? n_sims)%nat with true
             by (symmetry; apply Nat.ltb_lt; lia).
           replace (sim <? n_sims')%nat with true
             by (symmetry; apply Nat.ltb_lt; lia).
           reflexivity.
Qed.

Lemma more_simulations_keep_the_earlier_ones_witness :
  match MonteCarlo.run_monte_carlo_portfolio Sample.steady Sample.flat_stats
                                             Sample.flat_prices 1 1,
        MonteCarlo.run_monte_carlo_portfolio Sample.steady Sample.flat_stats
                                             Sample.flat_prices 2 1
  with
  | (inr (paths, individual), _), (inr (paths', individual'), _) =>
      forall sim, (sim < 1)%nat ->
        (forall day, (day <= 1)%nat ->
           at2 paths day sim = at2 paths' day sim)
        /\ (forall i, (i < length (columns Sample.flat_prices))%nat ->
              at3 individual 1 i sim = at3 individual' 1 i sim)
  | (inl e, _), (inl e', _) => e = e'
  | _, _ => False
  end
  /\ match Simulator.run_portfolio_simulation
             Sample.steady Sample.flat_prices [Num 1] 1 1 (Num 100000),
           Simulator.run_portfolio_simulation
             Sample.steady Sample.flat_prices [Num 1] 2 1 (Num 100000)
     with
     | (inr batch, _), (inr batch', _) =>
         forall sim, (sim < 1)%nat ->
           forall day, (day <= 1)%nat ->
             at2 (Simulator.portfolio_paths batch) day sim
             = at2 (Simulator.portfolio_paths batch') day sim
             /\ (forall i, (i < length [Num 1])%nat ->
                   at3 (Simulator.stock_paths batch) day i sim
                   = at3 (Simulator.stock_paths batch') day i sim)
     | (inl e, _), (inl e', _) => e = e'
     | _, _ => False
     end.
Proof.
  apply (more_simulations_keep_the_earlier_ones
           Sample.steady Sample.flat_stats Sample.flat_prices [Num 1]
           (Num 100000) 1 2 1).
  lia.
Defined.
